(** * SPF resolution engine of the domain checker (SPFChecker component)

    A shallow embedding of [calculateIPv4Count], [resolveSPFRecord],
    [parseSPFTree] and [checkSPF], followed by the properties of the
    resolver that the specification states.

    Conventions of the embedding.
    - A JavaScript string is the [string] of its UTF-8 bytes, so that
      [TextEncoder().encode(s).length] is [String.length s]; every literal
      the code compares against is ASCII.
    - [fetch] is an oracle [dns : string -> fetch_outcome] from the queried
      name to what the DNS-over-HTTPS endpoint answers; the names queried
      are logged, in order, in the [requests] field of the [world].
    - The diagnostics object [context] is one object mutated by every call;
      it is the [ctx] field of the threaded [world].  Every [Set] lives in a
      store of objects ([sets]), a [visited] argument is a reference into it.
    - [await] is sequential: a call runs to completion before its caller
      resumes, so an async function is a function on worlds.  Recursion is
      bounded by an explicit [fuel]; running out of it is [None]. *)

From Stdlib Require Import Ascii String ZArith SpecFloat.
From stdpp Require Import gmap strings list pretty.

Open Scope string_scope.
Open Scope list_scope.
Set Warnings "-register-all,-clear-no-such-hyp".

(** ** JavaScript strings *)

Module JsString.

Definition byte_at (i : nat) (s : string) : N :=
  match String.get i s with
  | Some c => N_of_ascii c
  | None => 256%N
  end.

(** Number of bytes of the white-space character (the class [\s], which
    is also what [trim] and [parseInt] skip) that starts [s]; [0] when [s]
    starts with something else. *)
Definition ws_width (s : string) : nat :=
  let b0 := byte_at 0 s in
  let b1 := byte_at 1 s in
  let b2 := byte_at 2 s in
  if ((9 <=? b0) && (b0 <=? 13) || (b0 =? 32))%N then 1
  else if ((b0 =? 194) && (b1 =? 160))%N then 2
  else if ((b0 =? 225) && (b1 =? 154) && (b2 =? 128))%N then 3
  else if ((b0 =? 226) && (b1 =? 128) &&
           ((128 <=? b2) && (b2 <=? 138) || (b2 =? 168) || (b2 =? 169)
            || (b2 =? 175)))%N then 3
  else if ((b0 =? 226) && (b1 =? 129) && (b2 =? 159))%N then 3
  else if ((b0 =? 227) && (b1 =? 128) && (b2 =? 128))%N then 3
  else if ((b0 =? 239) && (b1 =? 187) && (b2 =? 191))%N then 3
  else 0.

Fixpoint rev_onto (acc : list ascii) (s : string) : string :=
  match acc with
  | [] => s
  | c :: acc' => rev_onto acc' (String c s)
  end.

(** [s.startsWith(p)] *)
Fixpoint startsWith (p s : string) : bool :=
  match p with
  | EmptyString => true
  | String a p' =>
      match s with
      | EmptyString => false
      | String b s' => Ascii.eqb a b && startsWith p' s'
      end
  end.

(** [s.includes(p)] *)
Fixpoint includes (p s : string) : bool :=
  startsWith p s ||
  match s with
  | EmptyString => false
  | String _ s' => includes p s'
  end.

(** [s.substring(n)] *)
Fixpoint substring_from (n : nat) (s : string) : string :=
  match n, s with
  | O, _ => s
  | S _, EmptyString => EmptyString
  | S n', String _ s' => substring_from n' s'
  end.

(** [s.charAt(0)], the empty string when [s] is empty. *)
Definition charAt0 (s : string) : string :=
  match s with
  | EmptyString => EmptyString
  | String c _ => String c EmptyString
  end.

(** [s.replace] of every double-quote character by the empty string. *)
Fixpoint remove_quotes (s : string) : string :=
  match s with
  | EmptyString => EmptyString
  | String c s' =>
      if Ascii.eqb c "034"%char then remove_quotes s'
      else String c (remove_quotes s')
  end.

Fixpoint trimStart_go (skip : nat) (s : string) : string :=
  match s with
  | EmptyString => EmptyString
  | String _ s' =>
      match skip with
      | S k => trimStart_go k s'
      | O => match ws_width s with
             | O => s
             | S k => trimStart_go k s'
             end
      end
  end.

(** [pend] holds, reversed, the white space read since the last other
    byte: it is kept when another byte follows and dropped at the end. *)
Fixpoint trimEnd_go (skip : nat) (pend : list ascii) (s : string) : string :=
  match s with
  | EmptyString => EmptyString
  | String c s' =>
      match skip with
      | S k => trimEnd_go k (c :: pend) s'
      | O => match ws_width s with
             | O => rev_onto pend (String c (trimEnd_go 0 [] s'))
             | S k => trimEnd_go k (c :: pend) s'
             end
      end
  end.

(** [s.trim()] *)
Definition trim (s : string) : string :=
  trimEnd_go 0 [] (trimStart_go 0 s).

Definition flush (cur : list ascii) : list string :=
  match cur with
  | [] => []
  | _ :: _ => [rev_onto cur EmptyString]
  end.

(** [s.split(/\s+/).filter(m => m.trim())]: the split leaves an empty
    piece only at a white-space border of [s], the filter removes the
    empty pieces, and what remains are the maximal runs without white
    space, in order. *)
Fixpoint words_go (skip : nat) (cur : list ascii) (s : string) : list string :=
  match s with
  | EmptyString => flush cur
  | String c s' =>
      match skip with
      | S k => words_go k cur s'
      | O => match ws_width s with
             | O => words_go 0 (c :: cur) s'
             | S k => flush cur ++ words_go k [] s'
             end
      end
  end.

Definition words (s : string) : list string := words_go 0 [] s.

(** The second element of [s.split('/')]: [None] is [undefined]. *)
Fixpoint upto_slash (s : string) : string :=
  match s with
  | EmptyString => EmptyString
  | String c s' =>
      if Ascii.eqb c "/"%char then EmptyString else String c (upto_slash s')
  end.

Fixpoint split_slash_1 (s : string) : option string :=
  match s with
  | EmptyString => None
  | String c s' =>
      if Ascii.eqb c "/"%char then Some (upto_slash s') else split_slash_1 s'
  end.

(** ASCII letters only: a pattern with the [i] flag (and no [u] flag)
    relates a non-ASCII character to no ASCII one. *)
Definition lower (c : ascii) : ascii :=
  let n := N_of_ascii c in
  if ((65 <=? n) && (n <=? 90))%N then ascii_of_N (n + 32) else c.


(** [p] is lower case; matches it at the start of [s] whatever the case
    of the letters of [s], and returns what follows. *)
Fixpoint after_ci (p s : string) : option string :=
  match p with
  | EmptyString => Some s
  | String a p' =>
      match s with
      | EmptyString => None
      | String b s' => if Ascii.eqb a (lower b) then after_ci p' s' else None
      end
  end.

(** The same, case-sensitive. *)
Fixpoint after (p s : string) : option string :=
  match p with
  | EmptyString => Some s
  | String a p' =>
      match s with
      | EmptyString => None
      | String b s' => if Ascii.eqb a b then after p' s' else None
      end
  end.

End JsString.

(** ** JavaScript numbers

    A number is an IEEE 754 double: the [spec_float] of the Standard
    Library with the parameters of binary64, that is a zero, an infinity,
    [NaN], or a sign, a mantissa [m] and an exponent [e] for [m * 2^e].
    [a + b] is [SFadd]: the sum rounded to the nearest double, ties to
    even, with an infinity on overflow. *)

Definition prec : Z := 53.
Definition emax : Z := 1024.

Definition number : Type := spec_float.

Definition NaN : number := S754_nan.

(** The double nearest to the integer [z]: a literal such as [0] or [32]. *)
Definition of_Z (z : Z) : number := binary_normalize prec emax z 0 false.

(** [a + b] *)
Definition add (a b : number) : number := SFadd prec emax a b.

(** [Math.pow(2, e)] for an integer [e], the double nearest to [2^e]: [2^e]
    itself from [-1074] to [1023], [0] below and [Infinity] above. *)
Definition pow2 (e : Z) : number := binary_normalize prec emax 1 e false.

Module ParseInt.

Definition digit (radix : Z) (c : ascii) : option Z :=
  let n := Z.of_N (N_of_ascii c) in
  let v :=
    (if (48 <=? n) && (n <=? 57) then n - 48
     else if (97 <=? n) && (n <=? 122) then n - 87
     else if (65 <=? n) && (n <=? 90) then n - 55
     else 36)%Z in
  if (v <? radix)%Z then Some v else None.

(** The longest prefix of digits, read in the radix; [None] when there is
    no digit at all. *)
Fixpoint digits (radix acc : Z) (seen : bool) (s : string) : option Z :=
  match s with
  | EmptyString => if seen then Some acc else None
  | String c s' =>
      match digit radix c with
      | Some d => digits radix (acc * radix + d)%Z true s'
      | None => if seen then Some acc else None
      end
  end.

Definition unsigned (s : string) : option Z :=
  if JsString.startsWith "0x" s || JsString.startsWith "0X" s
  then digits 16%Z 0%Z false (JsString.substring_from 2 s)
  else digits 10%Z 0%Z false s.

(** [parseInt(s)] with no radix argument; [None] is [NaN]. *)
Definition parseInt (s : string) : option Z :=
  let s := JsString.trimStart_go 0 s in
  match s with
  | String "-" s' => Z.opp <$> unsigned s'
  | String "+" s' => unsigned s'
  | _ => unsigned s
  end.

End ParseInt.

(** [bits ? parseInt(bits) : 32], where [bits] is the piece after the
    first slash; an absent or empty piece is falsy, and [None] is [NaN].
    [parseInt] gives the double nearest to the integer it reads, which is
    the integer itself below [2^53]. *)
Definition prefixLength (cidr : string) : option Z :=
  match JsString.split_slash_1 cidr with
  | Some (String _ _ as bits) => ParseInt.parseInt bits
  | _ => Some 32%Z
  end.

(** [calculateIPv4Count].  [32 - prefixLength] is computed on the integer
    read: where the double of the code is another number, both are beyond
    [2^53] in absolute value, with the same sign, and the power is [0] or
    [Infinity] for both. *)
Definition calculateIPv4Count (cidr : string) : number :=
  match prefixLength cidr with
  | Some p => pow2 (32 - p)%Z
  | None => NaN
  end.

(** ** Recognising a mechanism *)

Definition is_qualifier (c : ascii) : bool :=
  Ascii.eqb c "+" || Ascii.eqb c "-" || Ascii.eqb c "~" || Ascii.eqb c "?".

(** The optional group at the head of the patterns, followed by [p]: the
    group first takes the qualifier, and gives it back if [p] then fails. *)
Definition opt_qualifier {A} (p : string -> option A) (s : string) : option A :=
  match s with
  | String c s' =>
      if is_qualifier c
      then match p s' with
           | Some r => Some r
           | None => p s
           end
      else p s
  | EmptyString => p s
  end.

(** What may follow a keyword: one of the characters of [seps], or the end
    of the token. *)
Definition boundary (seps : string) (rest : string) : bool :=
  match rest with
  | EmptyString => true
  | String c _ => JsString.includes (String c EmptyString) seps
  end.

Definition keyword_ci (kw seps : string) (s : string) : option unit :=
  match JsString.after_ci kw s with
  | Some rest => if boundary seps rest then Some tt else None
  | None => None
  end.

(** The text after the match of the [include:] pattern. *)
Definition match_include : string -> option string :=
  opt_qualifier (JsString.after "include:").

Definition match_ip4 : string -> option string :=
  opt_qualifier (JsString.after "ip4:").

Definition match_ip6 : string -> option string :=
  opt_qualifier (JsString.after "ip6:").

Definition match_ptr : string -> option unit :=
  opt_qualifier (keyword_ci "ptr" ":").

Definition match_a : string -> option unit :=
  opt_qualifier (keyword_ci "a" ":/").

Definition match_mx : string -> option unit :=
  opt_qualifier (keyword_ci "mx" ":/").

Definition match_exists : string -> option unit :=
  opt_qualifier (fun s => (fun _ => tt) <$> JsString.after_ci "exists:" s).

Definition match_all : string -> option unit :=
  opt_qualifier (fun s =>
    match JsString.after "all" s with
    | Some EmptyString => Some tt
    | _ => None
    end).

(** [s.replace(re, '')] for an anchored pattern: the match is removed, and
    a string that does not match is returned as it is. *)
Definition replace_match (m : string -> option string) (s : string) : string :=
  default s (m s).

(** The branch of the [if]/[else if] chain of the loop that a token takes. *)
Inductive kind :=
| KInclude | KRedirect | KIp4 | KIp6 | KPtr | KA | KMx | KExists | KAll
| KVersion   (* starts with v=spf1: no branch is taken *)
| KUnknown.

(** [s.match(re)] used as a condition. *)
Definition matches {A} (m : string -> option A) (s : string) : bool :=
  match m s with
  | Some _ => true
  | None => false
  end.

Definition classify (trimmed : string) : kind :=
  if matches match_include trimmed then KInclude
  else if JsString.startsWith "redirect=" trimmed then KRedirect
  else if matches match_ip4 trimmed then KIp4
  else if matches match_ip6 trimmed then KIp6
  else if matches match_ptr trimmed then KPtr
  else if matches match_a trimmed then KA
  else if matches match_mx trimmed then KMx
  else if matches match_exists trimmed then KExists
  else if matches match_all trimmed then KAll
  else if negb (JsString.startsWith "v=spf1" trimmed) then KUnknown
  else KVersion.

(** ** The mechanism tree *)

(** An element of a node's [children] array; the [type] field is the
    constructor. *)
Inductive child :=
| CInclude (mechanism domain record : string) (children : list child)
           (dnsLookups : nat) (netblocks : list string) (qualifier : string)
| CRedirect (mechanism domain record : string) (children : list child)
            (dnsLookups : nat) (netblocks : list string)
| CIp4 (mechanism value : string) (count : number)
| CIp6 (mechanism value : string)
| CPtr (mechanism : string) (dnsLookups : nat)
| CA (mechanism : string) (dnsLookups : nat)
| CMx (mechanism : string) (dnsLookups : nat)
| CExists (mechanism : string) (dnsLookups : nat)
| CAll (mechanism qualifier : string) (position : nat).

(** The object [parseSPFTree] returns.  [warnings] and [errors] are the
    arrays of the context themselves and [voidLookups] its counter when the
    call returns; the caller of a nested call reads none of the three. *)
Module Node.
Record t := {
  domain : string;
  record : string;
  children : list child;
  dnsLookups : nat;
  netblocks : list string;
  warnings : list string;
  errors : list string;
  voidLookups : nat
}.
End Node.

(** The [context] object. *)
Module Context.
Record t := {
  voidLookups : nat;
  warnings : list string;
  errors : list string
}.
(** [{ voidLookups: 0, warnings: [], errors: [] }] *)
Definition fresh : t :=
  {| voidLookups := 0; warnings := []; errors := [] |}.
End Context.

(** ** The DNS-over-HTTPS endpoint *)

Record answer := { data : option string }.

Record doh_json := {
  Status : Z;
  Answer : option (list answer)
}.

Inductive fetch_outcome :=
| Throws                  (* [fetch] or [response.json()] rejects *)
| NotOk                   (* [response.ok] is false *)
| Json (body : doh_json).

(** ** The world a call runs in *)

Record world := {
  ctx : Context.t;
  sets : list (gset string);
  requests : list string
}.

Definition with_ctx (f : Context.t -> Context.t) (w : world) : world :=
  {| ctx := f (ctx w); sets := sets w; requests := requests w |}.

(** [context.errors.push(m)] *)
Definition push_error (m : string) : world -> world :=
  with_ctx (fun c =>
    {| Context.voidLookups := Context.voidLookups c;
       Context.warnings := Context.warnings c;
       Context.errors := Context.errors c ++ [m] |}).

(** [context.warnings.push(m)] *)
Definition push_warning (m : string) : world -> world :=
  with_ctx (fun c =>
    {| Context.voidLookups := Context.voidLookups c;
       Context.warnings := Context.warnings c ++ [m];
       Context.errors := Context.errors c |}).

(** [context.voidLookups += 1] *)
Definition count_void : world -> world :=
  with_ctx (fun c =>
    {| Context.voidLookups := Context.voidLookups c + 1;
       Context.warnings := Context.warnings c;
       Context.errors := Context.errors c |}).

(** The elements of the [Set] at reference [s]. *)
Definition Set_elements (s : nat) (w : world) : gset string :=
  default ∅ (sets w !! s).

(** [s.has(x)] *)
Definition Set_has (s : nat) (x : string) (w : world) : bool :=
  bool_decide (x ∈ Set_elements s w).

(** [s.add(x)] *)
Definition Set_add (s : nat) (x : string) (w : world) : world :=
  {| ctx := ctx w;
     sets := <[s := {[x]} ∪ Set_elements s w]> (sets w);
     requests := requests w |}.

(** [new Set(elements)]: a new object, at the next reference. *)
Definition Set_new (elements : gset string) (w : world) : nat * world :=
  (length (sets w),
   {| ctx := ctx w; sets := sets w ++ [elements]; requests := requests w |}).

(** [new Set(s)] *)
Definition Set_copy (s : nat) (w : world) : nat * world :=
  Set_new (Set_elements s w) w.

(** [fetch] of the TXT records of [name] *)
Definition log_request (name : string) (w : world) : world :=
  {| ctx := ctx w; sets := sets w; requests := requests w ++ [name] |}.

(** ** Messages *)

Module Msg.
Definition cycle (domain : string) : string :=
  "최대 깊이 초과 또는 순환 참조 감지: " +:+ domain.
Definition void_limit (voidLookups : nat) (domain : string) : string :=
  "Void lookup 제한 초과 (" +:+ pretty voidLookups +:+ "/2): " +:+ domain.
Definition multiple_spf (domain : string) : string :=
  "PermError: 도메인 " +:+ domain +:+
  "에 여러 개의 SPF 레코드가 존재합니다. RFC 7208에 따라 하나의 레코드만 허용됩니다.".
Definition nxdomain (domain : string) : string :=
  "도메인 " +:+ domain +:+ "이 존재하지 않습니다 (NXDOMAIN)".
Definition no_spf (domain : string) : string :=
  "도메인 " +:+ domain +:+ "에 SPF 레코드가 없습니다".
Definition bad_format (domain : string) : string :=
  "잘못된 SPF 레코드 형식: v=spf1로 시작해야 합니다 (도메인: " +:+ domain +:+ ")".
Definition too_long (recordLength : nat) (domain : string) : string :=
  "레코드 길이 초과: " +:+ pretty recordLength +:+
  " 옥텟 (512 옥텟 이하 권장, 도메인: " +:+ domain +:+ ")".
Definition long (recordLength : nat) (domain : string) : string :=
  "레코드 길이 주의: " +:+ pretty recordLength +:+
  " 옥텟 (450 옥텟 이하 권장, UDP 호환성, 도메인: " +:+ domain +:+ ")".
Definition after_all (trimmed domain : string) : string :=
  "'all' 메커니즘 이후의 메커니즘은 무시됩니다: " +:+ trimmed +:+
  " (도메인: " +:+ domain +:+ ")".
Definition redirect_ignored (domain : string) : string :=
  "redirect는 'all' 메커니즘이 있을 때 무시됩니다 (도메인: " +:+ domain +:+ ")".
Definition ptr (domain : string) : string :=
  "PTR 메커니즘은 성능과 신뢰성 문제로 인해 RFC 7208에서 사용을 권장하지 않습니다 (도메인: "
  +:+ domain +:+ ")".
Definition mx (domain : string) : string :=
  "MX 메커니즘은 추가 DNS 조회가 필요합니다. 각 MX 레코드는 최대 10개의 A/AAAA 레코드를 조회할 수 있습니다 (도메인: "
  +:+ domain +:+ ")".
Definition unknown (trimmed domain : string) : string :=
  "알 수 없는 메커니즘 또는 수정자: " +:+ trimmed +:+ " (도메인: " +:+ domain +:+ ")".
Definition no_domain : string := "도메인을 입력해주세요.".
Definition not_found : string := "SPF 레코드를 찾을 수 없습니다.".
End Msg.

(** ** resolveSPFRecord *)

Inductive lookup_error :=
| max_depth | network | nxdomain | servfail | no_answer | no_spf
| multiple_spf | exception.

#[global] Instance lookup_error_eq_dec : EqDecision lookup_error.
Proof. solve_decision. Defined.

(** The object [resolveSPFRecord] returns: [record] and [error] are [null]
    when [None], [records] is only set for [multiple_spf]. *)
Module Result.
Record t := {
  record : option string;
  error : option lookup_error;
  isVoid : bool;
  records : list string
}.
Definition failure (e : lookup_error) (void : bool) : t :=
  {| record := None; error := Some e; isVoid := void; records := [] |}.
End Result.

(** The filter that selects the SPF records of an answer. *)
Definition is_spf (a : answer) : bool :=
  match data a with
  | Some (String _ _ as d) =>
      JsString.includes "v=spf1" d
      || JsString.includes (String "034"%char "v=spf1") d
  | _ => false
  end.

(** [r.data.replace(...).trim()], on an answer the filter kept. *)
Definition record_text (a : answer) : string :=
  JsString.trim (JsString.remove_quotes (default "" (data a))).

(** The body of the [try] block of [resolveSPFRecord], from the outcome
    of the [fetch] on. *)
Definition interpret (outcome : fetch_outcome) : Result.t :=
  match outcome with
  | Throws => Result.failure exception false
  | NotOk => Result.failure network false
  | Json body =>
      if (Status body =? 3)%Z then Result.failure nxdomain true
      else if (Status body =? 2)%Z then Result.failure servfail false
      else
        match Answer body with
        | Some ((_ :: _) as answers) =>
            if negb (Status body =? 0)%Z
            then Result.failure no_answer true
            else
              let spfRecords := filter is_spf answers in
              match spfRecords with
              | [] => Result.failure no_spf false
              | [r] =>
                  {| Result.record := Some (record_text r);
                     Result.error := None;
                     Result.isVoid := false;
                     Result.records := [] |}
              | _ =>
                  {| Result.record := None;
                     Result.error := Some multiple_spf;
                     Result.isVoid := false;
                     Result.records := map record_text spfRecords |}
              end
        | _ => Result.failure no_answer true
        end
  end.

Section Resolver.

Variable dns : string -> fetch_outcome.

Definition resolveSPFRecord (domain : string) (depth : nat) (visited : nat)
    (w : world) : Result.t * world :=
  if (10 <? depth)%nat || Set_has visited domain w
  then (Result.failure max_depth false, w)
  else
    let w := Set_add visited domain w in
    let w := log_request domain w in
    (interpret (dns domain), w).

End Resolver.

(** ** parseSPFTree *)

(** The variables of one call that the loop over the mechanisms updates. *)
Record locals := {
  children : list child;
  dnsLookups : nat;
  netblocks : list string;
  allFound : bool
}.

(** [getQualifier] *)
Definition getQualifier (mech : string) : string :=
  let first := JsString.charAt0 mech in
  if bool_decide (first ∈ ["+"; "-"; "~"; "?"]) then first else "+".

(** The [mechanism] field of an [include], [ip4] or [ip6] child. *)
Definition explicit_qualifier (trimmed : string) : string :=
  if JsString.startsWith "+" trimmed
     || bool_decide (JsString.charAt0 trimmed ∈ ["-"; "~"; "?"])
  then trimmed
  else "+" +:+ trimmed.

(** The [qualifier] field of an [all] child. *)
Definition all_qualifier (trimmed : string) : string :=
  let qualifier := JsString.charAt0 trimmed in
  if String.eqb qualifier "~" then "softfail"
  else if String.eqb qualifier "-" then "fail"
  else if String.eqb qualifier "?" then "neutral"
  else "pass".

(** [dnsLookups += n] *)
Definition add_lookups (n : nat) (l : locals) : locals :=
  {| children := children l; dnsLookups := dnsLookups l + n;
     netblocks := netblocks l; allFound := allFound l |}.

(** [children.push(c)] *)
Definition push_child (c : child) (l : locals) : locals :=
  {| children := children l ++ [c]; dnsLookups := dnsLookups l;
     netblocks := netblocks l; allFound := allFound l |}.

(** [netblocks.push(...nbs)] *)
Definition push_netblocks (nbs : list string) (l : locals) : locals :=
  {| children := children l; dnsLookups := dnsLookups l;
     netblocks := netblocks l ++ nbs; allFound := allFound l |}.

(** [allFound = true] *)
Definition set_allFound (l : locals) : locals :=
  {| children := children l; dnsLookups := dnsLookups l;
     netblocks := netblocks l; allFound := true |}.

(** What an [include] or [redirect] branch does with the node of the nested
    call, when there is one. *)
Definition attach (c : Node.t) (as_child : child) (l : locals) : locals :=
  push_netblocks (Node.netblocks c)
    (add_lookups (Node.dnsLookups c) (push_child as_child l)).

Section Tree.

Variable dns : string -> fetch_outcome.

(** The nested call [parseSPFTree(domain, depth, visited, context)];
    [None] when it does not return. *)
Variable nested :
  string -> nat -> nat -> world -> option (option Node.t * world).

(** One iteration of the loop, for the mechanism at index [i]. *)
Definition iteration (domain : string) (depth visited : nat) (i : nat)
    (mechanism : string) (l : locals) (w : world) : option (locals * world) :=
  let trimmed := JsString.trim mechanism in
  if allFound l
  then Some (l, push_warning (Msg.after_all trimmed domain) w)
  else
    match classify trimmed with
    | KInclude =>
        let qualifier := getQualifier trimmed in
        let includeDomain := replace_match match_include trimmed in
        let l := add_lookups 1 l in
        let '(copy, w) := Set_copy visited w in
        match nested includeDomain (depth + 1) copy w with
        | None => None
        | Some (Some c, w) =>
            Some (attach c
                    (CInclude (explicit_qualifier trimmed) includeDomain
                       (Node.record c) (Node.children c)
                       (Node.dnsLookups c + 1) (Node.netblocks c) qualifier)
                    l, w)
        | Some (None, w) => Some (l, w)
        end
    | KRedirect =>
        if allFound l
        then Some (l, push_warning (Msg.redirect_ignored domain) w)
        else
          let redirectDomain := JsString.substring_from 9 trimmed in
          let l := add_lookups 1 l in
          let '(copy, w) := Set_copy visited w in
          match nested redirectDomain (depth + 1) copy w with
          | None => None
          | Some (Some c, w) =>
              Some (attach c
                      (CRedirect trimmed redirectDomain
                         (Node.record c) (Node.children c)
                         (Node.dnsLookups c + 1) (Node.netblocks c))
                      l, w)
          | Some (None, w) => Some (l, w)
          end
    | KIp4 =>
        let ip := replace_match match_ip4 trimmed in
        let cidr := if JsString.includes "/" ip then ip else ip +:+ "/32" in
        let l := push_netblocks [cidr] l in
        Some (push_child
                (CIp4 (explicit_qualifier trimmed) cidr
                   (calculateIPv4Count cidr)) l, w)
    | KIp6 =>
        let ip := replace_match match_ip6 trimmed in
        Some (push_child (CIp6 (explicit_qualifier trimmed) ip) l, w)
    | KPtr =>
        let l := add_lookups 1 l in
        let w := push_warning (Msg.ptr domain) w in
        Some (push_child (CPtr trimmed 1) l, w)
    | KA =>
        let l := add_lookups 1 l in
        Some (push_child (CA trimmed 1) l, w)
    | KMx =>
        let l := add_lookups 1 l in
        let w := push_warning (Msg.mx domain) w in
        Some (push_child (CMx trimmed 1) l, w)
    | KExists =>
        let l := add_lookups 1 l in
        Some (push_child (CExists trimmed 1) l, w)
    | KAll =>
        let l := set_allFound l in
        Some (push_child (CAll trimmed (all_qualifier trimmed) i) l, w)
    | KUnknown =>
        Some (l, push_warning (Msg.unknown trimmed domain) w)
    | KVersion => Some (l, w)
    end.

(** The loop, from index [i] on; [mechanisms] is what is left of the
    array. *)
Fixpoint for_loop (domain : string) (depth visited : nat) (i : nat)
    (mechanisms : list string) (l : locals) (w : world)
    : option (locals * world) :=
  match mechanisms with
  | [] => Some (l, w)
  | m :: rest =>
      match iteration domain depth visited i m l w with
      | None => None
      | Some (l, w) => for_loop domain depth visited (S i) rest l w
      end
  end.

(** The void-lookup accounting that follows the lookup. *)
Definition track_void (domain : string) (result : Result.t) (w : world)
    : world :=
  if Result.isVoid result
  then
    let w := count_void w in
    if (2 <? Context.voidLookups (ctx w))%nat
    then push_error (Msg.void_limit (Context.voidLookups (ctx w)) domain) w
    else w
  else w.

(** The checks on the record that was found. *)
Definition check_shape (domain record : string) (w : world) : world :=
  let w :=
    if negb (JsString.startsWith "v=spf1" record)
    then push_error (Msg.bad_format domain) w
    else w in
  let recordLength := String.length record in
  if (512 <? recordLength)%nat
  then push_error (Msg.too_long recordLength domain) w
  else if (450 <? recordLength)%nat
  then push_warning (Msg.long recordLength domain) w
  else w.

Definition parseSPFTree_body (domain : string) (depth visited : nat)
    (w : world) : option (option Node.t * world) :=
  if (10 <? depth)%nat || Set_has visited domain w
  then Some (None, push_error (Msg.cycle domain) w)
  else
    let '(copy, w) := Set_copy visited w in
    let '(result, w) := resolveSPFRecord dns domain depth copy w in
    let w := track_void domain result w in
    if bool_decide (Result.error result = Some multiple_spf)
    then Some (None, push_error (Msg.multiple_spf domain) w)
    else
      match Result.record result with
      | Some (String _ _ as record) =>
          let w := check_shape domain record w in
          let w := Set_add visited domain w in
          let mechanisms := JsString.words record in
          match
            for_loop domain depth visited 0 mechanisms
              {| children := []; dnsLookups := 0; netblocks := [];
                 allFound := false |} w
          with
          | None => None
          | Some (l, w) =>
              Some (Some {| Node.domain := domain;
                            Node.record := record;
                            Node.children := children l;
                            Node.dnsLookups := dnsLookups l;
                            Node.netblocks := netblocks l;
                            Node.warnings := Context.warnings (ctx w);
                            Node.errors := Context.errors (ctx w);
                            Node.voidLookups := Context.voidLookups (ctx w) |},
                    w)
          end
      | _ =>
          let w :=
            if bool_decide (Result.error result = Some nxdomain)
            then push_warning (Msg.nxdomain domain) w
            else if bool_decide (Result.error result = Some no_spf)
            then push_warning (Msg.no_spf domain) w
            else w in
          Some (None, w)
      end.

End Tree.

(** [parseSPFTree(domain, depth, visited, context)], with every argument
    given; [None] when [fuel] nested calls are not enough. *)
Fixpoint parseSPFTree (dns : string -> fetch_outcome) (fuel : nat)
    (domain : string) (depth visited : nat) (w : world)
    : option (option Node.t * world) :=
  match fuel with
  | O => None
  | S fuel' =>
      parseSPFTree_body dns (parseSPFTree dns fuel') domain depth visited w
  end.

(** The world before a resolution: no request made, no object allocated,
    and the context that the default argument creates. *)
Definition initial : world :=
  {| ctx := Context.fresh; sets := []; requests := [] |}.

(** [parseSPFTree(domain)]: [depth = 0], [visited = new Set()] and a fresh
    context. *)
Definition parseSPFTree_root (dns : string -> fetch_outcome) (fuel : nat)
    (domain : string) : option (option Node.t * world) :=
  let '(visited, w) := Set_new ∅ initial in
  parseSPFTree dns fuel domain 0 visited w.

(** ** checkSPF *)

(** The object handed to [setResult]. *)
Module Report.
Record t := {
  tree : Node.t;
  dnsLookups : nat;
  netblockCount : nat;
  ipv4Count : number;
  duplicates : list (string * nat);
  warnings : list string;
  errors : list string;
  voidLookups : nat
}.
End Report.

(** The [error] and [result] state of the component when [checkSPF] is
    done; [None] is [null]. *)
Record display := {
  error : option string;
  result : option Report.t
}.

(** [netblockCount[nb] = (netblockCount[nb] || 0) + 1], on an object whose
    keys stay in insertion order (a netblock holds a slash, so that it is
    never an integer key). *)
Fixpoint count_netblock (nb : string) (netblockCount : list (string * nat))
    : list (string * nat) :=
  match netblockCount with
  | [] => [(nb, 1)]
  | (k, c) :: others =>
      if String.eqb k nb then (k, c + 1) :: others
      else (k, c) :: count_netblock nb others
  end.

(** The elements of [new Set(array)], spread: first occurrences, in
    order. *)
Definition unique (array : list string) : list string :=
  fold_left (fun seen x => if bool_decide (x ∈ seen) then seen else seen ++ [x])
    array [].

(** [uniqueNetblocks.reduce((sum, nb) => sum + calculateIPv4Count(nb), 0)] *)
Definition totalIPv4Count (uniqueNetblocks : list string) : number :=
  fold_left (fun sum nb => add sum (calculateIPv4Count nb)) uniqueNetblocks
    (of_Z 0).

Definition report (spfTree : Node.t) : Report.t :=
  let netblockCount :=
    fold_left (fun counts nb => count_netblock nb counts)
      (Node.netblocks spfTree) [] in
  let duplicates := filter (fun e => 1 <? e.2)%nat netblockCount in
  let uniqueNetblocks := unique (Node.netblocks spfTree) in
  {| Report.tree := spfTree;
     Report.dnsLookups := Node.dnsLookups spfTree;
     Report.netblockCount := length uniqueNetblocks;
     Report.ipv4Count := totalIPv4Count uniqueNetblocks;
     Report.duplicates := duplicates;
     Report.warnings := Node.warnings spfTree;
     Report.errors := Node.errors spfTree;
     Report.voidLookups := Node.voidLookups spfTree |}.

(** [checkSPF], for the [domain] typed in, run in the first state of the
    component, where [error] and [result] are [null]; the value of
    [parseSPFTree] is all that it keeps of the resolution.  (On a blank
    text the function returns after [setError]: a report shown before
    would stay, and in the first state there is none.) *)
Definition checkSPF (dns : string -> fetch_outcome) (fuel : nat)
    (domain : string) : option display :=
  match JsString.trim domain with
  | EmptyString => Some {| error := Some Msg.no_domain; result := None |}
  | String _ _ as name =>
      match parseSPFTree_root dns fuel name with
      | None => None
      | Some (None, _) =>
          Some {| error := Some Msg.not_found; result := None |}
      | Some (Some spfTree, _) =>
          Some {| error := None; result := Some (report spfTree) |}
      end
  end.

(** ** Zones used in the examples *)

(** A successful answer with the given TXT strings. *)
Definition txt (strings : list string) : fetch_outcome :=
  Json {| Status := 0;
          Answer := Some (map (fun s => {| data := Some s |}) strings) |}.

Definition rcode (status : Z) : fetch_outcome :=
  Json {| Status := status; Answer := None |}.

(** A zone given by a table; a name that is not in it does not exist. *)
Fixpoint zone (table : list (string * fetch_outcome)) (name : string)
    : fetch_outcome :=
  match table with
  | [] => rcode 3
  | (n, o) :: others => if String.eqb n name then o else zone others name
  end.


(** ** What the component shows *)

(** The banner above the report: the first of the three conditions of the
    page that holds. *)
Inductive banner :=
| Serious (errors : list string)     (* [result.errors.length > 0] *)
| TooManyLookups (dnsLookups : nat)  (* [result.dnsLookups > 10] *)
| Valid.

Definition banner_of (result : Report.t) : banner :=
  match Report.errors result with
  | _ :: _ => Serious (Report.errors result)
  | [] =>
      if (10 <? Report.dnsLookups result)%nat
      then TooManyLookups (Report.dnsLookups result)
      else Valid
  end.

(** [getQualifierText] of [SPFTreeNode]. *)
Definition getQualifierText (qualifier : string) : string :=
  if String.eqb qualifier "softfail" then "~all (Soft Fail)"
  else if String.eqb qualifier "fail" then "-all (Fail)"
  else if String.eqb qualifier "neutral" then "?all (Neutral)"
  else if String.eqb qualifier "pass" then "+all (Pass)"
  else qualifier.

(** ** The tree on the page *)

(** The [expanded] state is an object from keys to booleans; a key is
    [`${domain}-${depth}`]. *)
Definition key (domain : string) (depth : nat) : string :=
  domain +:+ "-" +:+ pretty depth.

(** [expanded[`${domain}-${depth}`]], as a condition: a key that is not
    there gives [undefined]. *)
Definition isExpanded (expanded : gmap string bool) (domain : string)
    (depth : nat) : bool :=
  default false (expanded !! key domain depth).

(** [toggleNode] *)
Definition toggleNode (k : string) (prev : gmap string bool)
    : gmap string bool :=
  <[k := negb (default false (prev !! k))]> prev.

(** [collapseAll] *)
Definition collapseAll : gmap string bool := ∅.

(** The [domain] field of a child; only the expansions have one, and an
    empty one is not taken for one. *)
Definition child_domain (c : child) : option string :=
  match c with
  | CInclude _ d _ _ _ _ _ | CRedirect _ d _ _ _ _ =>
      if String.eqb d "" then None else Some d
  | _ => None
  end.

(** [node.children.forEach(child => { if (child.domain) expand(child,
    child.domain, depth + 1) })] *)
Definition forEach_child
    (expand : child -> string -> nat -> gmap string bool -> gmap string bool)
    (children : list child) (depth : nat) (allKeys : gmap string bool)
    : gmap string bool :=
  fold_left
    (fun allKeys c =>
       match child_domain c with
       | Some d => expand c d (depth + 1) allKeys
       | None => allKeys
       end)
    children allKeys.

(** [expand] of [expandAll], for a child: the children without a
    [children] field have nothing to go through. *)
Fixpoint expand (node : child) (domain : string) (depth : nat)
    (allKeys : gmap string bool) : gmap string bool :=
  let allKeys := <[key domain depth := true]> allKeys in
  match node with
  | CInclude _ _ _ children _ _ _ | CRedirect _ _ _ children _ _ =>
      forEach_child expand children depth allKeys
  | _ => allKeys
  end.

(** [expandAll]; [result] is the state of the component. *)
Definition expandAll (result : option Report.t) : gmap string bool :=
  match result with
  | Some r =>
      forEach_child expand (Node.children (Report.tree r)) 0
        (<[key (Node.domain (Report.tree r)) 0 := true]> ∅)
  | None => ∅
  end.

(** The [domain] that a child gets as a property:
    [child.domain || `${domain}-child-${idx}`]. *)
Definition domain_prop (c : child) (domain : string) (idx : nat) : string :=
  match child_domain c with
  | Some d => d
  | None => domain +:+ "-child-" +:+ pretty idx
  end.

Section Map_children.

Variable render : child -> string -> nat -> list (string * nat).
Variable domain : string.
Variable depth : nat.

(** [children.map((child, idx) => <SPFTreeNode node={child}
    domain={child.domain || ...} depth={depth + 1} />)], from the
    index [idx] on. *)
Fixpoint map_from (idx : nat) (children : list child)
    : list (string * nat) :=
  match children with
  | [] => []
  | c :: others =>
      render c (domain_prop c domain idx) (depth + 1)
      ++ map_from (S idx) others
  end.

Definition map_children (children : list child) : list (string * nat) :=
  map_from 0 children.

End Map_children.

(** The instances of [SPFTreeNode] that one instance brings, itself
    first, with their [domain] and [depth], in the order of the page.
    [shown] is the condition [isExpanded]. *)
Fixpoint SPFTreeNode (shown : string -> nat -> bool) (node : child)
    (domain : string) (depth : nat) : list (string * nat) :=
  (domain, depth) ::
  match node with
  | CInclude _ _ _ children _ _ _ | CRedirect _ _ _ children _ _ =>
      if shown domain depth && (0 <? length children)%nat
      then map_children (SPFTreeNode shown) domain depth children
      else []
  | _ => []
  end.

(** The instances under the root of the tree of a result. *)
Definition tree_rows (shown : string -> nat -> bool) (r : Report.t)
    : list (string * nat) :=
  if shown (Node.domain (Report.tree r)) 0
  then
    map_children (SPFTreeNode shown) (Node.domain (Report.tree r)) 0
      (Node.children (Report.tree r))
  else [].

(** The state of the component that [checkSPF] writes: [error] and
    [result], and the [expanded] keys. *)
Record page := {
  display_of : display;
  keys : gmap string bool
}.

(** The first state of the component. *)
Definition first_page : page :=
  {| display_of := {| error := None; result := None |}; keys := ∅ |}.

(** [checkSPF] from the state [prev] of the component; [domain] is the
    text typed in, as it is.  On a blank text the function returns after
    [setError], and the report and the keys of [prev] stay. *)
Definition checkSPF_page (dns : string -> fetch_outcome) (fuel : nat)
    (domain : string) (prev : page) : option page :=
  match JsString.trim domain with
  | EmptyString =>
      Some {| display_of := {| error := Some Msg.no_domain;
                               result := result (display_of prev) |};
              keys := keys prev |}
  | String _ _ as name =>
      match parseSPFTree_root dns fuel name with
      | None => None
      | Some (None, _) =>
          Some {| display_of := {| error := Some Msg.not_found;
                                   result := None |};
                  keys := ∅ |}
      | Some (Some spfTree, _) =>
          Some {| display_of := {| error := None;
                                   result := Some (report spfTree) |};
                  keys := {[ key domain 0 := true ]} |}
      end
  end.

(** * Notions used to state the properties *)

(** [accounted dns w w'] holds when [w'] follows [w] by appending warnings,
    errors and requests, and counting as void exactly the appended requests
    that [dns] answers with a void result. *)

Definition is_void (dns : string -> fetch_outcome) (name : string) : bool :=
  Result.isVoid (interpret (dns name)).

Definition voids (dns : string -> fetch_outcome) (names : list string) : nat :=
  length (filter (fun name => is_void dns name) names).

(** The errors about the void-lookup limit that the requests [names] bring
    when [n] void lookups were counted before them: one for each void
    lookup that takes the count above 2, with the count it reaches. *)
Fixpoint limit_errors (dns : string -> fetch_outcome) (n : nat)
    (names : list string) : list string :=
  match names with
  | [] => []
  | name :: others =>
      if is_void dns name
      then (if (2 <? n + 1)%nat then [Msg.void_limit (n + 1) name] else [])
           ++ limit_errors dns (n + 1) others
      else limit_errors dns n others
  end.

(** No other message starts like the one about the limit. *)
Definition is_limit_error (m : string) : bool :=
  JsString.startsWith "Void lookup" m.

Definition accounted (dns : string -> fetch_outcome) (w w' : world) : Prop :=
  exists rs ws es,
    requests w' = requests w ++ rs /\
    Context.warnings (ctx w') = Context.warnings (ctx w) ++ ws /\
    Context.errors (ctx w') = Context.errors (ctx w) ++ es /\
    Context.voidLookups (ctx w') = Context.voidLookups (ctx w) + voids dns rs /\
    filter (fun m => is_limit_error m) es
    = limit_errors dns (Context.voidLookups (ctx w)) rs.

(** A call allocates new objects after the existing ones and writes to one
    existing object at most, its own [visited], to which it adds its own
    [domain]. *)

Definition store_after (domain : string) (visited : nat) (w w' : world) : Prop :=
  exists extra,
    sets w' = sets w ++ extra \/
    sets w' = <[visited := {[domain]} ∪ Set_elements visited w]> (sets w) ++ extra.

(** The world after the lookup of [domain] by a call whose set is
    [visited]: a copy of the set was made, the name added to it, and the
    request sent. *)
Definition looked_up (domain : string) (visited : nat) (w : world) : world :=
  log_request domain
    (Set_add (Set_copy visited w).1 domain (Set_copy visited w).2).

(** The world in which the loop of a call starts. *)
Definition before_loop (dns : string -> fetch_outcome) (domain record : string)
    (visited : nat) (w : world) : world :=
  Set_add visited domain
    (check_shape domain record
       (track_void domain (interpret (dns domain))
          (looked_up domain visited w))).

Definition no_locals : locals :=
  {| children := []; dnsLookups := 0; netblocks := []; allFound := false |}.

(** The node that a call returns when its loop ends with [l] in [w]. *)
Definition node_of (domain record : string) (l : locals) (w : world) : Node.t :=
  {| Node.domain := domain;
     Node.record := record;
     Node.children := children l;
     Node.dnsLookups := dnsLookups l;
     Node.netblocks := netblocks l;
     Node.warnings := Context.warnings (ctx w);
     Node.errors := Context.errors (ctx w);
     Node.voidLookups := Context.voidLookups (ctx w) |}.


(** The world after the tokens [rest] were each reported as ignored. *)
Definition ignored_after_all (domain : string) (rest : list string) (w : world)
    : world :=
  fold_left
    (fun w m => push_warning (Msg.after_all (JsString.trim m) domain) w)
    rest w.

(** A lookup that ends in SERVFAIL or in a transport failure. *)
Definition infrastructure_failure (outcome : fetch_outcome) : Prop :=
  outcome = Throws \/ outcome = NotOk \/
  exists body, outcome = Json body /\ Status body = 2%Z.

(** A record with a [redirect] after its [all]. *)
Definition redirect_after_all : string -> fetch_outcome :=
  zone [("root.example", txt ["v=spf1 -all redirect=other.example"])].

(** A zone whose only name answers SERVFAIL. *)
Definition servfail_zone : string -> fetch_outcome :=
  zone [("root.example", rcode 2)].

(** The token [m] is an [include] or a [redirect] of the name [x]. *)
Definition expands (m x : string) : Prop :=
  (classify (JsString.trim m) = KInclude /\
   replace_match match_include (JsString.trim m) = x) \/
  (classify (JsString.trim m) = KRedirect /\
   JsString.substring_from 9 (JsString.trim m) = x).

(** The child that the branch of such a token pushes for the node [c]. *)
Definition expansion_child (m x : string) (c : Node.t) : child :=
  let trimmed := JsString.trim m in
  match classify trimmed with
  | KInclude =>
      CInclude (explicit_qualifier trimmed) x (Node.record c) (Node.children c)
        (Node.dnsLookups c + 1) (Node.netblocks c) (getQualifier trimmed)
  | _ =>
      CRedirect trimmed x (Node.record c) (Node.children c)
        (Node.dnsLookups c + 1) (Node.netblocks c)
  end.

(** A record that includes a name whose lookup ends in SERVFAIL. *)
Definition servfail_include_zone : string -> fetch_outcome :=
  zone [("root.example",
         txt ["v=spf1 include:broken.example ip4:192.0.2.1 -all"]);
        ("broken.example", rcode 2)].

(** Thirteen names, each but the last including the next. *)
Definition chain_name (i : nat) : string := "d" +:+ pretty i +:+ ".example".

Definition chain12 : string -> fetch_outcome :=
  zone (map (fun i =>
               (chain_name i,
                txt ["v=spf1 include:" +:+ chain_name (S i) +:+ " -all"]))
          (seq 0 12)
        ++ [(chain_name 12, txt ["v=spf1 -all"])]).

(** A record that includes four names that do not exist. *)
Definition four_voids : string -> fetch_outcome :=
  zone [("root.example",
         txt ["v=spf1 include:n1.example include:n2.example include:n3.example include:n4.example -all"])].

(** A name with two SPF records. *)
Definition two_records : string -> fetch_outcome :=
  zone [("root.example", txt ["v=spf1 -all"; "v=spf1 +all"])].

(** The [ip4] values of a tree, in the order of the records: an [ip6]
    child and the other mechanisms give none. *)
Fixpoint ip4_values (c : child) : list string :=
  match c with
  | CInclude _ _ _ children _ _ _ => flat_map ip4_values children
  | CRedirect _ _ _ children _ _ => flat_map ip4_values children
  | CIp4 _ value _ => [value]
  | _ => []
  end.

(** The normal form of the value of an [ip4] mechanism. *)
Definition to_cidr (ip : string) : string :=
  if JsString.includes "/" ip then ip else ip +:+ "/32".

(** [cidr] is an address, a slash and the prefix length [n] in decimal. *)
Definition has_prefix_length (cidr : string) (n : nat) : Prop :=
  exists address,
    JsString.includes "/" address = false /\
    cidr = address +:+ "/" +:+ pretty n.

(** The number of addresses of a netblock: [2^(32 - prefixLength)], an
    integer for a prefix length of at most 32. *)
Definition addresses (cidr : string) : Z :=
  match prefixLength cidr with
  | Some p => (2 ^ (32 - p))%Z
  | None => 0%Z
  end.

(** Follows the specification: the total is the sum, over the set of the
    netblocks, of the number of addresses of each one. *)
Definition sum_over_set (netblocks : list string) : Z :=
  set_fold (fun cidr sum => (sum + addresses cidr)%Z) 0%Z
    (list_to_set netblocks : gset string).

(** The prefix length of every netblock is read, and is from 0 to 32. *)
Definition valid_prefixes (netblocks : list string) : Prop :=
  forall nb, nb ∈ netblocks ->
    exists p, prefixLength nb = Some p /\ (0 <= p <= 32)%Z.

(** The integer that a number is, when it is one. *)
Definition integer_value (x : number) : option Z :=
  match x with
  | S754_zero _ => Some 0%Z
  | S754_finite s m e =>
      if (0 <=? e)%Z then Some (cond_Zopp s (Zpos m * 2 ^ e))%Z
      else if (Zpos m mod 2 ^ (- e) =? 0)%Z
           then Some (cond_Zopp s (Zpos m / 2 ^ (- e)))%Z
           else None
  | _ => None
  end.

(** A number that is not [NaN] and not negative. *)
Definition nonneg (x : number) : Prop :=
  match x with
  | S754_zero s | S754_infinity s | S754_finite s _ _ => s = false
  | S754_nan => False
  end.

(** The double of the integer [n], for [0 < n < 2^53]: 53 bits of
    mantissa. *)
Definition canon (n : Z) : number :=
  S754_finite false (Z.to_pos (n * 2 ^ (52 - Z.log2 n))) (Z.log2 n - 52)%Z.

(** A shift record without a remainder. *)
Definition rec0 (m : Z) : shr_record :=
  {| shr_m := m; shr_r := false; shr_s := false |}.

(** A record with a prefix length of -21, which [parseInt] reads. *)
Definition negative_prefix : string -> fetch_outcome :=
  zone [("root.example", txt ["v=spf1 ip4:10.0.0.0/-21 ip4:192.0.2.1 -all"])].

(** A record with the two netblocks of the example. *)
Definition two_netblocks : string -> fetch_outcome :=
  zone [("root.example", txt ["v=spf1 ip4:192.0.2.0/24 ip4:192.0.2.1 ip6:2001:db8::/32 -all"])].

(** What the caller of a nested call reads of the node it gets. *)
Definition core (n : Node.t)
    : string * string * list child * nat * list string :=
  (Node.domain n, Node.record n, Node.children n, Node.dnsLookups n,
   Node.netblocks n).

(** No name is expanded under itself: along every path of the tree the
    names of the [include] and [redirect] children differ from each other
    and from the names of [seen]. *)
Fixpoint path_free (seen : gset string) (c : child) : bool :=
  match c with
  | CInclude _ x _ children _ _ _ =>
      bool_decide (x ∉ seen) && forallb (path_free ({[x]} ∪ seen)) children
  | CRedirect _ x _ children _ _ =>
      bool_decide (x ∉ seen) && forallb (path_free ({[x]} ∪ seen)) children
  | _ => true
  end.

(** [l'] is [l] after one more child [c] with [n] lookups and the
    netblocks [nbs], or after a lookup without a child. *)
Definition grown (l : locals) (c : option child) (n : nat) (nbs : list string)
    (l' : locals) : Prop :=
  children l' = children l ++ option_list c /\
  dnsLookups l' = dnsLookups l + n /\
  netblocks l' = netblocks l ++ nbs /\
  allFound l' = allFound l.

(** A name that includes itself, a loop of two names, and a name that two
    sibling branches include. *)
Definition cycles_and_siblings : string -> fetch_outcome :=
  zone [("self.example", txt ["v=spf1 include:self.example -all"]);
        ("ping.example", txt ["v=spf1 include:pong.example -all"]);
        ("pong.example", txt ["v=spf1 include:ping.example -all"]);
        ("root.example",
         txt ["v=spf1 include:left.example include:right.example -all"]);
        ("left.example", txt ["v=spf1 include:shared.example -all"]);
        ("right.example", txt ["v=spf1 include:shared.example -all"]);
        ("shared.example", txt ["v=spf1 ip4:192.0.2.0/24 -all"])].

(** * Notions used for the further properties *)

(** How many times [nb] occurs in [netblocks]. *)
Fixpoint occurrences (nb : string) (netblocks : list string) : nat :=
  match netblocks with
  | [] => 0
  | x :: others =>
      (if String.eqb x nb then 1 else 0) + occurrences nb others
  end.

(** How deep the expansions are nested under a child. *)
Fixpoint nesting (c : child) : nat :=
  match c with
  | CInclude _ _ _ children _ _ _ => S (max_list (map nesting children))
  | CRedirect _ _ _ children _ _ => S (max_list (map nesting children))
  | _ => 0
  end.

(** The lookups that a child shows: its [dnsLookups] field, when it has
    one. *)
Definition shown_lookups (c : child) : nat :=
  match c with
  | CInclude _ _ _ _ n _ _ | CRedirect _ _ _ _ n _ => n
  | CPtr _ n | CA _ n | CMx _ n | CExists _ n => n
  | _ => 0
  end.

(** The shape errors and the shape warning of a record. *)
Definition shape_errors (domain record : string) : list string :=
  (if JsString.startsWith "v=spf1" record then [] else [Msg.bad_format domain])
  ++ (if (512 <? String.length record)%nat
      then [Msg.too_long (String.length record) domain] else []).

Definition shape_warnings (domain record : string) : list string :=
  if (450 <? String.length record)%nat && (String.length record <=? 512)%nat
  then [Msg.long (String.length record) domain] else [].

(** An ASCII letter. *)
Definition is_letter (c : ascii) : bool :=
  let n := N_of_ascii c in
  ((65 <=? n) && (n <=? 90) || (97 <=? n) && (n <=? 122))%N.

(** The lookups that a returned value stands for. *)
Definition lookups_of (r : option Node.t) : nat :=
  match r with
  | Some node => Node.dnsLookups node
  | None => 0
  end.

(** The pattern whose match is removed to get the value of an [include],
    [ip4] or [ip6] token. *)
Definition value_pattern (k : kind) : string -> option string :=
  match k with
  | KInclude => match_include
  | KIp4 => match_ip4
  | KIp6 => match_ip6
  | _ => fun _ => None
  end.

(** The numbers that the children show add up: a child of one lookup
    shows 1, and an expansion shows one lookup more than its own children
    show together, or more. *)
Fixpoint well_counted (c : child) : bool :=
  match c with
  | CInclude _ _ _ cs n _ _ | CRedirect _ _ _ cs n _ =>
      (sum_list_with shown_lookups cs + 1 <=? n)%nat && forallb well_counted cs
  | CPtr _ n | CA _ n | CMx _ n | CExists _ n => (n =? 1)%nat
  | _ => true
  end.

(** Every expansion in and under the child has a name that is not empty. *)
Fixpoint named (c : child) : bool :=
  match c with
  | CInclude _ d _ cs _ _ _ | CRedirect _ d _ cs _ _ =>
      negb (String.eqb d "") && forallb named cs
  | _ => true
  end.

(** The keys set in [e] are set in [e']. *)
Definition keys_kept (e e' : gmap string bool) : Prop :=
  forall k, e !! k = Some true -> e' !! k = Some true.

(** An [all] child. *)
Definition is_all (c : child) : bool :=
  match c with
  | CAll _ _ _ => true
  | _ => false
  end.

(** No child but the last is an [all] child. *)
Definition all_at_end (cs : list child) : bool :=
  forallb (fun c => negb (is_all c)) (removelast cs).

(** The same in and under a child. *)
Fixpoint all_closes (c : child) : bool :=
  match c with
  | CInclude _ _ _ cs _ _ _ | CRedirect _ _ _ cs _ _ =>
      all_at_end cs && forallb all_closes cs
  | _ => true
  end.

(** What the loop keeps true of its variables. *)
Definition all_tracked (l : locals) : Prop :=
  forallb all_closes (children l) = true /\
  if allFound l
  then (exists cs m q i, children l = cs ++ [CAll m q i] /\
                         forallb (fun c => negb (is_all c)) cs = true)
  else forallb (fun c => negb (is_all c)) (children l) = true.

(** * Properties *)

(** ** Termination *)

Section Loop_total.

Variable nested :
  string -> nat -> nat -> world -> option (option Node.t * world).
Variable depth : nat.
Hypothesis nested_total :
  forall d v w, is_Some (nested d (depth + 1) v w).

Lemma iteration_total domain visited i m l w :
  is_Some (iteration nested domain depth visited i m l w).
Proof.
  unfold iteration.
  destruct (allFound l); [eauto|].
  destruct (classify _); eauto;
    destruct (Set_copy visited w) as [copy w1].
  - destruct (nested_total (replace_match match_include (JsString.trim m))
                copy w1) as [[[c|] w2] ->]; eauto.
  - destruct (nested_total (JsString.substring_from 9 (JsString.trim m))
                copy w1) as [[[c|] w2] ->]; eauto.
Qed.

Lemma for_loop_total domain visited ms :
  forall i l w, is_Some (for_loop nested domain depth visited i ms l w).
Proof.
  induction ms as [|m ms IH]; intros i l w; simpl; [eauto|].
  destruct (iteration_total domain visited i m l w) as [[l' w'] ->].
  apply IH.
Qed.

End Loop_total.

(** A call at [depth] returns as soon as the fuel exceeds [11 - depth]. *)
Lemma parseSPFTree_total dns fuel :
  forall domain depth visited w,
    11 - depth < fuel ->
    is_Some (parseSPFTree dns fuel domain depth visited w).
Proof.
  induction fuel as [|fuel IH]; intros domain depth visited w Hf; [lia|].
  simpl. unfold parseSPFTree_body.
  destruct (10 <? depth)%nat eqn:Hd; [eauto|].
  apply Nat.ltb_ge in Hd.
  destruct (Set_has visited domain w); [eauto|]. cbn [orb].
  destruct (Set_copy visited w) as [copy w1].
  destruct (resolveSPFRecord dns domain depth copy w1) as [result w2].
  case_bool_decide; [eauto|].
  destruct (Result.record result) as [[|c r]|]; eauto.
  match goal with
  | |- context [for_loop ?n ?d ?dp ?v ?i ?ms ?l ?w] =>
      destruct (fun H => for_loop_total n dp H d v ms i l w) as [[l' w'] ->]
  end; eauto.
  intros. apply IH. lia.
Qed.

(** More fuel does not change what a call returns. *)
Lemma iteration_mono (n1 n2 : string -> nat -> nat -> world -> option (option Node.t * world))
    domain depth visited i m l w r :
  (forall d dp v w' r', n1 d dp v w' = Some r' -> n2 d dp v w' = Some r') ->
  iteration n1 domain depth visited i m l w = Some r ->
  iteration n2 domain depth visited i m l w = Some r.
Proof.
  intros Hn. unfold iteration.
  destruct (allFound l); [done|].
  destruct (classify _); try done;
    destruct (Set_copy visited w) as [copy w1].
  - destruct (n1 _ _ _ _) as [r'|] eqn:E; [|done].
    by rewrite (Hn _ _ _ _ _ E).
  - destruct (n1 _ _ _ _) as [r'|] eqn:E; [|done].
    by rewrite (Hn _ _ _ _ _ E).
Qed.

Lemma for_loop_mono (n1 n2 : string -> nat -> nat -> world -> option (option Node.t * world))
    domain depth visited ms :
  (forall d dp v w' r', n1 d dp v w' = Some r' -> n2 d dp v w' = Some r') ->
  forall i l w r,
    for_loop n1 domain depth visited i ms l w = Some r ->
    for_loop n2 domain depth visited i ms l w = Some r.
Proof.
  intros Hn. induction ms as [|m ms IH]; intros i l w r; simpl; [done|].
  destruct (iteration n1 _ _ _ _ _ _ _) as [[l1 w1]|] eqn:E; [|done].
  rewrite (iteration_mono _ _ _ _ _ _ _ _ _ _ Hn E). apply IH.
Qed.

Lemma parseSPFTree_mono dns fuel :
  forall domain depth visited w r,
    parseSPFTree dns fuel domain depth visited w = Some r ->
    parseSPFTree dns (S fuel) domain depth visited w = Some r.
Proof.
  induction fuel as [|fuel IH]; intros domain depth visited w r; [done|].
  remember (S fuel) as f eqn:Hf. simpl. rewrite Hf at 1. simpl.
  unfold parseSPFTree_body.
  destruct (_ || _); [done|].
  destruct (Set_copy visited w) as [copy w1].
  destruct (resolveSPFRecord dns domain depth copy w1) as [result w2].
  case_bool_decide; [done|].
  destruct (Result.record result) as [[|c rr]|]; try done.
  destruct (for_loop (parseSPFTree dns fuel) _ _ _ _ _ _ _) as [[l1 w3]|] eqn:E;
    [|done].
  subst f.
  by rewrite (for_loop_mono _ _ _ _ _ _ IH _ _ _ _ E).
Qed.

Lemma parseSPFTree_fuel dns fuel fuel' domain depth visited w r :
  fuel <= fuel' ->
  parseSPFTree dns fuel domain depth visited w = Some r ->
  parseSPFTree dns fuel' domain depth visited w = Some r.
Proof.
  induction 1 as [|fuel' _ IH]; [done|].
  intros H. by apply parseSPFTree_mono, IH.
Qed.

(** ** What a call does to the context and to the network *)

Lemma limit_errors_app dns names others :
  forall n,
    limit_errors dns n (names ++ others)
    = limit_errors dns n names ++ limit_errors dns (n + voids dns names) others.
Proof.
  induction names as [|name names IH]; intros n; simpl.
  { unfold voids. simpl. by rewrite Nat.add_0_r. }
  unfold voids. destruct (is_void dns name) eqn:Hv.
  - rewrite filter_cons_True by (by rewrite Hv). rewrite IH, <- app_assoc.
    replace (n + 1 + voids dns names)
      with (n + length (name :: filter (fun x => is_void dns x) names));
      [done|unfold voids; simpl; lia].
  - rewrite filter_cons_False by (rewrite Hv; simpl; tauto). by rewrite IH.
Qed.

Lemma voids_app dns rs1 rs2 : voids dns (rs1 ++ rs2) = voids dns rs1 + voids dns rs2.
Proof. unfold voids. by rewrite filter_app, length_app. Qed.

#[global] Instance accounted_preorder dns : PreOrder (accounted dns).
Proof.
  split.
  - intros w. exists [], [], []. rewrite !app_nil_r. cbn. repeat split; first [done|lia].
  - intros w1 w2 w3 (rs & ws & es & Hr & Hw & He & Hv & Hl)
      (rs' & ws' & es' & Hr' & Hw' & He' & Hv' & Hl').
    exists (rs ++ rs'), (ws ++ ws'), (es ++ es').
    rewrite filter_app, limit_errors_app, Hl, Hl', Hv.
    rewrite Hr', Hw', He', Hv', Hr, Hw, He, Hv, voids_app, !app_assoc.
    repeat split; first [done|lia].
Qed.

Lemma accounted_same dns w w' :
  ctx w' = ctx w -> requests w' = requests w -> accounted dns w w'.
Proof.
  intros Hc Hr. exists [], [], []. rewrite Hc, Hr, !app_nil_r. cbn.
  repeat split; first [done|lia].
Qed.

Lemma accounted_push_error dns m w :
  is_limit_error m = false -> accounted dns w (push_error m w).
Proof.
  intros Hm. exists [], [], [m].
  rewrite filter_cons_False by (rewrite Hm; simpl; tauto).
  rewrite !app_nil_r. cbn. repeat split; first [done|lia].
Qed.

Lemma accounted_push_warning dns m w : accounted dns w (push_warning m w).
Proof. exists [], [m], []. cbn. rewrite !app_nil_r. repeat split; first [done|lia]. Qed.

Lemma accounted_Set_add dns s x w : accounted dns w (Set_add s x w).
Proof. by apply accounted_same. Qed.

Lemma accounted_Set_new dns e w : accounted dns w (Set_new e w).2.
Proof. by apply accounted_same. Qed.

Lemma accounted_check_shape dns domain record w :
  accounted dns w (check_shape domain record w).
Proof.
  unfold check_shape.
  assert (accounted dns w
            (if negb (JsString.startsWith "v=spf1" record)
             then push_error (Msg.bad_format domain) w else w)) as H.
  { destruct (negb _); [by apply accounted_push_error|reflexivity]. }
  etrans; [exact H|].
  repeat case_match;
    first [reflexivity|by apply accounted_push_error|apply accounted_push_warning].
Qed.

Lemma is_limit_error_void_limit n domain :
  is_limit_error (Msg.void_limit n domain) = true.
Proof. done. Qed.

(** The lookup of [domain] together with the accounting that follows it. *)
Lemma accounted_lookup dns domain depth visited w result w' :
  resolveSPFRecord dns domain depth visited w = (result, w') ->
  accounted dns w (track_void domain result w').
Proof.
  unfold resolveSPFRecord.
  destruct (_ || _).
  { intros [= <- <-]. reflexivity. }
  intros [= <- <-]. unfold track_void.
  destruct (Result.isVoid (interpret (dns domain))) eqn:Hv.
  - assert (voids dns [domain] = 1) as Hone.
    { unfold voids. rewrite filter_cons_True; [done|]. unfold is_void. by rewrite Hv. }
    case_match eqn:Hk.
    + change ((2 <? Context.voidLookups (ctx w) + 1)%nat = true) in Hk.
      exists [domain], [], [Msg.void_limit (Context.voidLookups (ctx w) + 1) domain].
      rewrite Hone, filter_cons_True by (by rewrite is_limit_error_void_limit).
      simpl limit_errors. unfold is_void. rewrite Hv, Hk, !app_nil_r.
      repeat split; first [done|lia].
    + change ((2 <? Context.voidLookups (ctx w) + 1)%nat = false) in Hk.
      exists [domain], [], []. rewrite Hone, !app_nil_r.
      simpl limit_errors. unfold is_void. rewrite Hv, Hk.
      repeat split; first [done|lia].
  - assert (voids dns [domain] = 0) as Hzero.
    { unfold voids. rewrite filter_cons_False; [done|]. unfold is_void. rewrite Hv. simpl. tauto. }
    exists [domain], [], []. rewrite Hzero, !app_nil_r.
    simpl limit_errors. unfold is_void. rewrite Hv.
    repeat split; first [done|lia].
Qed.

Section Loop_accounted.

Variable dns : string -> fetch_outcome.
Variable nested :
  string -> nat -> nat -> world -> option (option Node.t * world).
Hypothesis nested_accounted :
  forall d dp v w r w', nested d dp v w = Some (r, w') -> accounted dns w w'.

Lemma iteration_accounted domain depth visited i m l w l' w' :
  iteration nested domain depth visited i m l w = Some (l', w') ->
  accounted dns w w'.
Proof.
  unfold iteration.
  destruct (allFound l).
  { intros [= <- <-]. apply accounted_push_warning. }
  destruct (classify _);
    try (intros [= <- <-];
         first [reflexivity | apply accounted_push_warning]).
  - destruct (Set_copy visited w) as [copy w1] eqn:Hc.
    destruct (nested _ _ _ _) as [[[c|] w2]|] eqn:Hn; intros [= <- <-];
      (etrans; [|exact (nested_accounted _ _ _ _ _ _ Hn)]);
      change w1 with (copy, w1).2; rewrite <- Hc; apply accounted_Set_new.
  - destruct (Set_copy visited w) as [copy w1] eqn:Hc.
    destruct (nested _ _ _ _) as [[[c|] w2]|] eqn:Hn; intros [= <- <-];
      (etrans; [|exact (nested_accounted _ _ _ _ _ _ Hn)]);
      change w1 with (copy, w1).2; rewrite <- Hc; apply accounted_Set_new.
Qed.

Lemma for_loop_accounted domain depth visited ms :
  forall i l w l' w',
    for_loop nested domain depth visited i ms l w = Some (l', w') ->
    accounted dns w w'.
Proof.
  induction ms as [|m ms IH]; intros i l w l' w'; simpl.
  { intros [= <- <-]. reflexivity. }
  destruct (iteration _ _ _ _ _ _ _ _) as [[l1 w1]|] eqn:E; [|done].
  intros H. etrans; [exact (iteration_accounted _ _ _ _ _ _ _ _ _ E)|].
  exact (IH _ _ _ _ _ H).
Qed.

End Loop_accounted.

Lemma parseSPFTree_accounted dns fuel :
  forall domain depth visited w r w',
    parseSPFTree dns fuel domain depth visited w = Some (r, w') ->
    accounted dns w w'.
Proof.
  induction fuel as [|fuel IH]; intros domain depth visited w r w'; [done|].
  simpl. unfold parseSPFTree_body.
  destruct (_ || _).
  { intros [= <- <-]. by apply accounted_push_error. }
  destruct (Set_copy visited w) as [copy w1] eqn:Hc.
  destruct (resolveSPFRecord dns domain depth copy w1) as [result w2] eqn:Hr.
  assert (accounted dns w (track_void domain result w2)) as Hl.
  { etrans; [|exact (accounted_lookup _ _ _ _ _ _ _ Hr)].
    change w1 with (copy, w1).2. rewrite <- Hc. apply accounted_Set_new. }
  case_bool_decide.
  { intros [= <- <-]. etrans; [exact Hl|by apply accounted_push_error]. }
  destruct (Result.record result) as [[|c rr]|].
  1,3: intros [= <- <-]; (etrans; [exact Hl|]);
       repeat case_bool_decide; first [reflexivity|apply accounted_push_warning].
  destruct (for_loop _ _ _ _ _ _ _ _) as [[l1 w3]|] eqn:E; [|done].
  intros [= <- <-].
  etrans; [exact Hl|]. etrans; [apply accounted_check_shape|].
  etrans; [apply accounted_Set_add|].
  exact (for_loop_accounted dns _ IH _ _ _ _ _ _ _ _ _ E).
Qed.

(** ** What a call does to the store of [Set] objects *)

Lemma sets_track_void domain result w : sets (track_void domain result w) = sets w.
Proof. unfold track_void. by repeat case_match. Qed.

Lemma sets_check_shape domain record w : sets (check_shape domain record w) = sets w.
Proof. unfold check_shape. by repeat case_match. Qed.

Lemma Set_elements_app_l s w w' extra :
  s < length (sets w) -> sets w' = sets w ++ extra ->
  Set_elements s w' = Set_elements s w.
Proof.
  intros Hs He. unfold Set_elements. by rewrite He, lookup_app_l.
Qed.

(** A lookup writes to the copy it was given, which is the last object. *)
Lemma resolveSPFRecord_sets dns domain depth visited w result w' :
  resolveSPFRecord dns domain depth (Set_copy visited w).1 (Set_copy visited w).2
    = (result, w') ->
  exists copy, sets w' = sets w ++ [copy].
Proof.
  unfold resolveSPFRecord, Set_copy, Set_new. cbn [fst snd].
  destruct (_ || _); intros [= <- <-]; cbn [sets log_request Set_add].
  - eauto.
  - eexists. rewrite insert_app_r_alt by done.
    by rewrite Nat.sub_diag.
Qed.

Section Loop_sets.

Variable nested :
  string -> nat -> nat -> world -> option (option Node.t * world).
Hypothesis nested_sets :
  forall d dp v w r w',
    v < length (sets w) ->
    nested d dp v w = Some (r, w') -> store_after d v w w'.

Lemma nested_on_copy d dp visited w r w' :
  nested d dp (Set_copy visited w).1 (Set_copy visited w).2 = Some (r, w') ->
  exists extra, sets w' = sets w ++ extra.
Proof.
  intros Hn.
  assert ((Set_copy visited w).1 < length (sets (Set_copy visited w).2)) as Hv.
  { unfold Set_copy, Set_new. cbn. rewrite length_app. cbn. lia. }
  destruct (nested_sets _ _ _ _ _ _ Hv Hn) as [extra [He|He]]; rewrite He;
    unfold Set_copy, Set_new; cbn [fst snd sets].
  - rewrite <- app_assoc. eauto.
  - rewrite insert_app_r_alt by done. rewrite Nat.sub_diag. cbn.
    rewrite <- app_assoc. eauto.
Qed.

Lemma iteration_sets domain depth visited i m l w l' w' :
  iteration nested domain depth visited i m l w = Some (l', w') ->
  exists extra, sets w' = sets w ++ extra.
Proof.
  unfold iteration.
  destruct (allFound l).
  { intros [= <- <-]. exists []. by rewrite app_nil_r. }
  destruct (classify _);
    try (intros [= <- <-]; exists []; by rewrite app_nil_r).
  - destruct (Set_copy visited w) as [copy w1] eqn:Hc.
    destruct (nested _ _ _ _) as [[[c|] w2]|] eqn:Hn; intros [= <- <-];
      eapply (nested_on_copy _ _ visited w); rewrite Hc; exact Hn.
  - destruct (Set_copy visited w) as [copy w1] eqn:Hc.
    destruct (nested _ _ _ _) as [[[c|] w2]|] eqn:Hn; intros [= <- <-];
      eapply (nested_on_copy _ _ visited w); rewrite Hc; exact Hn.
Qed.

Lemma for_loop_sets domain depth visited ms :
  forall i l w l' w',
    for_loop nested domain depth visited i ms l w = Some (l', w') ->
    exists extra, sets w' = sets w ++ extra.
Proof.
  induction ms as [|m ms IH]; intros i l w l' w'; simpl.
  { intros [= <- <-]. exists []. by rewrite app_nil_r. }
  destruct (iteration _ _ _ _ _ _ _ _) as [[l1 w1]|] eqn:E; [|done].
  intros H. apply iteration_sets in E as [e1 He1].
  apply IH in H as [e2 He2]. exists (e1 ++ e2).
  by rewrite He2, He1, app_assoc.
Qed.

End Loop_sets.

Lemma parseSPFTree_sets dns fuel :
  forall domain depth visited w r w',
    visited < length (sets w) ->
    parseSPFTree dns fuel domain depth visited w = Some (r, w') ->
    store_after domain visited w w'.
Proof.
  induction fuel as [|fuel IH]; intros domain depth visited w r w' Hv; [done|].
  simpl. unfold parseSPFTree_body.
  destruct (_ || _).
  { intros [= <- <-]. exists []. left. by rewrite app_nil_r. }
  pose proof (resolveSPFRecord_sets dns domain depth visited w) as Hs.
  destruct (Set_copy visited w) as [copy w1] eqn:Hc.
  destruct (resolveSPFRecord dns domain depth copy w1) as [result w2] eqn:Hr.
  destruct (Hs _ _ Hr) as [cp Hs2]. clear Hs.
  case_bool_decide.
  { intros [= <- <-]. exists [cp]. left.
    cbn [sets push_error with_ctx]. by rewrite sets_track_void. }
  destruct (Result.record result) as [[|c rr]|].
  1,3: intros [= <- <-]; exists [cp]; left;
       repeat case_bool_decide; cbn [sets push_warning with_ctx];
       by rewrite sets_track_void.
  destruct (for_loop _ _ _ _ _ _ _ _) as [[l1 w3]|] eqn:E; [|done].
  intros [= <- <-].
  apply (for_loop_sets _ IH) in E as [e He].
  exists (cp :: e). right. rewrite He. cbn [sets Set_add].
  rewrite (Set_elements_app_l visited w _ [cp]); [|done|].
  2:{ by rewrite sets_check_shape, sets_track_void. }
  rewrite sets_check_shape, sets_track_void, Hs2.
  rewrite insert_app_l by done. by rewrite <- app_assoc.
Qed.

(** ** The call, once past its guard *)

(** The copy handed to a lookup or to a nested call holds what the
    original holds. *)
Lemma Set_elements_copy s w :
  Set_elements (Set_copy s w).1 (Set_copy s w).2 = Set_elements s w.
Proof.
  unfold Set_copy, Set_new, Set_elements at 1. cbn [fst snd sets].
  rewrite lookup_app_r by done. by rewrite Nat.sub_diag.
Qed.

Lemma Set_copy_valid s w : (Set_copy s w).1 < length (sets (Set_copy s w).2).
Proof. unfold Set_copy, Set_new. cbn. rewrite length_app. cbn. lia. Qed.

Lemma Set_copy_sets s w :
  sets (Set_copy s w).2 = sets w ++ [Set_elements s w].
Proof. done. Qed.

(** The guard of [resolveSPFRecord] repeats the one of [parseSPFTree], on a
    copy of the same set: it never fires. *)
Lemma resolveSPFRecord_on_copy dns domain depth visited w :
  (10 <? depth)%nat || Set_has visited domain w = false ->
  resolveSPFRecord dns domain depth (Set_copy visited w).1 (Set_copy visited w).2
  = (interpret (dns domain), looked_up domain visited w).
Proof.
  intros Hg. unfold resolveSPFRecord.
  replace (Set_has (Set_copy visited w).1 domain (Set_copy visited w).2)
    with (Set_has visited domain w).
  - by rewrite Hg.
  - unfold Set_has. by rewrite Set_elements_copy.
Qed.

(** A call stopped by its guard. *)
Lemma parseSPFTree_guard dns fuel domain depth visited w :
  (10 <? depth)%nat || Set_has visited domain w = true ->
  parseSPFTree dns (S fuel) domain depth visited w
  = Some (None, push_error (Msg.cycle domain) w).
Proof. intros Hg. simpl. unfold parseSPFTree_body. by rewrite Hg. Qed.

(** A call that passes its guard and finds one record with some text. *)
Lemma parseSPFTree_record dns fuel domain depth visited w c record :
  (10 <? depth)%nat || Set_has visited domain w = false ->
  Result.error (interpret (dns domain)) <> Some multiple_spf ->
  Result.record (interpret (dns domain)) = Some (String c record) ->
  parseSPFTree dns (S fuel) domain depth visited w
  = match
      for_loop (parseSPFTree dns fuel) domain depth visited 0
        (JsString.words (String c record)) no_locals
        (before_loop dns domain (String c record) visited w)
    with
    | None => None
    | Some (l, w') => Some (Some (node_of domain (String c record) l w'), w')
    end.
Proof.
  intros Hg He Hr. simpl. unfold parseSPFTree_body. rewrite Hg.
  pose proof (resolveSPFRecord_on_copy dns domain depth visited w Hg) as Hl.
  destruct (Set_copy visited w) as [copy w1]. cbn [fst snd] in Hl.
  rewrite Hl. rewrite bool_decide_eq_false_2 by done. by rewrite Hr.
Qed.

(** A call that passes its guard and finds no usable record. *)
Lemma parseSPFTree_no_record dns fuel domain depth visited w :
  (10 <? depth)%nat || Set_has visited domain w = false ->
  Result.record (interpret (dns domain)) = None \/
  Result.record (interpret (dns domain)) = Some "" ->
  parseSPFTree dns (S fuel) domain depth visited w
  = let result := interpret (dns domain) in
    let w := track_void domain result (looked_up domain visited w) in
    Some (None,
          if bool_decide (Result.error result = Some multiple_spf)
          then push_error (Msg.multiple_spf domain) w
          else if bool_decide (Result.error result = Some nxdomain)
          then push_warning (Msg.nxdomain domain) w
          else if bool_decide (Result.error result = Some no_spf)
          then push_warning (Msg.no_spf domain) w
          else w).
Proof.
  intros Hg Hr. simpl. unfold parseSPFTree_body. rewrite Hg.
  pose proof (resolveSPFRecord_on_copy dns domain depth visited w Hg) as Hl.
  destruct (Set_copy visited w) as [copy w1]. cbn [fst snd] in Hl.
  rewrite Hl. cbn zeta. case_bool_decide; [done|].
  by destruct Hr as [-> | ->].
Qed.

(** The cases of a returning call. *)
Lemma parseSPFTree_cases dns fuel domain depth visited w r w' :
  parseSPFTree dns (S fuel) domain depth visited w = Some (r, w') ->
  (r = None) \/
  (exists c record l,
     (10 <? depth)%nat || Set_has visited domain w = false /\
     Result.record (interpret (dns domain)) = Some (String c record) /\
     for_loop (parseSPFTree dns fuel) domain depth visited 0
       (JsString.words (String c record)) no_locals
       (before_loop dns domain (String c record) visited w) = Some (l, w') /\
     r = Some (node_of domain (String c record) l w')).
Proof.
  destruct ((10 <? depth)%nat || Set_has visited domain w) eqn:Hg.
  { rewrite parseSPFTree_guard by done. intros [= <- <-]. by left. }
  destruct (Result.record (interpret (dns domain))) as [[|c record]|] eqn:Hr.
  1,3: rewrite parseSPFTree_no_record by auto; intros [= <- <-]; by left.
  destruct (decide (Result.error (interpret (dns domain)) = Some multiple_spf))
    as [He|He].
  { simpl. unfold parseSPFTree_body. rewrite Hg.
    pose proof (resolveSPFRecord_on_copy dns domain depth visited w Hg) as Hl.
    destruct (Set_copy visited w) as [copy w1]. cbn [fst snd] in Hl.
    rewrite Hl. rewrite bool_decide_eq_true_2 by done.
    intros [= <- <-]. by left. }
  rewrite (parseSPFTree_record _ _ _ _ _ _ c record) by done.
  destruct (for_loop _ _ _ _ _ _ _ _) as [[l w3]|] eqn:E; [|done].
  intros [= <- <-]. right. by exists c, record, l.
Qed.

(** ** Letter case and the patterns *)



Lemma lower_qualifier c : is_qualifier c = true -> JsString.lower c = c.
Proof. by destruct c as [[] [] [] [] [] [] [] []]. Qed.


Lemma after_Some p : forall s r, JsString.after p s = Some r -> s = p +:+ r.
Proof.
  induction p as [|a p IH]; intros s r; simpl.
  { by intros [= ->]. }
  destruct s as [|b s]; [done|].
  destruct (Ascii.eqb_spec a b) as [->|]; [|done].
  intros H. by rewrite (IH _ _ H).
Qed.



Lemma startsWith_after p : forall s, JsString.startsWith p s = matches (JsString.after p) s.
Proof.
  unfold matches. induction p as [|a p IH]; intros s; simpl; [done|].
  destruct s as [|b s]; [done|]. rewrite IH.
  by destruct (Ascii.eqb a b).
Qed.



Section Optional_qualifier.

Context {A : Type} (p : string -> option A).



End Optional_qualifier.










(** ** The kind of a token and of its lower-case spelling *)

(** The conditions of the chain, in its order; the last one is the
    [startsWith('v=spf1')] of the final branch. *)
Definition conditions (trimmed : string) : list bool :=
  [ matches match_include trimmed;
    JsString.startsWith "redirect=" trimmed;
    matches match_ip4 trimmed;
    matches match_ip6 trimmed;
    matches match_ptr trimmed;
    matches match_a trimmed;
    matches match_mx trimmed;
    matches match_exists trimmed;
    matches match_all trimmed;
    JsString.startsWith "v=spf1" trimmed ].

Definition first_branch (conds : list bool) : kind :=
  match conds with
  | [i; r; i4; i6; p; a; m; e; al; v] =>
      if i then KInclude else if r then KRedirect else if i4 then KIp4
      else if i6 then KIp6 else if p then KPtr else if a then KA
      else if m then KMx else if e then KExists else if al then KAll
      else if negb v then KUnknown else KVersion
  | _ => KUnknown
  end.

Lemma classify_conditions t : classify t = first_branch (conditions t).
Proof. done. Qed.



Definition case_sensitive (k : kind) : bool :=
  match k with
  | KInclude | KRedirect | KIp4 | KIp6 | KAll => true
  | _ => false
  end.

(** The optional qualifier of the patterns. *)
Definition qualifiers : list string := [""; "+"; "-"; "~"; "?"].

Lemma is_qualifier_inv c :
  is_qualifier c = true -> String c "" ∈ ["+"; "-"; "~"; "?"].
Proof.
  unfold is_qualifier.
  destruct (Ascii.eqb_spec c "+") as [->|]; [set_solver|].
  destruct (Ascii.eqb_spec c "-") as [->|]; [set_solver|].
  destruct (Ascii.eqb_spec c "~") as [->|]; [set_solver|].
  destruct (Ascii.eqb_spec c "?") as [->|]; [set_solver|done].
Qed.

Lemma opt_qualifier_shape {A} (p : string -> option A) s :
  matches (opt_qualifier p) s = true ->
  exists q u, q ∈ qualifiers /\ s = q +:+ u /\ matches p u = true.
Proof.
  unfold matches, qualifiers. destruct s as [|c s]; simpl.
  { intros H. exists "", "". split; [by left|done]. }
  destruct (is_qualifier c) eqn:Hq.
  - destruct (p s) eqn:Hs.
    + intros _. exists (String c ""), s. rewrite Hs.
      apply is_qualifier_inv in Hq. split; [by right|done].
    + intros H. exists "", (String c s). split; [by left|done].
  - intros H. exists "", (String c s). split; [by left|done].
Qed.

Lemma matches_after_shape kw u :
  matches (JsString.after kw) u = true -> exists r, u = kw +:+ r.
Proof.
  unfold matches. destruct (JsString.after kw u) as [r|] eqn:E; [|done].
  intros _. exists r. by apply after_Some.
Qed.

(** A token is taken for an [include], [redirect], [ip4], [ip6] or [all]
    only when the keyword is spelled in lower case. *)
Definition spelling (k : kind) : string :=
  match k with
  | KInclude => "include:"
  | KRedirect => "redirect="
  | KIp4 => "ip4:"
  | KIp6 => "ip6:"
  | KAll => "all"
  | _ => ""
  end.



Lemma case_sensitive_shape t :
  case_sensitive (classify t) = true ->
  exists q r,
    q ∈ qualifiers /\ t = q +:+ spelling (classify t) +:+ r /\
    (classify t = KRedirect -> q = "") /\ (classify t = KAll -> r = "").
Proof.
  rewrite classify_conditions. unfold conditions, first_branch.
  destruct (matches match_include t) eqn:E1.
  { intros _. apply opt_qualifier_shape in E1 as (q & u & Hq & -> & Hu).
    apply matches_after_shape in Hu as [r ->]. by exists q, r. }
  destruct (JsString.startsWith "redirect=" t) eqn:E2.
  { intros _. rewrite startsWith_after in E2.
    apply matches_after_shape in E2 as [r ->]. exists "", r.
    split; [by left|done]. }
  destruct (matches match_ip4 t) eqn:E3.
  { intros _. apply opt_qualifier_shape in E3 as (q & u & Hq & -> & Hu).
    apply matches_after_shape in Hu as [r ->]. by exists q, r. }
  destruct (matches match_ip6 t) eqn:E4.
  { intros _. apply opt_qualifier_shape in E4 as (q & u & Hq & -> & Hu).
    apply matches_after_shape in Hu as [r ->]. by exists q, r. }
  destruct (matches match_ptr t); [done|].
  destruct (matches match_a t); [done|].
  destruct (matches match_mx t); [done|].
  destruct (matches match_exists t); [done|].
  destruct (matches match_all t) eqn:E5; [|by destruct (negb _)].
  intros _. apply opt_qualifier_shape in E5 as (q & u & Hq & -> & Hu).
  unfold matches in Hu.
  destruct (JsString.after "all" u) as [[|c r]|] eqn:E; try done.
  apply after_Some in E as ->. by exists q, "".
Qed.








(** ** The loop *)

Section Loop.

Variable nested :
  string -> nat -> nat -> world -> option (option Node.t * world).
Variables (domain : string) (depth visited : nat).

Lemma for_loop_app ms1 ms2 :
  forall i l w,
    for_loop nested domain depth visited i (ms1 ++ ms2) l w
    = match for_loop nested domain depth visited i ms1 l w with
      | Some (l', w') =>
          for_loop nested domain depth visited (i + length ms1) ms2 l' w'
      | None => None
      end.
Proof.
  induction ms1 as [|m ms1 IH]; intros i l w; simpl.
  { by rewrite Nat.add_0_r. }
  destruct (iteration _ _ _ _ _ _ _ _) as [[l1 w1]|]; [|done].
  rewrite IH. by replace (S i + length ms1) with (i + S (length ms1)) by lia.
Qed.

(** After [all], an iteration only reports the token. *)
Lemma iteration_ignored i m l w :
  allFound l = true ->
  iteration nested domain depth visited i m l w
  = Some (l, push_warning (Msg.after_all (JsString.trim m) domain) w).
Proof. intros Ha. unfold iteration. by rewrite Ha. Qed.

Lemma for_loop_ignored rest :
  forall i l w,
    allFound l = true ->
    for_loop nested domain depth visited i rest l w
    = Some (l, ignored_after_all domain rest w).
Proof.
  induction rest as [|m rest IH]; intros i l w Ha; simpl; [done|].
  rewrite iteration_ignored by done. by apply IH.
Qed.

(** The iteration of an [all] token. *)
Lemma iteration_all i m l w :
  allFound l = false ->
  classify (JsString.trim m) = KAll ->
  iteration nested domain depth visited i m l w
  = Some (set_allFound
            (push_child
               (CAll (JsString.trim m) (all_qualifier (JsString.trim m)) i)
               l), w).
Proof. intros Ha Hk. unfold iteration. by rewrite Ha, Hk. Qed.


End Loop.

Lemma ignored_after_all_spec domain rest :
  forall w,
    ignored_after_all domain rest w
    = {| ctx :=
           {| Context.voidLookups := Context.voidLookups (ctx w);
              Context.warnings :=
                Context.warnings (ctx w)
                ++ map (fun m => Msg.after_all (JsString.trim m) domain) rest;
              Context.errors := Context.errors (ctx w) |};
         sets := sets w;
         requests := requests w |}.
Proof.
  unfold ignored_after_all.
  induction rest as [|m rest IH]; intros w; simpl.
  { rewrite app_nil_r. by destruct w as [[] ? ?]. }
  rewrite IH. cbn. by rewrite <- app_assoc.
Qed.

(** ** The record selector *)

Lemma startsWith_includes p s :
  JsString.startsWith p s = true -> JsString.includes p s = true.
Proof. intros H. destruct s; simpl; by rewrite H. Qed.

Lemma includes_tail a p :
  forall s,
    JsString.includes (String a p) s = true -> JsString.includes p s = true.
Proof.
  induction s as [|b s IH].
  { simpl. by destruct p. }
  change (JsString.includes (String a p) (String b s))
    with (JsString.startsWith (String a p) (String b s)
          || JsString.includes (String a p) s).
  change (JsString.includes p (String b s))
    with (JsString.startsWith p (String b s) || JsString.includes p s).
  intros [H|H]%orb_prop.
  - simpl in H. apply andb_prop in H as [_ H].
    rewrite (startsWith_includes _ _ H). apply orb_true_r.
  - rewrite (IH H). apply orb_true_r.
Qed.

(** The filter keeps the answers whose text contains [v=spf1]; its second
    test, for the same literal after a quote, adds nothing. *)
Lemma is_spf_spec a :
  is_spf a = true <->
  exists d, data a = Some d /\ JsString.includes "v=spf1" d = true.
Proof.
  unfold is_spf. destruct (data a) as [[|c d]|]; split; try done.
  - by intros (d' & [= <-] & H).
  - intros [H|H]%orb_prop; [by eauto|].
    exists (String c d). split; [done|]. by apply includes_tail in H.
  - intros (d' & [= <-] & H). by rewrite H.
  - by intros (d' & [=] & H).
Qed.

(** ** The iteration of an [include] or [redirect] token *)

Lemma iteration_expands nested domain depth visited i m x l w :
  allFound l = false ->
  expands m x ->
  iteration nested domain depth visited i m l w
  = match nested x (depth + 1) (Set_copy visited w).1 (Set_copy visited w).2 with
    | None => None
    | Some (None, w') => Some (add_lookups 1 l, w')
    | Some (Some c, w') =>
        Some (attach c (expansion_child m x c) (add_lookups 1 l), w')
    end.
Proof.
  intros Ha Hx. unfold iteration, expansion_child. rewrite Ha.
  destruct Hx as [[-> <-]|[-> <-]]; by destruct (Set_copy visited w).
Qed.

Lemma infrastructure_failure_result (dns : string -> fetch_outcome) name :
  infrastructure_failure (dns name) ->
  Result.record (interpret (dns name)) = None /\
  Result.isVoid (interpret (dns name)) = false /\
  (Result.error (interpret (dns name)) = Some exception \/
   Result.error (interpret (dns name)) = Some network \/
   Result.error (interpret (dns name)) = Some servfail).
Proof.
  intros [->|[->|(body & -> & Hs)]]; simpl; [by auto..|].
  rewrite Hs. simpl. auto.
Qed.

(** ** Doubles *)

Section Doubles.

Local Open Scope Z_scope.

(** The digits of a mantissa. *)

Lemma digits2_pos_log2 p : Zpos (digits2_pos p) = Z.log2 (Zpos p) + 1.
Proof.
  induction p as [p IH|p IH|]; simpl digits2_pos.
  - rewrite Pos2Z.inj_succ, IH. destruct p; simpl; lia.
  - rewrite Pos2Z.inj_succ, IH. destruct p; simpl; lia.
  - reflexivity.
Qed.

Lemma shift_pos_mul m d : Zpos (Pos.iter xO m d) = Zpos m * 2 ^ Zpos d.
Proof.
  induction d as [|d IH] using Pos.peano_ind.
  - simpl. lia.
  - rewrite Pos.iter_succ, (Pos2Z.inj_xO (Pos.iter xO m d)), IH,
      Pos2Z.inj_succ, Z.pow_succ_r by lia.
    ring.
Qed.

(** Shifts to the right that drop no bit. *)

Lemma shr_1_double n : 0 <= n -> shr_1 (rec0 (2 * n)) = rec0 n.
Proof. destruct n; simpl; intros; [reflexivity|reflexivity|lia]. Qed.

Lemma iter_shr_exact k :
  forall m, 0 <= m -> SpecFloat.iter_pos shr_1 k (rec0 (m * 2 ^ Zpos k)) = rec0 m.
Proof.
  induction k as [k IH|k IH|]; intros m Hm; cbn [SpecFloat.iter_pos].
  - replace (m * 2 ^ Zpos k~1) with (2 * ((m * 2 ^ Zpos k) * 2 ^ Zpos k)).
    + rewrite shr_1_double, IH, IH; [reflexivity|lia|..]; 
        pose proof (Z.pow_pos_nonneg 2 (Zpos k)); nia.
    + rewrite (Pos2Z.inj_xI k).
      replace (2 * Zpos k + 1) with (Zpos k + Zpos k + 1) by lia.
      rewrite !Z.pow_add_r by lia. change (2 ^ 1) with 2. ring.
  - replace (m * 2 ^ Zpos k~0) with ((m * 2 ^ Zpos k) * 2 ^ Zpos k).
    + rewrite IH, IH; [reflexivity|lia|].
      pose proof (Z.pow_pos_nonneg 2 (Zpos k)); nia.
    + rewrite (Pos2Z.inj_xO k).
      replace (2 * Zpos k) with (Zpos k + Zpos k) by lia.
      rewrite !Z.pow_add_r by lia. ring.
  - change (2 ^ 1) with 2. rewrite Z.mul_comm. apply shr_1_double, Hm.
Qed.

(** Rounding what needs none. *)

Lemma binary_round_aux_canonical m e :
  fexp prec emax (Zpos (digits2_pos m) + e) = e -> e <= 971 ->
  binary_round_aux prec emax false (Zpos m) e loc_Exact = S754_finite false m e.
Proof.
  intros Hc He. unfold binary_round_aux, shr_fexp. simpl Zdigits2.
  rewrite Hc, Z.sub_diag. simpl. rewrite Hc, Z.sub_diag. simpl.
  change (emax - prec) with 971. destruct (Z.leb_spec e 971); [reflexivity|lia].
Qed.

Lemma log2_shift m j : 0 < m -> 0 <= j -> Z.log2 (m * 2 ^ j) = Z.log2 m + j.
Proof. intros. rewrite Z.log2_mul_pow2 by lia. lia. Qed.

(** [m' * 2^t = M * 2^e], written without negative exponents. *)
Lemma binary_round_exact M e m' :
  let t := fexp prec emax (Zpos (digits2_pos M) + e) in
  t <= 971 ->
  Zpos m' * 2 ^ (t - Z.min e t) = Zpos M * 2 ^ (e - Z.min e t) ->
  binary_round prec emax false M e = S754_finite false m' t.
Proof.
  intros t Ht Hv.
  assert (fexp prec emax (Zpos (digits2_pos M) + e) = t) as Hfe by reflexivity.
  clearbody t. unfold binary_round, shl_align. rewrite Hfe.
  destruct (t - e) as [|k|k] eqn:Hk.
  - assert (t = e) as -> by lia.
    rewrite Z.min_id, Z.sub_diag in Hv. simpl in Hv.
    assert (m' = M) as -> by lia.
    by apply binary_round_aux_canonical.
  - (* to the right *)
    assert (Z.min e t = e) as Hmin by lia. rewrite Hmin, Z.sub_diag in Hv.
    rewrite Hk in Hv. simpl (2 ^ 0) in Hv. rewrite Z.mul_1_r in Hv.
    unfold binary_round_aux, shr_fexp. simpl Zdigits2. rewrite Hfe, Hk.
    unfold shr. rewrite <- Hv.
    change (shr_record_of_loc (Zpos m' * 2 ^ Zpos k) loc_Exact)
      with (rec0 (Zpos m' * 2 ^ Zpos k)).
    rewrite iter_shr_exact by lia. simpl.
    assert (e + Zpos k = t) as -> by lia.
    assert (fexp prec emax (Zpos (digits2_pos m') + t) = t) as Hc.
    { rewrite <- Hfe at 2. f_equal. rewrite !digits2_pos_log2, <- Hv.
      rewrite log2_shift by lia. lia. }
    rewrite Hc, Z.sub_diag. simpl.
    change (emax - prec) with 971. destruct (Z.leb_spec t 971); [reflexivity|lia].
  - (* to the left *)
    assert (Z.min e t = t) as Hmin by lia. rewrite Hmin, Z.sub_diag in Hv.
    simpl (2 ^ 0) in Hv. rewrite Z.mul_1_r in Hv.
    assert (e - t = Zpos k) as Hk' by lia. rewrite Hk' in Hv.
    assert (m' = Pos.iter xO M k) as ->.
    { pose proof (shift_pos_mul M k). lia. }
    apply binary_round_aux_canonical; [|lia].
    rewrite <- Hfe at 2. f_equal. rewrite !digits2_pos_log2, shift_pos_mul.
    rewrite log2_shift by lia. lia.
Qed.

(** Integers below [2^53]. *)

Lemma canon_pos n : 0 < n < 2 ^ 53 ->
  0 <= Z.log2 n <= 52 /\ 0 < n * 2 ^ (52 - Z.log2 n) /\
  Z.log2 (n * 2 ^ (52 - Z.log2 n)) = 52.
Proof.
  intros Hn.
  assert (Z.log2 n < 53) by (apply Z.log2_lt_pow2; lia).
  pose proof (Z.log2_nonneg n).
  split; [lia|]. split.
  - pose proof (Z.pow_pos_nonneg 2 (52 - Z.log2 n)). nia.
  - rewrite log2_shift by lia. lia.
Qed.

Lemma binary_round_integer M e n :
  0 < n < 2 ^ 53 -> e <= 0 -> Zpos M = n * 2 ^ (- e) ->
  binary_round prec emax false M e = canon n.
Proof.
  intros Hn He HM. destruct (canon_pos n Hn) as (Hl & Hp & Hd).
  assert (Zpos (digits2_pos M) + e = Z.log2 n + 1) as Hdig.
  { rewrite digits2_pos_log2, HM, log2_shift by lia. lia. }
  assert (fexp prec emax (Zpos (digits2_pos M) + e) = Z.log2 n - 52) as Ht.
  { rewrite Hdig. unfold fexp, SpecFloat.emin, prec, emax. lia. }
  unfold canon. rewrite <- Ht.
  apply binary_round_exact; rewrite Ht; [lia|].
  rewrite Z2Pos.id by lia. rewrite HM.
  set (l := Z.log2 n) in *.
  destruct (Z.min_spec e (l - 52)) as [[Hm ->]|[Hm ->]].
  - rewrite Z.sub_diag. simpl (2 ^ 0). rewrite Z.mul_1_r.
    rewrite <- Z.mul_assoc, <- Z.pow_add_r by lia.
    do 2 f_equal. lia.
  - rewrite Z.sub_diag. simpl (2 ^ 0). rewrite Z.mul_1_r.
    rewrite <- Z.mul_assoc, <- Z.pow_add_r by lia.
    do 2 f_equal. lia.
Qed.

Lemma of_Z_canon n : 0 < n < 2 ^ 53 -> of_Z n = canon n.
Proof.
  intros Hn. unfold of_Z. destruct n as [|p|p]; try lia.
  simpl binary_normalize. apply binary_round_integer; [lia|lia|].
  simpl. lia.
Qed.

Lemma shl_align_fst m e e' :
  e' <= e -> Zpos (fst (shl_align m e e')) = Zpos m * 2 ^ (e - e').
Proof.
  intros He. unfold shl_align. destruct (e' - e) as [|k|k] eqn:Hk; try lia.
  - assert (e - e' = 0) as -> by lia. simpl. lia.
  - simpl fst. rewrite shift_pos_mul. do 2 f_equal. lia.
Qed.

Lemma add_canon a b :
  0 < a -> 0 < b -> a + b < 2 ^ 53 -> add (canon a) (canon b) = canon (a + b).
Proof.
  intros Ha Hb Hab.
  destruct (canon_pos a) as (Hla & Hpa & _); [lia|].
  destruct (canon_pos b) as (Hlb & Hpb & _); [lia|].
  unfold add, canon at 1 2, SFadd.
  set (ea := Z.log2 a - 52). set (eb := Z.log2 b - 52).
  set (ez := Z.min ea eb).
  rewrite !shl_align_fst by lia. rewrite !Z2Pos.id by lia.
  simpl cond_Zopp.
  assert (a * 2 ^ (52 - Z.log2 a) * 2 ^ (ea - ez)
          + b * 2 ^ (52 - Z.log2 b) * 2 ^ (eb - ez)
          = (a + b) * 2 ^ (- ez)) as ->.
  { rewrite <- !Z.mul_assoc, <- !Z.pow_add_r by lia.
    replace (52 - Z.log2 a + (ea - ez)) with (- ez) by lia.
    replace (52 - Z.log2 b + (eb - ez)) with (- ez) by lia. ring. }
  assert (0 < (a + b) * 2 ^ (- ez)) as Hpos.
  { pose proof (Z.pow_pos_nonneg 2 (- ez)). nia. }
  destruct ((a + b) * 2 ^ (- ez)) as [|M|M] eqn:HM; try lia.
  simpl binary_normalize. apply binary_round_integer; [lia|lia|].
  symmetry. exact HM.
Qed.

Lemma of_Z_0 : of_Z 0 = S754_zero false.
Proof. reflexivity. Qed.

Lemma add_of_Z a b :
  0 <= a -> 0 <= b -> a + b < 2 ^ 53 -> add (of_Z a) (of_Z b) = of_Z (a + b).
Proof.
  intros Ha Hb Hab.
  destruct (Z.eq_dec a 0) as [->|Hna].
  { rewrite of_Z_0, Z.add_0_l.
    destruct (Z.eq_dec b 0) as [->|Hnb]; [reflexivity|].
    rewrite of_Z_canon by lia. reflexivity. }
  destruct (Z.eq_dec b 0) as [->|Hnb].
  { rewrite of_Z_0, Z.add_0_r, of_Z_canon by lia. reflexivity. }
  rewrite !of_Z_canon by lia. apply add_canon; lia.
Qed.

Lemma integer_value_of_Z n : 0 <= n < 2 ^ 53 -> integer_value (of_Z n) = Some n.
Proof.
  intros Hn. destruct (Z.eq_dec n 0) as [->|Hne]; [reflexivity|].
  rewrite of_Z_canon by lia. destruct (canon_pos n) as (Hl & Hp & _); [lia|].
  unfold canon, integer_value. rewrite Z2Pos.id by lia.
  destruct (Z.leb_spec 0 (Z.log2 n - 52)) as [H0|H0].
  - assert (Z.log2 n = 52) as -> by lia. simpl. f_equal. lia.
  - replace (- (Z.log2 n - 52)) with (52 - Z.log2 n) by lia.
    rewrite Z.mod_mul by (pose proof (Z.pow_pos_nonneg 2 (52 - Z.log2 n)); lia).
    simpl. rewrite Z.div_mul by (pose proof (Z.pow_pos_nonneg 2 (52 - Z.log2 n)); lia).
    reflexivity.
Qed.

(** Sums of numbers that are not negative. *)

Lemma iter_pos_invariant {A} (P : A -> Prop) (f : A -> A) :
  (forall x, P x -> P (f x)) -> forall k x, P x -> P (SpecFloat.iter_pos f k x).
Proof.
  intros Hf. induction k as [k IH|k IH|]; intros x Hx; simpl; auto.
Qed.

Lemma shr_1_nonneg mrs : 0 <= shr_m mrs -> 0 <= shr_m (shr_1 mrs).
Proof.
  destruct mrs as [[|[p|p|]|p] r s]; simpl; intros; lia.
Qed.

Lemma shr_nonneg mrs e n : 0 <= shr_m mrs -> 0 <= shr_m (fst (shr mrs e n)).
Proof.
  intros H. unfold shr. destruct n; simpl; try assumption.
  apply (iter_pos_invariant (fun x => 0 <= shr_m x)); [|assumption].
  apply shr_1_nonneg.
Qed.

Lemma shr_record_of_loc_m m l : shr_m (shr_record_of_loc m l) = m.
Proof. destruct l as [|[]]; reflexivity. Qed.

Lemma round_nearest_even_nonneg m l : 0 <= m -> 0 <= round_nearest_even m l.
Proof. destruct l as [|[]]; simpl; try destruct (Z.even m); lia. Qed.

Lemma binary_round_aux_nonneg m e l :
  0 <= m -> nonneg (binary_round_aux prec emax false m e l).
Proof.
  intros Hm. unfold binary_round_aux, shr_fexp.
  destruct (shr (shr_record_of_loc m l) e _) as [mrs' e'] eqn:E1.
  destruct (shr (shr_record_of_loc (round_nearest_even _ _) loc_Exact) e' _)
    as [mrs'' e''] eqn:E2.
  assert (0 <= shr_m mrs') as H1.
  { change mrs' with (fst (mrs', e')). rewrite <- E1. apply shr_nonneg.
    by rewrite shr_record_of_loc_m. }
  assert (0 <= shr_m mrs'') as H2.
  { change mrs'' with (fst (mrs'', e'')). rewrite <- E2. apply shr_nonneg.
    rewrite shr_record_of_loc_m. by apply round_nearest_even_nonneg. }
  destruct (shr_m mrs''); [reflexivity| |lia].
  destruct (_ <=? _); reflexivity.
Qed.

Lemma binary_round_nonneg m e : nonneg (binary_round prec emax false m e).
Proof.
  unfold binary_round. destruct (shl_align _ _ _) as [mz ez].
  apply binary_round_aux_nonneg. lia.
Qed.

Lemma pow2_nonneg e : nonneg (pow2 e).
Proof. apply binary_round_nonneg. Qed.

Lemma add_nonneg x y : nonneg x -> nonneg y -> nonneg (add x y).
Proof.
  destruct x as [sx|sx| |sx mx ex], y as [sy|sy| |sy my ey]; simpl;
    try tauto; try (intros -> ->; reflexivity).
  intros -> ->. unfold add, SFadd. cbn [cond_Zopp].
  apply binary_round_nonneg.
Qed.

Lemma add_NaN x y :
  (nonneg x \/ x = NaN) -> (nonneg y \/ y = NaN) ->
  (add x y = NaN <-> x = NaN \/ y = NaN).
Proof.
  intros [Hx| ->] [Hy| ->].
  - pose proof (add_nonneg x y Hx Hy) as H. split.
    + intros E. rewrite E in H. destruct H.
    + intros [-> | ->]; [destruct Hx|destruct Hy].
  - split; [auto|]. intros _. by destruct x.
  - split; [auto|]. reflexivity.
  - split; [auto|]. reflexivity.
Qed.

End Doubles.

(** ** Netblocks *)

Lemma unique_spec array :
  NoDup (unique array) /\ forall x, x ∈ unique array <-> x ∈ array.
Proof.
  unfold unique.
  assert (forall seen,
            NoDup seen ->
            let r := fold_left
                       (fun seen x =>
                          if bool_decide (x ∈ seen) then seen else seen ++ [x])
                       array seen in
            NoDup r /\ forall x, x ∈ r <-> x ∈ seen \/ x ∈ array) as H.
  { induction array as [|a array IH]; intros seen Hs; simpl.
    - split; [done|]. intros x. split; [auto|].
      intros [?|H]; [done|by apply elem_of_nil in H].
    - case_bool_decide as Ha.
      + destruct (IH seen Hs) as [Hn He]. split; [done|].
        intros x. rewrite He, elem_of_cons. naive_solver.
      + destruct (IH (seen ++ [a])) as [Hn He].
        { apply NoDup_app. split; [done|]. split; [|apply NoDup_singleton].
          intros x Hx ->%list_elem_of_singleton. done. }
        split; [done|]. intros x.
        rewrite He, elem_of_app, list_elem_of_singleton, elem_of_cons.
        naive_solver. }
  destruct (H [] (NoDup_nil_2)) as [Hn He]. split; [done|].
  intros x. rewrite He. split; [|auto].
  intros [H'|?]; [by apply elem_of_nil in H'|done].
Qed.

(** The sum over the set is the sum over the first occurrences. *)
Lemma sum_over_set_unique netblocks :
  sum_over_set netblocks
  = fold_left (fun sum nb => (sum + addresses nb)%Z) (unique netblocks) 0%Z.
Proof.
  symmetry. unfold sum_over_set, set_fold. simpl.
  rewrite <- (fold_left_rev_right (fun nb sum => (sum + addresses nb)%Z)).
  apply (foldr_permutation (=) (fun nb sum => (sum + addresses nb)%Z) 0%Z).
  - intros _ a1 _ a2 b _ _ _. lia.
  - rewrite <- Permutation_rev.
    destruct (unique_spec netblocks) as [Hn He].
    apply NoDup_Permutation; [done|apply NoDup_elements|].
    intros x. by rewrite He, elem_of_elements, elem_of_list_to_set.
Qed.

Lemma addresses_nonneg nb : (0 <= addresses nb)%Z.
Proof.
  unfold addresses. destruct (prefixLength nb); [|done].
  apply Z.pow_nonneg. lia.
Qed.

Lemma fold_addresses_ge netblocks :
  forall s,
    (s <= fold_left (fun sum nb => sum + addresses nb) netblocks s)%Z.
Proof.
  induction netblocks as [|nb netblocks IH]; intros s; simpl; [lia|].
  pose proof (addresses_nonneg nb). pose proof (IH (s + addresses nb)%Z). lia.
Qed.

(** The count of a netblock with a prefix length from 0 to 32. *)
Lemma calculateIPv4Count_valid nb p :
  prefixLength nb = Some p -> (0 <= p <= 32)%Z ->
  calculateIPv4Count nb = of_Z (addresses nb).
Proof.
  intros Hp Hr. unfold calculateIPv4Count, addresses. rewrite Hp.
  assert (exists n, n <= 32 /\ (32 - p)%Z = Z.of_nat n) as (n & Hn & ->).
  { exists (Z.to_nat (32 - p)). lia. }
  do 33 (destruct n as [|n]; [by vm_compute|]). lia.
Qed.

(** The count of a netblock is [NaN] or is not negative. *)
Lemma calculateIPv4Count_cases nb :
  nonneg (calculateIPv4Count nb) \/ calculateIPv4Count nb = NaN.
Proof.
  unfold calculateIPv4Count. destruct (prefixLength nb); [left|by right].
  apply pow2_nonneg.
Qed.

(** The doubles of the total are the integers of the sum, as long as the
    sum stays below [2^53]. *)
Lemma totalIPv4Count_exact netblocks :
  forall s,
    (0 <= s)%Z ->
    valid_prefixes netblocks ->
    (fold_left (fun sum nb => sum + addresses nb) netblocks s < 2 ^ 53)%Z ->
    fold_left (fun sum nb => add sum (calculateIPv4Count nb)) netblocks (of_Z s)
    = of_Z (fold_left (fun sum nb => sum + addresses nb)%Z netblocks s).
Proof.
  induction netblocks as [|nb netblocks IH]; intros s Hs Hv Hlt; simpl; [done|].
  simpl in Hlt. pose proof (addresses_nonneg nb) as Ha.
  pose proof (fold_addresses_ge netblocks (s + addresses nb)%Z) as Hge.
  destruct (Hv nb) as (p & Hp & Hr); [by left|].
  rewrite (calculateIPv4Count_valid nb p Hp Hr), add_of_Z by lia.
  apply IH; [lia| |done].
  intros x Hx. apply Hv. by right.
Qed.

(** Reading a prefix length. *)
Lemma split_slash_1_app address rest :
  JsString.includes "/" address = false ->
  JsString.split_slash_1 (address +:+ "/" +:+ rest)
  = Some (JsString.upto_slash rest).
Proof.
  induction address as [|c address IH]; simpl; [done|].
  destruct (Ascii.eqb_spec c "/") as [->|Hc]; [done|].
  intros H. apply IH. apply orb_false_elim in H as [_ H].
  destruct address; [done|]. exact H.
Qed.

Lemma parseInt_pretty n :
  n <= 32 ->
  JsString.upto_slash (pretty n) = pretty n /\
  pretty n <> "" /\
  ParseInt.parseInt (pretty n) = Some (Z.of_nat n).
Proof.
  intros Hn.
  do 33 (destruct n as [|n]; [by vm_compute|]). lia.
Qed.

Lemma prefixLength_prefix cidr n :
  has_prefix_length cidr n -> n <= 32 ->
  prefixLength cidr = Some (Z.of_nat n).
Proof.
  intros (address & Ha & ->) Hn. unfold prefixLength.
  rewrite split_slash_1_app by done.
  destruct (parseInt_pretty n Hn) as (-> & Hne & Hp).
  by destruct (pretty n) as [|c s] eqn:E.
Qed.

Lemma calculateIPv4Count_prefix cidr n :
  has_prefix_length cidr n -> n <= 32 ->
  calculateIPv4Count cidr = of_Z (2 ^ (32 - Z.of_nat n)).
Proof.
  intros Hc Hn. pose proof (prefixLength_prefix cidr n Hc Hn) as Hp.
  rewrite (calculateIPv4Count_valid cidr _ Hp) by lia.
  unfold addresses. by rewrite Hp.
Qed.

Lemma includes_slash_32 ip : JsString.includes "/" (ip +:+ "/32") = true.
Proof.
  induction ip as [|c ip IH]; [done|].
  change (JsString.includes "/" (String c ip +:+ "/32"))
    with (JsString.startsWith "/" (String c (ip +:+ "/32"))
          || JsString.includes "/" (ip +:+ "/32")).
  rewrite IH. apply orb_true_r.
Qed.

Lemma to_cidr_slash ip : JsString.includes "/" (to_cidr ip) = true.
Proof.
  unfold to_cidr. destruct (JsString.includes "/" ip) eqn:E; [done|].
  apply includes_slash_32.
Qed.

(** The [netblocks] of a node are the [ip4] values of its tree, each with
    a slash. *)
Definition netblocks_of_tree (netblocks : list string) (children : list child)
    : Prop :=
  netblocks = flat_map ip4_values children /\
  Forall (fun nb => JsString.includes "/" nb = true) netblocks.

Section Loop_netblocks.

Variable nested :
  string -> nat -> nat -> world -> option (option Node.t * world).
Hypothesis nested_netblocks :
  forall d dp v w c w',
    nested d dp v w = Some (Some c, w') ->
    netblocks_of_tree (Node.netblocks c) (Node.children c).

Lemma netblocks_of_tree_push nbs cs c :
  netblocks_of_tree nbs cs -> ip4_values c = [] ->
  netblocks_of_tree nbs (cs ++ [c]).
Proof.
  intros [-> Hf] Hc. split; [|done].
  by rewrite flat_map_app; simpl; rewrite Hc, !app_nil_r.
Qed.

Lemma netblocks_of_tree_attach nbs cs c child :
  netblocks_of_tree nbs cs ->
  netblocks_of_tree (Node.netblocks c) (Node.children c) ->
  ip4_values child = flat_map ip4_values (Node.children c) ->
  netblocks_of_tree (nbs ++ Node.netblocks c) (cs ++ [child]).
Proof.
  intros [-> Hf] [Hc Hfc] Hv. split.
  - rewrite flat_map_app. simpl. by rewrite Hv, app_nil_r, <- Hc.
  - by apply Forall_app.
Qed.

Lemma iteration_netblocks domain depth visited i m l w l' w' :
  netblocks_of_tree (netblocks l) (children l) ->
  iteration nested domain depth visited i m l w = Some (l', w') ->
  netblocks_of_tree (netblocks l') (children l').
Proof.
  intros Hl. unfold iteration.
  destruct (allFound l); [by intros [= <- <-]|].
  destruct (classify _);
    try (intros [= <- <-]; first [done | by apply netblocks_of_tree_push]).
  - destruct (Set_copy visited w) as [copy w1].
    destruct (nested _ _ _ _) as [[[c|] w2]|] eqn:Hn; intros [= <- <-];
      [|done].
    apply netblocks_of_tree_attach; [done| |done].
    exact (nested_netblocks _ _ _ _ _ _ Hn).
  - destruct (Set_copy visited w) as [copy w1].
    destruct (nested _ _ _ _) as [[[c|] w2]|] eqn:Hn; intros [= <- <-];
      [|done].
    apply netblocks_of_tree_attach; [done| |done].
    exact (nested_netblocks _ _ _ _ _ _ Hn).
  - intros [= <- <-]. destruct Hl as [Hl Hf]. split; simpl.
    + by rewrite Hl, flat_map_app.
    + apply Forall_app. split; [done|]. apply Forall_singleton.
      apply (to_cidr_slash (replace_match match_ip4 (JsString.trim m))).
Qed.

Lemma for_loop_netblocks domain depth visited ms :
  forall i l w l' w',
    netblocks_of_tree (netblocks l) (children l) ->
    for_loop nested domain depth visited i ms l w = Some (l', w') ->
    netblocks_of_tree (netblocks l') (children l').
Proof.
  induction ms as [|m ms IH]; intros i l w l' w' Hl; simpl.
  { by intros [= <- <-]. }
  destruct (iteration _ _ _ _ _ _ _ _) as [[l1 w1]|] eqn:E; [|done].
  apply IH. exact (iteration_netblocks _ _ _ _ _ _ _ _ _ Hl E).
Qed.

End Loop_netblocks.

Lemma parseSPFTree_netblocks dns fuel :
  forall domain depth visited w node w',
    parseSPFTree dns fuel domain depth visited w = Some (Some node, w') ->
    netblocks_of_tree (Node.netblocks node) (Node.children node).
Proof.
  induction fuel as [|fuel IH]; intros domain depth visited w node w' H;
    [done|].
  destruct (parseSPFTree_cases _ _ _ _ _ _ _ _ H)
    as [?|(c & record & l & _ & _ & Hloop & [= ->])]; [done|].
  apply (for_loop_netblocks _ IH) in Hloop; [done|].
  split; [done|]. apply Forall_nil_2.
Qed.

(** ** The visited set of a call *)

Lemma Set_elements_before_loop dns domain record visited w :
  visited < length (sets w) ->
  visited < length (sets (before_loop dns domain record visited w)) /\
  Set_elements visited (before_loop dns domain record visited w)
  = {[domain]} ∪ Set_elements visited w.
Proof.
  intros Hv. unfold before_loop.
  set (w1 := check_shape _ _ _).
  assert (sets w1 = sets w ++ [{[domain]} ∪ Set_elements visited w]) as Hs.
  { unfold w1. rewrite sets_check_shape, sets_track_void.
    unfold looked_up. cbn [sets log_request Set_add].
    rewrite Set_elements_copy. unfold Set_copy, Set_new. cbn [fst snd sets].
    rewrite insert_app_r_alt by done. by rewrite Nat.sub_diag. }
  assert (visited < length (sets w1)) as Hv1.
  { rewrite Hs, length_app. lia. }
  split.
  - cbn [sets Set_add]. by rewrite length_insert.
  - unfold Set_elements at 1. cbn [sets Set_add].
    rewrite list_lookup_insert_eq by done. cbn.
    by rewrite (Set_elements_app_l _ w w1 _ Hv Hs).
Qed.

(** The set of the caller is the same after an iteration. *)
Lemma iteration_keeps_visited dns fuel domain depth visited i m l w l' w' :
  visited < length (sets w) ->
  iteration (parseSPFTree dns fuel) domain depth visited i m l w = Some (l', w') ->
  visited < length (sets w') /\
  Set_elements visited w' = Set_elements visited w.
Proof.
  intros Hv H.
  apply (iteration_sets _ (parseSPFTree_sets dns fuel)) in H as [extra He].
  split.
  - rewrite He, length_app. lia.
  - by apply (Set_elements_app_l _ _ _ extra).
Qed.

Lemma for_loop_keeps_visited dns fuel domain depth visited i ms l w l' w' :
  visited < length (sets w) ->
  for_loop (parseSPFTree dns fuel) domain depth visited i ms l w = Some (l', w') ->
  visited < length (sets w') /\
  Set_elements visited w' = Set_elements visited w.
Proof.
  intros Hv H.
  apply (for_loop_sets _ (parseSPFTree_sets dns fuel)) in H as [extra He].
  split.
  - rewrite He, length_app. lia.
  - by apply (Set_elements_app_l _ _ _ extra).
Qed.

(** ** A node depends on the world through the elements of the set only *)

Lemma interpret_record outcome record :
  Result.record (interpret outcome) = Some record ->
  Result.error (interpret outcome) = None.
Proof.
  destruct outcome as [| |body]; simpl; [done..|].
  repeat case_match; simpl; done.
Qed.

Section Loop_indep.

Variable nested :
  string -> nat -> nat -> world -> option (option Node.t * world).
Hypothesis nested_sets :
  forall d dp v w r w',
    v < length (sets w) ->
    nested d dp v w = Some (r, w') -> store_after d v w w'.
Hypothesis nested_indep :
  forall d dp va wa vb wb ra wa' rb wb',
    va < length (sets wa) -> vb < length (sets wb) ->
    Set_elements va wa = Set_elements vb wb ->
    nested d dp va wa = Some (ra, wa') ->
    nested d dp vb wb = Some (rb, wb') ->
    core <$> ra = core <$> rb.

Lemma nested_on_copies d dp va wa vb wb ra wa' rb wb' :
  Set_elements va wa = Set_elements vb wb ->
  nested d dp (Set_copy va wa).1 (Set_copy va wa).2 = Some (ra, wa') ->
  nested d dp (Set_copy vb wb).1 (Set_copy vb wb).2 = Some (rb, wb') ->
  core <$> ra = core <$> rb.
Proof.
  intros He. apply nested_indep; try apply Set_copy_valid.
  by rewrite !Set_elements_copy.
Qed.

Lemma iteration_indep domain depth va vb i m l wa wb la wa' lb wb' :
  Set_elements va wa = Set_elements vb wb ->
  iteration nested domain depth va i m l wa = Some (la, wa') ->
  iteration nested domain depth vb i m l wb = Some (lb, wb') ->
  la = lb.
Proof.
  intros He. unfold iteration.
  destruct (allFound l); [by intros [= <- <-] [= <- <-]|].
  destruct (classify _); try by intros [= <- <-] [= <- <-].
  - pose proof (nested_on_copies (replace_match match_include (JsString.trim m))
                  (depth + 1) va wa vb wb) as Hn.
    destruct (Set_copy va wa) as [ca wa1], (Set_copy vb wb) as [cb wb1].
    cbn [fst snd] in Hn.
    destruct (nested _ _ ca wa1) as [[ra wa2]|]; [|done].
    destruct (nested _ _ cb wb1) as [[rb wb2]|]; [|by destruct ra].
    specialize (Hn _ _ _ _ He eq_refl eq_refl).
    destruct ra as [a|], rb as [b|]; try done;
      intros [= <- <-] [= <- <-]; [|done].
    simpl in Hn. unfold core in Hn. unfold attach.
    injection Hn as _ -> -> -> ->. done.
  - pose proof (nested_on_copies (JsString.substring_from 9 (JsString.trim m))
                  (depth + 1) va wa vb wb) as Hn.
    destruct (Set_copy va wa) as [ca wa1], (Set_copy vb wb) as [cb wb1].
    cbn [fst snd] in Hn.
    destruct (nested _ _ ca wa1) as [[ra wa2]|]; [|done].
    destruct (nested _ _ cb wb1) as [[rb wb2]|]; [|by destruct ra].
    specialize (Hn _ _ _ _ He eq_refl eq_refl).
    destruct ra as [a|], rb as [b|]; try done;
      intros [= <- <-] [= <- <-]; [|done].
    simpl in Hn. unfold core in Hn. unfold attach.
    injection Hn as _ -> -> -> ->. done.
Qed.

Lemma for_loop_indep domain depth va vb ms :
  forall i l wa wb la wa' lb wb',
    va < length (sets wa) -> vb < length (sets wb) ->
    Set_elements va wa = Set_elements vb wb ->
    for_loop nested domain depth va i ms l wa = Some (la, wa') ->
    for_loop nested domain depth vb i ms l wb = Some (lb, wb') ->
    la = lb.
Proof.
  induction ms as [|m ms IH]; intros i l wa wb la wa' lb wb' Hva Hvb He;
    simpl.
  { by intros [= <- <-] [= <- <-]. }
  destruct (iteration nested domain depth va i m l wa) as [[la1 wa1]|] eqn:Ea;
    [|done].
  destruct (iteration nested domain depth vb i m l wb) as [[lb1 wb1]|] eqn:Eb;
    [|done].
  rewrite (iteration_indep _ _ _ _ _ _ _ _ _ _ _ _ _ He Ea Eb).
  destruct (iteration_sets _ nested_sets _ _ _ _ _ _ _ _ _ Ea) as [xa Hxa].
  destruct (iteration_sets _ nested_sets _ _ _ _ _ _ _ _ _ Eb) as [xb Hxb].
  apply IH.
  - rewrite Hxa, length_app. lia.
  - rewrite Hxb, length_app. lia.
  - by rewrite (Set_elements_app_l _ _ _ _ Hva Hxa),
      (Set_elements_app_l _ _ _ _ Hvb Hxb).
Qed.

End Loop_indep.

Lemma parseSPFTree_core dns fuel :
  forall domain depth va wa vb wb ra wa' rb wb',
    va < length (sets wa) -> vb < length (sets wb) ->
    Set_elements va wa = Set_elements vb wb ->
    parseSPFTree dns fuel domain depth va wa = Some (ra, wa') ->
    parseSPFTree dns fuel domain depth vb wb = Some (rb, wb') ->
    core <$> ra = core <$> rb.
Proof.
  induction fuel as [|fuel IH];
    intros domain depth va wa vb wb ra wa' rb wb' Hva Hvb He; [done|].
  assert (Set_has va domain wa = Set_has vb domain wb) as Hh.
  { unfold Set_has. by rewrite He. }
  destruct ((10 <? depth)%nat || Set_has va domain wa) eqn:Hg.
  { rewrite !parseSPFTree_guard by (by rewrite <- ?Hh).
    by intros [= <- <-] [= <- <-]. }
  destruct (Result.record (interpret (dns domain))) as [[|c record]|] eqn:Hr.
  1,3: rewrite !parseSPFTree_no_record by (rewrite <- ?Hh; auto);
       by intros [= <- <-] [= <- <-].
  pose proof (interpret_record _ _ Hr) as Herr.
  rewrite !(parseSPFTree_record _ _ _ _ _ _ c record)
    by (rewrite <- ?Hh, ?Herr; done).
  destruct (Set_elements_before_loop dns domain (String c record) va wa Hva)
    as [Hva1 Hea].
  destruct (Set_elements_before_loop dns domain (String c record) vb wb Hvb)
    as [Hvb1 Heb].
  destruct (for_loop _ _ _ va _ _ _ _) as [[la wa2]|] eqn:Ea; [|done].
  destruct (for_loop _ _ _ vb _ _ _ _) as [[lb wb2]|] eqn:Eb; [|done].
  intros [= <- <-] [= <- <-].
  rewrite (for_loop_indep _ (parseSPFTree_sets dns fuel) IH
             _ _ _ _ _ _ _ _ _ _ _ _ _ Hva1 Hvb1 (eq_trans Hea (eq_trans (f_equal _ He) (eq_sym Heb))) Ea Eb).
  done.
Qed.

(** ** No name is expanded under itself *)

Section Loop_paths.

Variable dns : string -> fetch_outcome.
Variable fuel : nat.
Hypothesis nested_paths :
  forall d dp v w c w',
    v < length (sets w) ->
    parseSPFTree dns fuel d dp v w = Some (Some c, w') ->
    (d ∉ Set_elements v w) /\
    forallb (path_free ({[d]} ∪ Set_elements v w)) (Node.children c) = true.

Lemma path_free_expansion seen c :
  path_free seen c
  = match c with
    | CInclude _ x _ cs _ _ _ | CRedirect _ x _ cs _ _ =>
        bool_decide (x ∉ seen) && forallb (path_free ({[x]} ∪ seen)) cs
    | _ => true
    end.
Proof. by destruct c. Qed.

Lemma forallb_push (f : child -> bool) cs c :
  forallb f cs = true -> f c = true -> forallb f (cs ++ [c]) = true.
Proof. intros Hcs Hc. rewrite forallb_app, Hcs. simpl. by rewrite Hc. Qed.

Lemma iteration_paths domain depth visited i m l w l' w' :
  forallb (path_free (Set_elements visited w)) (children l) = true ->
  iteration (parseSPFTree dns fuel) domain depth visited i m l w
  = Some (l', w') ->
  forallb (path_free (Set_elements visited w)) (children l') = true.
Proof.
  intros Hl. unfold iteration.
  destruct (allFound l); [by intros [= <- <-]|].
  destruct (classify _);
    try (intros [= <- <-]; first [done | by apply forallb_push]).
  - pose proof (fun c w' =>
                  nested_paths (replace_match match_include (JsString.trim m))
                    (depth + 1) _ _ c w' (Set_copy_valid visited w)) as Hn.
    rewrite Set_elements_copy in Hn.
    destruct (Set_copy visited w) as [copy w1]. cbn [fst snd] in Hn.
    destruct (parseSPFTree _ _ _ _ _ _) as [[[c|] w2]|]; intros [= <- <-];
      [|done].
    destruct (Hn _ _ eq_refl) as [Hx Hc].
    apply forallb_push; [done|]. rewrite path_free_expansion.
    apply andb_true_intro. split; [by apply bool_decide_eq_true_2|exact Hc].
  - pose proof (fun c w' =>
                  nested_paths (JsString.substring_from 9 (JsString.trim m))
                    (depth + 1) _ _ c w' (Set_copy_valid visited w)) as Hn.
    rewrite Set_elements_copy in Hn.
    destruct (Set_copy visited w) as [copy w1]. cbn [fst snd] in Hn.
    destruct (parseSPFTree _ _ _ _ _ _) as [[[c|] w2]|]; intros [= <- <-];
      [|done].
    destruct (Hn _ _ eq_refl) as [Hx Hc].
    apply forallb_push; [done|]. rewrite path_free_expansion.
    apply andb_true_intro. split; [by apply bool_decide_eq_true_2|exact Hc].
Qed.

Lemma for_loop_paths domain depth visited ms :
  forall i l w l' w',
    visited < length (sets w) ->
    forallb (path_free (Set_elements visited w)) (children l) = true ->
    for_loop (parseSPFTree dns fuel) domain depth visited i ms l w
    = Some (l', w') ->
    forallb (path_free (Set_elements visited w)) (children l') = true.
Proof.
  induction ms as [|m ms IH]; intros i l w l' w' Hv Hl; simpl.
  { by intros [= <- <-]. }
  destruct (iteration _ _ _ _ _ _ _ _) as [[l1 w1]|] eqn:E; [|done].
  destruct (iteration_keeps_visited _ _ _ _ _ _ _ _ _ _ _ Hv E) as [Hv1 He].
  intros H. rewrite <- He. apply (IH _ _ _ _ _ Hv1) in H; [done|].
  rewrite He. exact (iteration_paths _ _ _ _ _ _ _ _ _ Hl E).
Qed.

End Loop_paths.

Lemma parseSPFTree_paths dns fuel :
  forall domain depth visited w node w',
    visited < length (sets w) ->
    parseSPFTree dns fuel domain depth visited w = Some (Some node, w') ->
    (domain ∉ Set_elements visited w) /\
    forallb (path_free ({[domain]} ∪ Set_elements visited w))
      (Node.children node) = true.
Proof.
  induction fuel as [|fuel IH]; intros domain depth visited w node w' Hv H;
    [done|].
  destruct (parseSPFTree_cases _ _ _ _ _ _ _ _ H)
    as [?|(c & record & l & Hg & _ & Hloop & [= ->])]; [done|].
  apply orb_false_elim in Hg as [_ Hg]. unfold Set_has in Hg.
  apply bool_decide_eq_false in Hg. split; [done|].
  destruct (Set_elements_before_loop dns domain (String c record) visited w Hv)
    as [Hv1 He].
  rewrite <- He.
  apply (for_loop_paths dns fuel IH) in Hloop; done.
Qed.

(** ** Two expansions of a name from sets with the same elements *)

Lemma iteration_expands_grown dns fuel domain depth va vb i j m x
    la lb wa wb la' lb' wa' wb' :
  va < length (sets wa) -> vb < length (sets wb) ->
  Set_elements va wa = Set_elements vb wb ->
  allFound la = false -> allFound lb = false ->
  expands m x ->
  iteration (parseSPFTree dns fuel) domain depth va i m la wa = Some (la', wa') ->
  iteration (parseSPFTree dns fuel) domain depth vb j m lb wb = Some (lb', wb') ->
  exists c n nbs, grown la c n nbs la' /\ grown lb c n nbs lb'.
Proof.
  intros Hva Hvb He Ha Hb Hx.
  rewrite !(iteration_expands _ _ _ _ _ _ x) by done.
  pose proof (fun ra wa' rb wb' =>
                parseSPFTree_core dns fuel x (depth + 1)
                  _ _ _ _ ra wa' rb wb'
                  (Set_copy_valid va wa) (Set_copy_valid vb wb))
    as Hc.
  rewrite !Set_elements_copy in Hc.
  destruct (parseSPFTree _ _ _ _ (Set_copy va wa).1 _) as [[ra wa2]|]; [|done].
  destruct (parseSPFTree _ _ _ _ (Set_copy vb wb).1 _) as [[rb wb2]|];
    [|by destruct ra].
  specialize (Hc _ _ _ _ He eq_refl eq_refl).
  destruct ra as [a|], rb as [b|]; try done; intros [= <- <-] [= <- <-].
  - simpl in Hc. unfold core in Hc. injection Hc as _ Hr Hcs Hd Hn.
    exists (Some (expansion_child m x a)), (1 + Node.dnsLookups a),
      (Node.netblocks a).
    assert (expansion_child m x b = expansion_child m x a) as ->.
    { unfold expansion_child. by rewrite Hr, Hcs, Hd, Hn. }
    split; unfold grown; cbn; rewrite <- ?Hd, <- ?Hn; repeat split; lia.
  - exists None, 1, []. split; unfold grown; cbn; rewrite ?app_nil_r; done.
Qed.

(** * The claims *)

(** C5. Within one record, once an [all] token has been met (here [m], met
    while [allFound] is still false), the tokens [rest] that follow it are
    neither expanded nor counted: the loop ends with the variables as the
    [all] token left them, so that [rest] adds nothing to [children],
    [dnsLookups] or [netblocks]; no request is sent and no object is
    allocated, whatever the nested call would do; and the warnings grow by
    exactly one [after_all] message per token of [rest], in order. *)
Theorem C5_tokens_after_all_are_ignored
    (nested : string -> nat -> nat -> world -> option (option Node.t * world))
    (domain : string) (depth visited i : nat) (m : string)
    (rest : list string) (l : locals) (w : world) :
  allFound l = false ->
  classify (JsString.trim m) = KAll ->
  exists w',
    for_loop nested domain depth visited i (m :: rest) l w
    = Some (set_allFound
              (push_child
                 (CAll (JsString.trim m) (all_qualifier (JsString.trim m)) i)
                 l), w') /\
    Context.warnings (ctx w')
    = Context.warnings (ctx w)
      ++ map (fun t => Msg.after_all (JsString.trim t) domain) rest /\
    Context.errors (ctx w') = Context.errors (ctx w) /\
    Context.voidLookups (ctx w') = Context.voidLookups (ctx w) /\
    sets w' = sets w /\
    requests w' = requests w.
Proof.
  intros Ha Hk. exists (ignored_after_all domain rest w).
  split.
  - simpl. rewrite iteration_all by done. by apply for_loop_ignored.
  - by rewrite ignored_after_all_spec.
Qed.

Lemma C5_witness :
  exists w',
    for_loop (parseSPFTree (zone []) 3) "d.example" 0 0 1
      ["-all"; "include:x.example"; "ip4:192.0.2.1"; "mx"; "redirect=y.example"]
      no_locals initial
    = Some (set_allFound (push_child (CAll "-all" "fail" 1) no_locals), w') /\
    Context.warnings (ctx w')
    = [Msg.after_all "include:x.example" "d.example";
       Msg.after_all "ip4:192.0.2.1" "d.example";
       Msg.after_all "mx" "d.example";
       Msg.after_all "redirect=y.example" "d.example"] /\
    Context.errors (ctx w') = [] /\
    Context.voidLookups (ctx w') = 0 /\
    sets w' = [] /\
    requests w' = [].
Proof.
  apply (C5_tokens_after_all_are_ignored (parseSPFTree (zone []) 3)
           "d.example" 0 0 1 "-all"
           ["include:x.example"; "ip4:192.0.2.1"; "mx"; "redirect=y.example"]
           no_locals initial); reflexivity.
Defined.

(** C9. A [redirect=] token after [all] does contribute nothing, but it is
    reported once, with the message for every token after [all]: the loop
    tests [allFound] and continues before it looks at the kind of the
    token, so that the test of [allFound] in the [redirect] branch, with
    its own message, is never reached.  Here on the record
    [v=spf1 -all redirect=other.example]. *)
Theorem C9_redirect_after_all_reported_once :
  exists node w',
    parseSPFTree_root redirect_after_all 12 "root.example"
    = Some (Some node, w') /\
    Context.warnings (ctx w')
    = [Msg.after_all "redirect=other.example" "root.example"] /\
    (Msg.redirect_ignored "root.example" ∉ Context.warnings (ctx w')) /\
    Node.children node = [CAll "-all" "fail" 1] /\
    Node.dnsLookups node = 0 /\
    requests w' = ["root.example"].
Proof.
  eexists _, _. split; [vm_compute; reflexivity|]. cbn [ctx Context.warnings].
  repeat split.
  intros [H|H]%elem_of_cons; [discriminate H|by apply elem_of_nil in H].
Qed.



(** C4. When the answer for [domain] is a success ([Status] 0) with two or
    more entries that contain [v=spf1], the call returns no node and leaves
    the errors non-empty; when the call passes its guard, it does so by
    appending the PermError message to the world left by the lookup, and
    nothing else: the content of the records plays no part.  (A call that
    its guard stops returns no node either, with the error of the guard.) *)
Theorem C4_multiple_spf_records_are_a_permerror
    (dns : string -> fetch_outcome) (fuel : nat) (domain : string)
    (depth visited : nat) (w : world) (body : doh_json)
    (answers : list answer) :
  dns domain = Json body ->
  Status body = 0%Z ->
  Answer body = Some answers ->
  2 <= length (filter is_spf answers) ->
  (forall a,
     is_spf a = true <->
     exists d, data a = Some d /\ JsString.includes "v=spf1" d = true) /\
  exists w',
    parseSPFTree dns (S fuel) domain depth visited w = Some (None, w') /\
    Context.errors (ctx w') <> [] /\
    ((10 <? depth)%nat || Set_has visited domain w = false ->
     w' = push_error (Msg.multiple_spf domain) (looked_up domain visited w)).
Proof.
  intros Hd Hs Ha Hn. split.
  { apply is_spf_spec. }
  assert (Result.error (interpret (dns domain)) = Some multiple_spf /\
          Result.record (interpret (dns domain)) = None /\
          Result.isVoid (interpret (dns domain)) = false) as (He & Hr & Hv).
  { rewrite Hd. unfold interpret. rewrite Hs, Ha. cbn [Z.eqb negb].
    destruct answers as [|a answers]; [simpl in Hn; lia|].
    destruct (filter is_spf (a :: answers)) as [|x [|y rest]];
      [simpl in Hn; lia..|done]. }
  destruct ((10 <? depth)%nat || Set_has visited domain w) eqn:Hg.
  - rewrite parseSPFTree_guard by done. eexists. split; [done|].
    split; [|done]. cbn. by destruct (Context.errors (ctx w)).
  - rewrite parseSPFTree_no_record by auto. cbn zeta.
    rewrite He. rewrite bool_decide_eq_true_2 by done.
    unfold track_void. rewrite Hv.
    eexists. split; [done|]. split; [|done].
    cbn. by destruct (Context.errors (ctx w)).
Qed.

Lemma C4_witness :
  exists w',
    parseSPFTree
      (zone [("two.example", txt ["v=spf1 -all"; "other"; "v=spf1 +all"])])
      1 "two.example" 0 0 (Set_new ∅ initial).2
    = Some (None, w') /\
    Context.errors (ctx w') = [Msg.multiple_spf "two.example"].
Proof.
  destruct (C4_multiple_spf_records_are_a_permerror
              (zone [("two.example", txt ["v=spf1 -all"; "other"; "v=spf1 +all"])])
              0 "two.example" 0 0 (Set_new ∅ initial).2
              {| Status := 0;
                 Answer := Some [ {| data := Some "v=spf1 -all" |};
                                  {| data := Some "other" |};
                                  {| data := Some "v=spf1 +all" |} ] |}
              [ {| data := Some "v=spf1 -all" |};
                {| data := Some "other" |};
                {| data := Some "v=spf1 +all" |} ]
              eq_refl eq_refl eq_refl)
    as (_ & w' & Hp & _ & Hw).
  - vm_compute. lia.
  - exists w'. split; [exact Hp|]. by rewrite Hw.
Defined.

(** C8, as the code has it.  A lookup that ends in SERVFAIL or in a
    transport failure (a rejected [fetch], an answer that is not [ok])
    makes the call return no node, does not count as void and records
    nothing: the context is left as it was, and the world only shows the
    request and the copy of the set made for it.  The loop of the
    enclosing call then goes on with the tokens that follow, with one
    lookup counted for the token and no child. *)
Theorem C8_servfail_and_transport_failures_are_silent
    (dns : string -> fetch_outcome) (fuel : nat) :
  (forall domain depth visited w,
     infrastructure_failure (dns domain) ->
     (10 <? depth)%nat || Set_has visited domain w = false ->
     parseSPFTree dns (S fuel) domain depth visited w
     = Some (None, looked_up domain visited w) /\
     ctx (looked_up domain visited w) = ctx w /\
     requests (looked_up domain visited w) = requests w ++ [domain] /\
     is_void dns domain = false) /\
  (forall parent depth visited i m x rest l w,
     allFound l = false ->
     expands m x ->
     infrastructure_failure (dns x) ->
     (10 <? depth + 1)%nat || Set_has visited x w = false ->
     exists w',
       for_loop (parseSPFTree dns (S fuel)) parent depth visited i (m :: rest) l w
       = for_loop (parseSPFTree dns (S fuel)) parent depth visited (S i) rest
           (add_lookups 1 l) w' /\
       ctx w' = ctx w /\
       requests w' = requests w ++ [x]).
Proof.
  assert (forall domain depth visited w,
     infrastructure_failure (dns domain) ->
     (10 <? depth)%nat || Set_has visited domain w = false ->
     parseSPFTree dns (S fuel) domain depth visited w
     = Some (None, looked_up domain visited w)) as Hcall.
  { intros domain depth visited w Hf Hg.
    destruct (infrastructure_failure_result _ _ Hf) as (Hr & Hv & He).
    rewrite parseSPFTree_no_record by auto. cbn zeta.
    unfold track_void. rewrite Hv.
    by destruct He as [->|[->| ->]]. }
  split.
  - intros domain depth visited w Hf Hg. split; [by apply Hcall|].
    repeat split. unfold is_void.
    by destruct (infrastructure_failure_result _ _ Hf) as (_ & -> & _).
  - intros parent depth visited i m x rest l w Ha Hx Hf Hg.
    eexists. split.
    + cbn [for_loop]. rewrite (iteration_expands _ _ _ _ _ _ x) by done.
      rewrite Hcall; [reflexivity|done|].
      unfold Set_has in *. by rewrite Set_elements_copy.
    + done.
Qed.

Lemma C8_witness :
  parseSPFTree servfail_zone 1 "root.example" 0 0 (Set_new ∅ initial).2
  = Some (None, looked_up "root.example" 0 (Set_new ∅ initial).2) /\
  exists w',
    for_loop (parseSPFTree servfail_include_zone 1) "root.example" 0 0 1
      ["include:broken.example"; "ip4:192.0.2.1"] no_locals
      (Set_new ∅ initial).2
    = for_loop (parseSPFTree servfail_include_zone 1) "root.example" 0 0 2
        ["ip4:192.0.2.1"] (add_lookups 1 no_locals) w' /\
    ctx w' = Context.fresh.
Proof.
  destruct (C8_servfail_and_transport_failures_are_silent servfail_zone 0)
    as [Hcall _].
  destruct (C8_servfail_and_transport_failures_are_silent
              servfail_include_zone 0) as [_ Hloop].
  split.
  - apply Hcall; [|reflexivity].
    right; right. by exists {| Status := 2; Answer := None |}.
  - destruct (Hloop "root.example" 0 0 1 "include:broken.example"
                "broken.example" ["ip4:192.0.2.1"] no_locals
                (Set_new ∅ initial).2) as (w' & H1 & H2 & _).
    + reflexivity.
    + by left.
    + right; right. by exists {| Status := 2; Answer := None |}.
    + reflexivity.
    + by exists w'.
Defined.

(** C8, as the claim has it, fails: the lookup of [broken.example] ends in
    SERVFAIL, and when the resolution is over neither a warning nor an
    error has been recorded. *)
Lemma C8_counterexample :
  exists node w',
    parseSPFTree_root servfail_include_zone 12 "root.example"
    = Some (Some node, w') /\
    requests w' = ["root.example"; "broken.example"] /\
    Result.error (interpret (servfail_include_zone "broken.example"))
    = Some servfail /\
    ~ (Context.warnings (ctx w') <> [] \/ Context.errors (ctx w') <> []).
Proof.
  eexists _, _. split; [vm_compute; reflexivity|].
  cbn [requests ctx Context.warnings Context.errors].
  split; [done|]. split; [done|]. by intros [H|H].
Qed.

(** C2. A call with [depth > 10], or for a domain that is in its visited
    set, appends the depth-or-cycle error and returns no node, and that is
    all it does: no request is sent.  A call at [depth] needs at most
    [12 - depth] nested levels, so that every call returns, whatever the
    zone answers; a resolution from the root needs twelve.  On a chain of
    twelve nested includes, the names at depths 0 to 10 are looked up, the
    call at depth 11 is the one stopped, and the root node counts the
    eleven includes that were met. *)
Theorem C2_depth_and_cycle_guard :
  (forall dns fuel domain depth visited w,
     10 < depth \/ domain ∈ Set_elements visited w ->
     parseSPFTree dns (S fuel) domain depth visited w
     = Some (None, push_error (Msg.cycle domain) w) /\
     requests (push_error (Msg.cycle domain) w) = requests w /\
     Context.errors (ctx (push_error (Msg.cycle domain) w))
     = Context.errors (ctx w) ++ [Msg.cycle domain]) /\
  (forall dns fuel domain depth visited w,
     11 - depth < fuel ->
     exists r w', parseSPFTree dns fuel domain depth visited w = Some (r, w')) /\
  (forall dns domain,
     exists r w', parseSPFTree_root dns 12 domain = Some (r, w')) /\
  (exists node w',
     parseSPFTree_root chain12 12 (chain_name 0) = Some (Some node, w') /\
     requests w' = map chain_name (seq 0 11) /\
     Context.errors (ctx w') = [Msg.cycle (chain_name 11)] /\
     Node.dnsLookups node = 11).
Proof.
  split; [|split; [|split]].
  - intros dns fuel domain depth visited w Hg. split; [|done].
    apply parseSPFTree_guard. apply orb_true_iff.
    destruct Hg as [Hd|Hv].
    + left. by apply Nat.ltb_lt.
    + right. by apply bool_decide_eq_true_2.
  - intros dns fuel domain depth visited w Hf.
    destruct (parseSPFTree_total dns fuel domain depth visited w Hf)
      as [[r w'] H].
    by exists r, w'.
  - intros dns domain. unfold parseSPFTree_root.
    destruct (Set_new ∅ initial) as [visited w].
    destruct (parseSPFTree_total dns 12 domain 0 visited w) as [[r w'] H];
      [lia|].
    by exists r, w'.
  - eexists _, _. split; [vm_compute; reflexivity|].
    by vm_compute.
Qed.

Lemma C2_witness :
  parseSPFTree chain12 1 (chain_name 11) 11 0 (Set_new ∅ initial).2
  = Some (None, push_error (Msg.cycle (chain_name 11)) (Set_new ∅ initial).2) /\
  parseSPFTree chain12 1 (chain_name 3) 4 0 (Set_new {[chain_name 3]} initial).2
  = Some (None,
          push_error (Msg.cycle (chain_name 3))
            (Set_new {[chain_name 3]} initial).2) /\
  exists r w',
    parseSPFTree chain12 2 (chain_name 11) 10 0 (Set_new ∅ initial).2
    = Some (r, w').
Proof.
  destruct C2_depth_and_cycle_guard as (Hguard & Hfuel & _ & _).
  split; [|split].
  - apply Hguard. left. lia.
  - apply Hguard. right. unfold Set_elements. cbn. set_solver.
  - apply Hfuel. cbn. lia.
Defined.



(** C7, as the code has it.  [checkSPF] keeps of a resolution only what
    [parseSPFTree] returns.  When that is a node, the node carries the
    warnings, the errors and the counter of the context as they are when
    the resolution ends, and the report hands them on; when it is no node,
    [checkSPF] shows the one message for a record that was not found, and
    nothing of the context.  Twelve levels of fuel are enough for the
    resolution to return. *)
Theorem C7_what_the_entry_point_returns
    (dns : string -> fetch_outcome) (domain : string) :
  JsString.trim domain <> "" ->
  exists r w',
    parseSPFTree_root dns 12 (JsString.trim domain) = Some (r, w') /\
    match r with
    | Some node =>
        checkSPF dns 12 domain
        = Some {| error := None; result := Some (report node) |} /\
        Report.tree (report node) = node /\
        Report.warnings (report node) = Context.warnings (ctx w') /\
        Report.errors (report node) = Context.errors (ctx w') /\
        Report.voidLookups (report node) = Context.voidLookups (ctx w')
    | None =>
        checkSPF dns 12 domain
        = Some {| error := Some Msg.not_found; result := None |}
    end.
Proof.
  intros Hne. unfold checkSPF.
  destruct (JsString.trim domain) as [|c name] eqn:Ht; [done|].
  unfold parseSPFTree_root.
  destruct (Set_new ∅ initial) as [visited w].
  destruct (parseSPFTree_total dns 12 (String c name) 0 visited w) as [[r w'] H];
    [lia|].
  exists r, w'. rewrite H. split; [done|].
  destruct (parseSPFTree_cases _ _ _ _ _ _ _ _ H)
    as [->|(c' & record & l & _ & _ & _ & ->)]; done.
Qed.

Lemma C7_witness :
  exists w',
    parseSPFTree_root two_records 12 (JsString.trim " root.example ")
    = Some (None, w') /\
    checkSPF two_records 12 " root.example "
    = Some {| error := Some Msg.not_found; result := None |}.
Proof.
  destruct (C7_what_the_entry_point_returns two_records " root.example ")
    as (r & w' & Hp & Hc).
  - discriminate.
  - assert (r = None) as ->.
    { revert Hp. vm_compute. congruence. }
    by exists w'.
Defined.

(** C7, as the claim has it, fails: a root with two SPF records and a root
    that does not exist leave different diagnostics in their contexts, a
    PermError for the first and a warning for the second, and [checkSPF]
    ends in the same state for both.  What [checkSPF] gets when the root
    fails does not hold the errors and warnings of the resolution. *)
Lemma C7_counterexample :
  ~ (exists deliver : option display -> option Context.t,
       forall dns,
         deliver (checkSPF dns 12 "root.example")
         = (fun res => ctx res.2) <$> parseSPFTree_root dns 12 "root.example").
Proof.
  intros (deliver & H).
  pose proof (H two_records) as H1. pose proof (H (zone [])) as H2.
  assert (checkSPF two_records 12 "root.example"
          = checkSPF (zone []) 12 "root.example") as E by (by vm_compute).
  rewrite E, H2 in H1. vm_compute in H1. discriminate H1.
Qed.

(** C6, as the code has it.  The total that [checkSPF] reports is the sum
    of what [calculateIPv4Count] gives for the first occurrence of each
    netblock, added up in double precision.  When [parseInt] reads for
    every netblock a prefix length from 0 to 32, and the sum, over the set
    of the netblocks, of [2^(32 - prefixLength)] is below [2^53], the
    total is that sum.  For an address followed by a slash and a prefix
    length [n] of at most 32 in decimal the count is [2^(32 - n)].  The
    netblocks of a node are the values of the [ip4] children of its tree,
    in order and with their repetitions; each holds a slash, because an
    [ip4] token pushes its value as it is when it holds one and with
    [/32] appended otherwise, and an [ip6] token pushes a child and no
    netblock.  With [192.0.2.0/24] and [192.0.2.1] in the record, and an
    [ip6] besides, the total is 257. *)
Theorem C6_total_of_ipv4_addresses :
  (forall spfTree,
     Report.ipv4Count (report spfTree)
     = fold_left (fun sum nb => add sum (calculateIPv4Count nb))
         (unique (Node.netblocks spfTree)) (of_Z 0) /\
     NoDup (unique (Node.netblocks spfTree)) /\
     (forall nb,
        nb ∈ unique (Node.netblocks spfTree) <-> nb ∈ Node.netblocks spfTree)) /\
  (forall spfTree,
     valid_prefixes (Node.netblocks spfTree) ->
     (sum_over_set (Node.netblocks spfTree) < 2 ^ 53)%Z ->
     Report.ipv4Count (report spfTree)
     = of_Z (sum_over_set (Node.netblocks spfTree)) /\
     integer_value (Report.ipv4Count (report spfTree))
     = Some (sum_over_set (Node.netblocks spfTree))) /\
  (forall cidr n,
     has_prefix_length cidr n -> n <= 32 ->
     prefixLength cidr = Some (Z.of_nat n) /\
     calculateIPv4Count cidr = of_Z (2 ^ (32 - Z.of_nat n))) /\
  (forall dns fuel domain depth visited w node w',
     parseSPFTree dns fuel domain depth visited w = Some (Some node, w') ->
     Node.netblocks node = flat_map ip4_values (Node.children node) /\
     Forall (fun nb => JsString.includes "/" nb = true) (Node.netblocks node)) /\
  (forall nested domain depth visited i m l w,
     allFound l = false ->
     classify (JsString.trim m) = KIp4 ->
     let cidr := to_cidr (replace_match match_ip4 (JsString.trim m)) in
     iteration nested domain depth visited i m l w
     = Some (push_child
               (CIp4 (explicit_qualifier (JsString.trim m)) cidr
                  (calculateIPv4Count cidr))
               (push_netblocks [cidr] l), w)) /\
  (forall ip,
     JsString.includes "/" ip = false ->
     to_cidr ip = ip +:+ "/32" /\ has_prefix_length (to_cidr ip) 32) /\
  (forall nested domain depth visited i m l w,
     allFound l = false ->
     classify (JsString.trim m) = KIp6 ->
     iteration nested domain depth visited i m l w
     = Some (push_child
               (CIp6 (explicit_qualifier (JsString.trim m))
                  (replace_match match_ip6 (JsString.trim m))) l, w)) /\
  (exists r,
     checkSPF two_netblocks 12 "root.example"
     = Some {| error := None; result := Some r |} /\
     Node.netblocks (Report.tree r) = ["192.0.2.0/24"; "192.0.2.1/32"] /\
     Report.ipv4Count r = of_Z 257 /\
     integer_value (Report.ipv4Count r) = Some 257%Z).
Proof.
  split; [|split; [|split; [|split; [|split; [|split; [|split]]]]]].
  - intros spfTree. split; [done|]. apply unique_spec.
  - intros spfTree Hv Hlt. cbn [report Report.ipv4Count].
    rewrite sum_over_set_unique in Hlt |- *.
    assert (totalIPv4Count (unique (Node.netblocks spfTree))
            = of_Z (fold_left (fun sum nb => (sum + addresses nb)%Z)
                      (unique (Node.netblocks spfTree)) 0%Z)) as ->.
    { apply totalIPv4Count_exact; [done| |done].
      intros nb Hnb. apply Hv.
      by apply (proj2 (unique_spec (Node.netblocks spfTree))). }
    split; [done|]. apply integer_value_of_Z. split; [|done].
    apply (fold_addresses_ge _ 0%Z).
  - intros cidr n Hc Hn. split.
    + by apply prefixLength_prefix.
    + by apply calculateIPv4Count_prefix.
  - intros dns fuel domain depth visited w node w' H.
    exact (parseSPFTree_netblocks dns fuel _ _ _ _ _ _ H).
  - intros nested domain depth visited i m l w Ha Hk.
    unfold iteration. by rewrite Ha, Hk.
  - intros ip Hip. unfold to_cidr. rewrite Hip. split; [done|].
    by exists ip.
  - intros nested domain depth visited i m l w Ha Hk.
    unfold iteration. by rewrite Ha, Hk.
  - eexists. split; [vm_compute; reflexivity|]. split; [done|].
    split; by vm_compute.
Qed.

Lemma C6_witness :
  (prefixLength "192.0.2.0/24" = Some 24%Z /\
   calculateIPv4Count "192.0.2.0/24" = of_Z 256) /\
  (to_cidr "192.0.2.1" = "192.0.2.1/32" /\
   has_prefix_length (to_cidr "192.0.2.1") 32) /\
  for_loop (parseSPFTree (zone []) 3) "d.example" 0 0 1
    ["ip4:192.0.2.1"; "ip6:2001:db8::1"] no_locals initial
  = Some (push_child (CIp6 "+ip6:2001:db8::1" "2001:db8::1")
            (push_child
               (CIp4 "+ip4:192.0.2.1" "192.0.2.1/32"
                  (calculateIPv4Count "192.0.2.1/32"))
               (push_netblocks ["192.0.2.1/32"] no_locals)), initial) /\
  (let spfTree :=
     {| Node.domain := "root.example"; Node.record := "";
        Node.children := []; Node.dnsLookups := 0;
        Node.netblocks := ["192.0.2.0/24"; "192.0.2.1/32"; "192.0.2.0/24"];
        Node.warnings := []; Node.errors := []; Node.voidLookups := 0 |} in
   Report.ipv4Count (report spfTree)
   = of_Z (sum_over_set (Node.netblocks spfTree)) /\
   integer_value (Report.ipv4Count (report spfTree))
   = Some (sum_over_set (Node.netblocks spfTree))).
Proof.
  destruct C6_total_of_ipv4_addresses
    as (_ & Htotal & Hcount & _ & Hip4 & Hcidr & Hip6 & _).
  split; [|split; [|split]].
  - apply (Hcount "192.0.2.0/24" 24); [|lia].
    by exists "192.0.2.0".
  - by apply Hcidr.
  - cbn [for_loop].
    rewrite (Hip4 (parseSPFTree (zone []) 3) "d.example" 0 0 1
               "ip4:192.0.2.1" no_locals initial) by reflexivity.
    cbv zeta.
    rewrite (Hip6 (parseSPFTree (zone []) 3) "d.example" 0 0 2
               "ip6:2001:db8::1") by reflexivity.
    reflexivity.
  - apply Htotal.
    + intros nb Hnb. cbn [Node.netblocks] in Hnb.
      assert (nb = "192.0.2.0/24" \/ nb = "192.0.2.1/32") as [-> | ->].
      { rewrite !elem_of_cons in Hnb.
        destruct Hnb as [?|[?|[?|Hnb]]]; [auto..|inversion Hnb]. }
      * exists 24%Z. split; [reflexivity|lia].
      * exists 32%Z. split; [reflexivity|lia].
    + vm_compute. reflexivity.
Defined.

(** C6, as the claim has it, fails: the total is a double, and a sum of
    doubles is rounded.  With [ip4:10.0.0.0/-21] and [ip4:192.0.2.1] in
    the record, [parseInt] reads -21 and 32, the counts are [2^53] and 1,
    and their sum in double precision is [2^53], where the sum of
    [2^(32 - prefixLength)] over the set is [2^53 + 1]. *)
Lemma C6_counterexample :
  ~ (forall dns r,
       checkSPF dns 12 "root.example"
       = Some {| error := None; result := Some r |} ->
       integer_value (Report.ipv4Count r)
       = Some (sum_over_set (Node.netblocks (Report.tree r)))).
Proof.
  intros H.
  assert (exists r,
            checkSPF negative_prefix 12 "root.example"
            = Some {| error := None; result := Some r |} /\
            Node.netblocks (Report.tree r) = ["10.0.0.0/-21"; "192.0.2.1/32"] /\
            integer_value (Report.ipv4Count r) = Some 9007199254740992%Z)
    as (r & Hc & Hn & Hv).
  { eexists. split; [vm_compute; reflexivity|]. split; by vm_compute. }
  specialize (H negative_prefix r Hc). rewrite Hv, Hn in H.
  rewrite sum_over_set_unique in H. vm_compute in H. discriminate H.
Qed.
(** C1. The visited set is copied for every expansion, the context is not.
    - A nested call gets a new [Set] object with the elements of the
      caller's set; when the iteration of the token is over, the caller's
      own set holds what it held, while everything the nested call
      recorded is in the one context, which only grows.
    - The loop of a call runs with the call's own domain added to its
      set, so that a set holds the names on the path from the root to the
      call.
    - A token that expands a name of the set, the domain itself or an
      ancestor, gets no node: its expansion appends the cycle error and
      sends no request.  In the tree that a call returns no name is
      expanded under itself.
    - What a call returns to its caller depends on the world through the
      elements of its set only, not on what was resolved before or what
      the context holds: a name met in two sibling branches, or twice in
      one record, is expanded in the second place as in the first.
    Here a name that includes itself and a loop of two names end with one
    cycle error each, and a name included by two siblings is expanded
    under both without any error. *)
Theorem C1_visited_is_copied_per_branch
    (dns : string -> fetch_outcome) (fuel : nat) :
  (forall visited w,
     (Set_copy visited w).1 = length (sets w) /\
     Set_elements (Set_copy visited w).1 (Set_copy visited w).2
     = Set_elements visited w /\
     ctx (Set_copy visited w).2 = ctx w) /\
  (forall domain depth visited i m l w l' w',
     visited < length (sets w) ->
     iteration (parseSPFTree dns fuel) domain depth visited i m l w
     = Some (l', w') ->
     Set_elements visited w' = Set_elements visited w /\
     accounted dns w w') /\
  (forall domain depth visited w c record,
     visited < length (sets w) ->
     (10 <? depth)%nat || Set_has visited domain w = false ->
     Result.record (interpret (dns domain)) = Some (String c record) ->
     parseSPFTree dns (S fuel) domain depth visited w
     = match
         for_loop (parseSPFTree dns fuel) domain depth visited 0
           (JsString.words (String c record)) no_locals
           (before_loop dns domain (String c record) visited w)
       with
       | None => None
       | Some (l, w') =>
           Some (Some (node_of domain (String c record) l w'), w')
       end /\
     Set_elements visited (before_loop dns domain (String c record) visited w)
     = {[domain]} ∪ Set_elements visited w) /\
  (forall domain depth visited i m x l w,
     allFound l = false ->
     expands m x ->
     x ∈ Set_elements visited w ->
     iteration (parseSPFTree dns (S fuel)) domain depth visited i m l w
     = Some (add_lookups 1 l,
             push_error (Msg.cycle x) (Set_copy visited w).2) /\
     requests (push_error (Msg.cycle x) (Set_copy visited w).2) = requests w) /\
  (forall domain depth visited w node w',
     visited < length (sets w) ->
     parseSPFTree dns fuel domain depth visited w = Some (Some node, w') ->
     (domain ∉ Set_elements visited w) /\
     forallb (path_free ({[domain]} ∪ Set_elements visited w))
       (Node.children node) = true) /\
  (forall domain depth va wa vb wb ra wa' rb wb',
     va < length (sets wa) -> vb < length (sets wb) ->
     Set_elements va wa = Set_elements vb wb ->
     parseSPFTree dns fuel domain depth va wa = Some (ra, wa') ->
     parseSPFTree dns fuel domain depth vb wb = Some (rb, wb') ->
     core <$> ra = core <$> rb) /\
  (forall domain depth visited i j m x la lb wa wb la' lb' wa' wb',
     visited < length (sets wa) -> visited < length (sets wb) ->
     Set_elements visited wa = Set_elements visited wb ->
     allFound la = false -> allFound lb = false ->
     expands m x ->
     iteration (parseSPFTree dns fuel) domain depth visited i m la wa
     = Some (la', wa') ->
     iteration (parseSPFTree dns fuel) domain depth visited j m lb wb
     = Some (lb', wb') ->
     exists c n nbs, grown la c n nbs la' /\ grown lb c n nbs lb') /\
  (exists node w',
     parseSPFTree_root cycles_and_siblings 12 "self.example"
     = Some (Some node, w') /\
     Node.children node = [CAll "-all" "fail" 2] /\
     Context.errors (ctx w') = [Msg.cycle "self.example"] /\
     requests w' = ["self.example"]) /\
  (exists node w',
     parseSPFTree_root cycles_and_siblings 12 "ping.example"
     = Some (Some node, w') /\
     Context.errors (ctx w') = [Msg.cycle "ping.example"] /\
     requests w' = ["ping.example"; "pong.example"]) /\
  (exists node w' shared,
     parseSPFTree_root cycles_and_siblings 12 "root.example"
     = Some (Some node, w') /\
     shared
     = CInclude "+include:shared.example" "shared.example"
         "v=spf1 ip4:192.0.2.0/24 -all"
         [CIp4 "+ip4:192.0.2.0/24" "192.0.2.0/24"
            (calculateIPv4Count "192.0.2.0/24");
          CAll "-all" "fail" 2]
         1 ["192.0.2.0/24"] "+" /\
     Node.children node
     = [CInclude "+include:left.example" "left.example"
          "v=spf1 include:shared.example -all"
          [shared; CAll "-all" "fail" 2] 2 ["192.0.2.0/24"] "+";
        CInclude "+include:right.example" "right.example"
          "v=spf1 include:shared.example -all"
          [shared; CAll "-all" "fail" 2] 2 ["192.0.2.0/24"] "+";
        CAll "-all" "fail" 3] /\
     Context.errors (ctx w') = [] /\
     requests w'
     = ["root.example"; "left.example"; "shared.example";
        "right.example"; "shared.example"]).
Proof.
  repeat apply conj.
  - intros visited w. split; [done|]. split; [|done].
    apply Set_elements_copy.
  - intros domain depth visited i m l w l' w' Hv H. split.
    + by destruct (iteration_keeps_visited _ _ _ _ _ _ _ _ _ _ _ Hv H).
    + exact (iteration_accounted dns _ (parseSPFTree_accounted dns fuel)
               _ _ _ _ _ _ _ _ _ H).
  - intros domain depth visited w c record Hv Hg Hr. split.
    + apply parseSPFTree_record; [done| |done].
      by rewrite (interpret_record _ _ Hr).
    + by destruct (Set_elements_before_loop dns domain (String c record)
                     visited w Hv).
  - intros domain depth visited i m x l w Ha Hx Hin. split; [|done].
    rewrite (iteration_expands _ _ _ _ _ _ x) by done.
    rewrite parseSPFTree_guard; [done|].
    apply orb_true_iff. right. unfold Set_has.
    rewrite Set_elements_copy. by apply bool_decide_eq_true_2.
  - intros domain depth visited w node w' Hv H.
    exact (parseSPFTree_paths dns fuel _ _ _ _ _ _ Hv H).
  - exact (parseSPFTree_core dns fuel).
  - intros domain depth visited i j m x la lb wa wb la' lb' wa' wb'.
    apply iteration_expands_grown.
  - eexists _, _. split; [vm_compute; reflexivity|]. by vm_compute.
  - eexists _, _. split; [vm_compute; reflexivity|]. by vm_compute.
  - eexists _, _, _. split; [vm_compute; reflexivity|].
    split; [reflexivity|]. by vm_compute.
Qed.

Lemma C1_witness :
  iteration (parseSPFTree cycles_and_siblings 1) "pong.example" 1 0 1
    "include:ping.example" no_locals
    (Set_new {[ "ping.example"; "pong.example" ]} initial).2
  = Some (add_lookups 1 no_locals,
          push_error (Msg.cycle "ping.example")
            (Set_copy 0
               (Set_new {[ "ping.example"; "pong.example" ]} initial).2).2) /\
  exists l' w',
    iteration (parseSPFTree cycles_and_siblings 12) "left.example" 1 0 1
      "include:shared.example" no_locals
      (Set_new {[ "root.example"; "left.example" ]} initial).2
    = Some (l', w') /\
    Set_elements 0 w' = {[ "root.example"; "left.example" ]}.
Proof.
  destruct (C1_visited_is_copied_per_branch cycles_and_siblings 0)
    as (_ & _ & _ & Hcycle & _).
  destruct (C1_visited_is_copied_per_branch cycles_and_siblings 12)
    as (_ & Hkeep & _).
  split.
  - apply Hcycle; [reflexivity|by left|].
    unfold Set_elements. cbn. set_solver.
  - destruct (iteration_total (parseSPFTree cycles_and_siblings 12) 1
                (fun d v w => parseSPFTree_total cycles_and_siblings 12 d 2 v w
                                ltac:(cbn; lia))
                "left.example" 0 1 "include:shared.example" no_locals
                (Set_new {[ "root.example"; "left.example" ]} initial).2)
      as [[l' w'] E].
    exists l', w'. split; [exact E|].
    assert (0 < length (sets (Set_new {[ "root.example"; "left.example" ]} initial).2))
      as Hv by (simpl; lia).
    destruct (Hkeep _ _ _ _ _ _ _ _ _ Hv E) as [-> _].
    reflexivity.
Defined.

(** * Further properties of the code *)

(** ** calculateIPv4Count and the total *)

Lemma split_slash_1_none cidr :
  JsString.includes "/" cidr = false -> JsString.split_slash_1 cidr = None.
Proof.
  induction cidr as [|c cidr IH]; [done|].
  change (JsString.includes "/" (String c cidr))
    with (JsString.startsWith "/" (String c cidr) || JsString.includes "/" cidr).
  intros [H1 H2]%orb_false_elim. simpl in *.
  destruct (Ascii.eqb_spec c "/") as [->|Hc]; [done|]. auto.
Qed.

(** X1. A CIDR without a slash, or with nothing between its first slash
    and the next slash or the end, counts for one address: the prefix
    length is taken to be 32. *)
Theorem X1_missing_prefix_length_is_32 (address rest : string) :
  JsString.includes "/" address = false ->
  JsString.upto_slash rest = "" ->
  calculateIPv4Count address = of_Z 1 /\
  calculateIPv4Count (address +:+ "/" +:+ rest) = of_Z 1.
Proof.
  intros Ha Hr. unfold calculateIPv4Count, prefixLength.
  rewrite split_slash_1_none, split_slash_1_app, Hr by done.
  split; by vm_compute.
Qed.

Lemma X1_witness :
  calculateIPv4Count "192.0.2.1" = of_Z 1 /\
  calculateIPv4Count ("192.0.2.1" +:+ "/" +:+ "/24") = of_Z 1.
Proof. by apply X1_missing_prefix_length_is_32. Defined.

Lemma fold_total_NaN netblocks :
  fold_left (fun sum nb => add sum (calculateIPv4Count nb)) netblocks NaN = NaN.
Proof. by induction netblocks. Qed.

Lemma fold_total_Num netblocks :
  forall q,
    nonneg q ->
    fold_left (fun sum nb => add sum (calculateIPv4Count nb)) netblocks q
    = NaN <->
    exists nb, nb ∈ netblocks /\ calculateIPv4Count nb = NaN.
Proof.
  induction netblocks as [|x netblocks IH]; intros q Hq; simpl.
  { split; [by intros ->|]. by intros (nb & H%elem_of_nil & _). }
  destruct (calculateIPv4Count_cases x) as [Hx|Hx].
  - rewrite (IH _ (add_nonneg _ _ Hq Hx)). split.
    + intros (nb & Hin & Hnb). exists nb. split; [by right|done].
    + intros (nb & [->|Hin]%elem_of_cons & Hnb); [|eauto].
      rewrite Hnb in Hx. destruct Hx.
  - rewrite Hx.
    assert (add q NaN = NaN) as -> by by destruct q.
    rewrite fold_total_NaN. split; [|done]. intros _. exists x.
    split; [by left|done].
Qed.

Lemma parseInt_letter c rest :
  is_letter c = true -> ParseInt.parseInt (String c rest) = None.
Proof.
  destruct c as [[] [] [] [] [] [] [] []]; try discriminate; intros _;
    reflexivity.
Qed.

Lemma upto_slash_letter c rest :
  is_letter c = true ->
  JsString.upto_slash (String c rest) = String c (JsString.upto_slash rest).
Proof.
  destruct c as [[] [] [] [] [] [] [] []]; try discriminate; intros _;
    reflexivity.
Qed.

(** X2. The total is not a number exactly when the count of one of the
    netblocks is not a number, which happens for a prefix length that
    [parseInt] cannot read, such as one that starts with a letter: one
    such netblock makes the whole total [NaN]. *)
Theorem X2_one_unreadable_prefix_spoils_the_total :
  (forall spfTree,
     Report.ipv4Count (report spfTree) = NaN <->
     exists nb, nb ∈ Node.netblocks spfTree /\ calculateIPv4Count nb = NaN) /\
  (forall address c rest,
     JsString.includes "/" address = false ->
     is_letter c = true ->
     calculateIPv4Count (address +:+ "/" +:+ String c rest) = NaN).
Proof.
  split.
  - intros spfTree. cbn [report Report.ipv4Count]. unfold totalIPv4Count.
    rewrite fold_total_Num by reflexivity.
    destruct (unique_spec (Node.netblocks spfTree)) as [_ He].
    split; intros (nb & Hin & Hnb); exists nb; (split; [|done]);
      by apply He.
  - intros address c rest Ha Hc. unfold calculateIPv4Count, prefixLength.
    rewrite split_slash_1_app, upto_slash_letter by done.
    by rewrite parseInt_letter.
Qed.

Lemma X2_witness : calculateIPv4Count ("192.0.2.0" +:+ "/" +:+ "x24") = NaN.
Proof.
  destruct X2_one_unreadable_prefix_spoils_the_total as [_ H].
  by apply H.
Defined.

(** ** The aggregation of the netblocks *)

Lemma unique_snoc array x :
  unique (array ++ [x])
  = if bool_decide (x ∈ unique array) then unique array else unique array ++ [x].
Proof. unfold unique. by rewrite fold_left_app. Qed.

Lemma occurrences_snoc nb array x :
  occurrences nb (array ++ [x])
  = occurrences nb array + (if String.eqb x nb then 1 else 0).
Proof. induction array as [|y array IH]; simpl; [lia|]. rewrite IH. lia. Qed.

Lemma occurrences_not_in nb array : nb ∉ array -> occurrences nb array = 0.
Proof.
  induction array as [|y array IH]; [done|].
  intros [Hne Hin]%not_elem_of_cons. simpl. rewrite (IH Hin).
  destruct (String.eqb_spec y nb); [congruence|done].
Qed.

Lemma occurrences_in nb array : nb ∈ array <-> 0 < occurrences nb array.
Proof.
  split.
  - induction 1 as [x array|x y array _ IH]; simpl.
    + rewrite String.eqb_refl. lia.
    + lia.
  - intros H. destruct (decide (nb ∈ array)) as [|Hn]; [done|].
    rewrite (occurrences_not_in _ _ Hn) in H. lia.
Qed.

Lemma count_netblock_found x (f : string -> nat) keys :
  NoDup keys -> x ∈ keys ->
  count_netblock x (map (fun k => (k, f k)) keys)
  = map (fun k => (k, f k + (if String.eqb x k then 1 else 0))) keys.
Proof.
  induction keys as [|k keys IH]; intros Hn Hin; [by apply elem_of_nil in Hin|].
  apply NoDup_cons in Hn as [Hk Hn]. simpl.
  destruct (String.eqb_spec k x) as [->|Hne].
  - rewrite String.eqb_refl. f_equal.
    apply map_ext_in. intros k Hin'%list_elem_of_In.
    destruct (String.eqb_spec x k) as [->|]; [done|]. by rewrite Nat.add_0_r.
  - destruct (String.eqb_spec x k) as [->|_]; [done|].
    rewrite Nat.add_0_r. f_equal. apply IH; [done|].
    by apply elem_of_cons in Hin as [->|].
Qed.

Lemma count_netblock_new x (f : string -> nat) keys :
  x ∉ keys ->
  count_netblock x (map (fun k => (k, f k)) keys)
  = map (fun k => (k, f k)) keys ++ [(x, 1)].
Proof.
  induction keys as [|k keys IH]; [done|].
  intros [Hne Hin]%not_elem_of_cons. simpl.
  destruct (String.eqb_spec k x); [congruence|]. by rewrite IH.
Qed.

(** The object [netblockCount] of [checkSPF]: the netblocks in the order
    in which they are first met, each with its number of occurrences. *)
Lemma netblockCount_spec netblocks :
  fold_left (fun counts nb => count_netblock nb counts) netblocks []
  = map (fun nb => (nb, occurrences nb netblocks)) (unique netblocks).
Proof.
  induction netblocks as [|x netblocks IH] using rev_ind; [done|].
  rewrite fold_left_app, IH, unique_snoc. simpl.
  destruct (unique_spec netblocks) as [Hn He].
  case_bool_decide as Hx.
  - rewrite count_netblock_found by done.
    apply map_ext. intros k. by rewrite occurrences_snoc.
  - rewrite count_netblock_new by done. rewrite map_app. simpl.
    f_equal.
    + apply map_ext_in. intros k Hk%list_elem_of_In.
      rewrite occurrences_snoc.
      destruct (String.eqb_spec x k) as [->|]; [done|]. by rewrite Nat.add_0_r.
    + rewrite occurrences_snoc, String.eqb_refl.
      rewrite occurrences_not_in; [done|]. by rewrite <- He.
Qed.

(** X3. The duplicates of the report are the netblocks that occur twice
    or more among the netblocks of the tree, each once, with its number of
    occurrences, in the order in which the netblocks are first met. *)
Theorem X3_duplicates_of_the_report (spfTree : Node.t) :
  Report.duplicates (report spfTree)
  = map (fun nb => (nb, occurrences nb (Node.netblocks spfTree)))
      (filter (fun nb => 2 <= occurrences nb (Node.netblocks spfTree))
         (unique (Node.netblocks spfTree))) /\
  (forall nb c,
     (nb, c) ∈ Report.duplicates (report spfTree) <->
     c = occurrences nb (Node.netblocks spfTree) /\ 2 <= c) /\
  NoDup (Report.duplicates (report spfTree)).*1.
Proof.
  cbn [report Report.duplicates]. rewrite netblockCount_spec.
  set (nbs := Node.netblocks spfTree).
  assert (filter (fun e : string * nat => (1 <? e.2)%nat)
            (map (fun nb => (nb, occurrences nb nbs)) (unique nbs))
          = map (fun nb => (nb, occurrences nb nbs))
              (filter (fun nb => 2 <= occurrences nb nbs) (unique nbs))) as ->.
  { induction (unique nbs) as [|x l IH]; [done|]. simpl.
    rewrite !filter_cons. simpl.
    destruct (Nat.ltb_spec 1 (occurrences x nbs)); repeat case_decide;
      simpl in *; try done; try lia.
    by rewrite IH. }
  destruct (unique_spec nbs) as [Hn He].
  split; [done|]. split.
  - intros nb c. rewrite list_elem_of_fmap. split.
    + intros (x & [= -> ->] & [Hx _]%list_elem_of_filter). done.
    + intros [-> Hc]. exists nb. split; [done|].
      apply list_elem_of_filter. split; [done|].
      apply He, occurrences_in. lia.
  - assert (forall l : list string,
              (map (fun nb => (nb, occurrences nb nbs)) l).*1 = l) as ->.
    { intros l. induction l as [|y l IH]; [done|]. simpl. f_equal. exact IH. }
    by apply NoDup_filter.
Qed.

(** X4. The number of netblocks of the report is the number of distinct
    netblocks of the tree; the list it is the length of keeps the first
    occurrence of each netblock, in order. *)
Theorem X4_number_of_distinct_netblocks (spfTree : Node.t) :
  Report.netblockCount (report spfTree)
  = size (list_to_set (Node.netblocks spfTree) : gset string) /\
  NoDup (unique (Node.netblocks spfTree)) /\
  unique (Node.netblocks spfTree) `sublist_of` Node.netblocks spfTree /\
  (forall nb,
     nb ∈ unique (Node.netblocks spfTree) <-> nb ∈ Node.netblocks spfTree).
Proof.
  cbn [report Report.netblockCount].
  destruct (unique_spec (Node.netblocks spfTree)) as [Hn He].
  split; [|split; [done|split; [|done]]].
  - unfold size, set_size. simpl. apply Permutation_length.
    apply NoDup_Permutation; [done|apply NoDup_elements|].
    intros x. by rewrite He, elem_of_elements, elem_of_list_to_set.
  - clear Hn He.
    induction (Node.netblocks spfTree) as [|x l IH] using rev_ind; [done|].
    rewrite unique_snoc. case_bool_decide.
    + by apply sublist_inserts_r.
    + by apply sublist_app.
Qed.

(** ** Requests, lookups and nesting *)

Lemma requests_track_void domain result w :
  requests (track_void domain result w) = requests w.
Proof. unfold track_void. by repeat case_match. Qed.

Lemma requests_check_shape domain record w :
  requests (check_shape domain record w) = requests w.
Proof. unfold check_shape. by repeat case_match. Qed.

Lemma requests_before_loop dns domain record visited w :
  requests (before_loop dns domain record visited w) = requests w ++ [domain].
Proof.
  unfold before_loop. cbn [requests Set_add].
  by rewrite requests_check_shape, requests_track_void.
Qed.

Section Loop_requests.

Variable nested :
  string -> nat -> nat -> world -> option (option Node.t * world).
Hypothesis nested_requests :
  forall d dp v w r w',
    nested d dp v w = Some (r, w') ->
    length (requests w') <= length (requests w) + 1 + lookups_of r.

Lemma iteration_requests domain depth visited i m l w l' w' :
  iteration nested domain depth visited i m l w = Some (l', w') ->
  length (requests w') + dnsLookups l <= length (requests w) + dnsLookups l'.
Proof.
  unfold iteration.
  destruct (allFound l); [by intros [= <- <-]|].
  destruct (classify _); try (intros [= <- <-]; cbn; lia).
  - destruct (Set_copy visited w) as [copy w1] eqn:Hc.
    assert (requests w1 = requests w) as Hr.
    { by injection Hc as _ <-. }
    destruct (nested _ _ _ _) as [[[c|] w2]|] eqn:Hn; intros [= <- <-];
      apply nested_requests in Hn; rewrite Hr in Hn; cbn in *; lia.
  - destruct (Set_copy visited w) as [copy w1] eqn:Hc.
    assert (requests w1 = requests w) as Hr.
    { by injection Hc as _ <-. }
    destruct (nested _ _ _ _) as [[[c|] w2]|] eqn:Hn; intros [= <- <-];
      apply nested_requests in Hn; rewrite Hr in Hn; cbn in *; lia.
Qed.

Lemma for_loop_requests domain depth visited ms :
  forall i l w l' w',
    for_loop nested domain depth visited i ms l w = Some (l', w') ->
    length (requests w') + dnsLookups l <= length (requests w) + dnsLookups l'.
Proof.
  induction ms as [|m ms IH]; intros i l w l' w'; simpl.
  { intros [= <- <-]. lia. }
  destruct (iteration _ _ _ _ _ _ _ _) as [[l1 w1]|] eqn:E; [|done].
  intros H. apply iteration_requests in E. apply IH in H. lia.
Qed.

End Loop_requests.

Lemma parseSPFTree_requests dns fuel :
  forall domain depth visited w r w',
    parseSPFTree dns fuel domain depth visited w = Some (r, w') ->
    length (requests w') <= length (requests w) + 1 + lookups_of r.
Proof.
  induction fuel as [|fuel IH]; intros domain depth visited w r w'; [done|].
  destruct ((10 <? depth)%nat || Set_has visited domain w) eqn:Hg.
  { rewrite parseSPFTree_guard by done. intros [= <- <-]. cbn. lia. }
  destruct (Result.record (interpret (dns domain))) as [[|c record]|] eqn:Hr.
  1,3: rewrite parseSPFTree_no_record by auto; cbn zeta; intros [= <- <-];
       repeat case_bool_decide; cbn [requests push_error push_warning with_ctx];
       rewrite requests_track_void; cbn; rewrite length_app; cbn; lia.
  rewrite (parseSPFTree_record _ _ _ _ _ _ c record)
    by (rewrite ?(interpret_record _ _ Hr); done).
  destruct (for_loop _ _ _ _ _ _ _ _) as [[l w2]|] eqn:E; [|done].
  intros [= <- <-]. apply (for_loop_requests _ IH) in E.
  rewrite requests_before_loop, length_app in E. cbn in *. lia.
Qed.

(** X5. A call sends at most one request more than the DNS lookups that
    the node it returns counts, and at most one when it returns no node:
    the count that is reported bounds the traffic of the resolution. *)
Theorem X5_requests_are_bounded_by_the_lookups
    (dns : string -> fetch_outcome) (fuel : nat) (domain : string)
    (depth visited : nat) (w w' : world) (r : option Node.t) :
  parseSPFTree dns fuel domain depth visited w = Some (r, w') ->
  exists rs,
    requests w' = requests w ++ rs /\
    length rs <= 1 + lookups_of r.
Proof.
  intros H.
  destruct (parseSPFTree_accounted dns fuel _ _ _ _ _ _ H)
    as (rs & _ & _ & Hr & _).
  exists rs. split; [done|].
  apply parseSPFTree_requests in H. rewrite Hr, length_app in H. lia.
Qed.

Lemma X5_witness :
  exists r w' rs,
    parseSPFTree chain12 12 (chain_name 0) 0 0 (Set_new ∅ initial).2
    = Some (r, w') /\
    requests w' = requests (Set_new ∅ initial).2 ++ rs /\
    length rs <= 1 + lookups_of r.
Proof.
  destruct (parseSPFTree_total chain12 12 (chain_name 0) 0 0
              (Set_new ∅ initial).2) as [[r w'] E]; [cbn; lia|].
  destruct (X5_requests_are_bounded_by_the_lookups _ _ _ _ _ _ _ _ E)
    as (rs & Hr & Hl).
  exists r, w', rs. split; [exact E|]. split; [exact Hr|exact Hl].
Defined.

Lemma max_list_le (ns : list nat) n :
  Forall (fun k => k <= n) ns -> max_list ns <= n.
Proof. induction 1; simpl; lia. Qed.

Section Loop_nesting.

Variable nested :
  string -> nat -> nat -> world -> option (option Node.t * world).
Hypothesis nested_nesting :
  forall d dp v w c w',
    nested d dp v w = Some (Some c, w') ->
    dp <= 10 /\ Forall (fun k => nesting k <= 10 - dp) (Node.children c).

Lemma nesting_expansion x dp v w c w' :
  nested x (dp + 1) v w = Some (Some c, w') ->
  S (max_list (map nesting (Node.children c))) <= 10 - dp.
Proof.
  intros [Hd Hc]%nested_nesting.
  assert (max_list (map nesting (Node.children c)) <= 10 - (dp + 1)); [|lia].
  apply max_list_le. by apply Forall_fmap.
Qed.

Lemma iteration_nesting domain depth visited i m l w l' w' :
  Forall (fun k => nesting k <= 10 - depth) (children l) ->
  iteration nested domain depth visited i m l w = Some (l', w') ->
  Forall (fun k => nesting k <= 10 - depth) (children l').
Proof.
  intros Hl. unfold iteration.
  destruct (allFound l); [by intros [= <- <-]|].
  destruct (classify _);
    try (intros [= <- <-]; first [done | apply Forall_app; split; [done|];
                                         apply Forall_singleton; cbn; lia]).
  - destruct (Set_copy visited w) as [copy w1].
    destruct (nested _ _ _ _) as [[[c|] w2]|] eqn:Hn; intros [= <- <-];
      [|done].
    apply Forall_app. split; [done|]. apply Forall_singleton.
    exact (nesting_expansion _ _ _ _ _ _ Hn).
  - destruct (Set_copy visited w) as [copy w1].
    destruct (nested _ _ _ _) as [[[c|] w2]|] eqn:Hn; intros [= <- <-];
      [|done].
    apply Forall_app. split; [done|]. apply Forall_singleton.
    exact (nesting_expansion _ _ _ _ _ _ Hn).
Qed.

Lemma for_loop_nesting domain depth visited ms :
  forall i l w l' w',
    Forall (fun k => nesting k <= 10 - depth) (children l) ->
    for_loop nested domain depth visited i ms l w = Some (l', w') ->
    Forall (fun k => nesting k <= 10 - depth) (children l').
Proof.
  induction ms as [|m ms IH]; intros i l w l' w' Hl; simpl.
  { by intros [= <- <-]. }
  destruct (iteration _ _ _ _ _ _ _ _) as [[l1 w1]|] eqn:E; [|done].
  apply IH. exact (iteration_nesting _ _ _ _ _ _ _ _ _ Hl E).
Qed.

End Loop_nesting.

(** X6. A call that returns a node ran at a depth of at most 10, and the
    expansions of the node are nested at most [10 - depth] deep: the tree
    of a resolution from the root never nests more than ten expansions. *)
Theorem X6_nesting_is_bounded
    (dns : string -> fetch_outcome) (fuel : nat) (domain : string)
    (depth visited : nat) (w w' : world) (node : Node.t) :
  parseSPFTree dns fuel domain depth visited w = Some (Some node, w') ->
  depth <= 10 /\
  Forall (fun c => nesting c <= 10 - depth) (Node.children node).
Proof.
  revert domain depth visited w w' node.
  induction fuel as [|fuel IH]; intros domain depth visited w w' node H;
    [done|].
  destruct (parseSPFTree_cases _ _ _ _ _ _ _ _ H)
    as [?|(c & record & l & Hg & _ & Hloop & [= ->])]; [done|].
  apply orb_false_elim in Hg as [Hd%Nat.ltb_ge _]. split; [done|].
  apply (for_loop_nesting _ (fun d dp v w c w' => IH d dp v w w' c)) in Hloop;
    done.
Qed.

Lemma X6_witness :
  exists node w',
    parseSPFTree cycles_and_siblings 3 "root.example" 0 0 (Set_new ∅ initial).2
    = Some (Some node, w') /\
    Forall (fun c => nesting c <= 10 - 0) (Node.children node).
Proof.
  eexists _, _. split; [vm_compute; reflexivity|].
  eapply (X6_nesting_is_bounded cycles_and_siblings 3 "root.example" 0 0
            (Set_new ∅ initial).2).
  vm_compute. reflexivity.
Defined.

(** ** The record that was found *)

Lemma check_shape_ctx domain record w :
  ctx (check_shape domain record w)
  = {| Context.voidLookups := Context.voidLookups (ctx w);
       Context.warnings :=
         Context.warnings (ctx w) ++ shape_warnings domain record;
       Context.errors := Context.errors (ctx w) ++ shape_errors domain record |}.
Proof.
  unfold check_shape, shape_errors, shape_warnings.
  destruct w as [[v ws es] ss rs].
  destruct (JsString.startsWith "v=spf1" record);
    destruct (Nat.ltb_spec 512 (String.length record));
    destruct (Nat.ltb_spec 450 (String.length record));
    destruct (Nat.leb_spec (String.length record) 512);
    try lia; cbn; by rewrite ?app_nil_r, <- ?app_assoc.
Qed.

Lemma interpret_record_not_void outcome text :
  Result.record (interpret outcome) = Some text ->
  Result.isVoid (interpret outcome) = false.
Proof.
  destruct outcome as [| |body]; simpl; [done..|].
  repeat case_match; simpl; done.
Qed.

(** X7. The checks on the shape of a record never stop a call: a call
    that passes its guard and finds a record returns a node for it as
    soon as the fuel allows, whatever the record looks like.  The checks
    only record, before anything the loop records: an error when the
    record does not start with [v=spf1], an error when it is longer than
    512 bytes, and a warning when it is longer than 450 bytes but not
    longer than 512. *)
Theorem X7_shape_checks_only_record
    (dns : string -> fetch_outcome) (fuel : nat) (domain : string)
    (depth visited : nat) (w : world) (c : ascii) (record : string) :
  (10 <? depth)%nat || Set_has visited domain w = false ->
  Result.record (interpret (dns domain)) = Some (String c record) ->
  11 - depth < fuel ->
  exists node w' es ws,
    parseSPFTree dns fuel domain depth visited w = Some (Some node, w') /\
    Node.domain node = domain /\
    Node.record node = String c record /\
    Context.errors (ctx w')
    = Context.errors (ctx w) ++ shape_errors domain (String c record) ++ es /\
    Context.warnings (ctx w')
    = Context.warnings (ctx w) ++ shape_warnings domain (String c record) ++ ws.
Proof.
  intros Hg Hr Hf.
  destruct fuel as [|fuel]; [lia|].
  destruct (parseSPFTree_total dns (S fuel) domain depth visited w Hf)
    as [[r w'] H].
  pose proof H as H'.
  rewrite (parseSPFTree_record _ _ _ _ _ _ c record) in H'
    by (rewrite ?(interpret_record _ _ Hr); done).
  destruct (for_loop _ _ _ _ _ _ _ _) as [[l w2]|] eqn:E; [|done].
  injection H' as <- <-.
  destruct (for_loop_accounted dns _ (parseSPFTree_accounted dns fuel)
              _ _ _ _ _ _ _ _ _ E) as (rs & ws & es & _ & Hw & He & _).
  exists (node_of domain (String c record) l w2), w2, es, ws.
  split; [done|]. split; [done|]. split; [done|].
  assert (ctx (before_loop dns domain (String c record) visited w)
          = ctx (check_shape domain (String c record) w)) as Hctx.
  { unfold before_loop, Set_add. cbn [ctx]. rewrite !check_shape_ctx.
    unfold track_void. rewrite (interpret_record_not_void _ _ Hr).
    reflexivity. }
  rewrite Hctx, check_shape_ctx in Hw, He. cbn in Hw, He.
  rewrite Hw, He. split; by rewrite <- app_assoc.
Qed.

Lemma X7_witness :
  exists node w' es ws,
    parseSPFTree
      (zone [("odd.example", txt ["spf: v=spf1 ip4:192.0.2.1 -all"])])
      12 "odd.example" 0 0 (Set_new ∅ initial).2
    = Some (Some node, w') /\
    Node.domain node = "odd.example" /\
    Node.record node = "spf: v=spf1 ip4:192.0.2.1 -all" /\
    Context.errors (ctx w') = [] ++ [Msg.bad_format "odd.example"] ++ es /\
    Context.warnings (ctx w') = [] ++ [] ++ ws.
Proof.
  apply (X7_shape_checks_only_record
           (zone [("odd.example", txt ["spf: v=spf1 ip4:192.0.2.1 -all"])])
           12 "odd.example" 0 0 (Set_new ∅ initial).2 "s"
           "pf: v=spf1 ip4:192.0.2.1 -all"); [reflexivity|reflexivity|cbn; lia].
Defined.

(** ** resolveSPFRecord *)

Lemma interpret_no_max_depth outcome :
  Result.error (interpret outcome) <> Some max_depth.
Proof.
  destruct outcome as [| |body]; simpl; [done..|].
  repeat case_match; simpl; done.
Qed.


(** X9. [resolveSPFRecord] answers once for a name and a set.  The error
    [max_depth] is returned exactly when the guard holds, and then nothing
    is requested and nothing is written.  A call at a depth of 10 at most,
    on a set that exists, leaves the name in the set, so that a second
    call for the same name with the same set is refused at any depth,
    without a request. *)
Theorem X9_a_set_answers_once_for_a_name
    (dns : string -> fetch_outcome) (domain : string)
    (depth depth' visited : nat) (w : world) :
  visited < length (sets w) ->
  depth <= 10 ->
  let first := resolveSPFRecord dns domain depth visited w in
  (Result.error first.1 = Some max_depth <-> Set_has visited domain w = true) /\
  (Set_has visited domain w = true -> first.2 = w) /\
  (Set_has visited domain w = false -> requests first.2 = requests w ++ [domain]) /\
  Set_has visited domain first.2 = true /\
  resolveSPFRecord dns domain depth' visited first.2
  = (Result.failure max_depth false, first.2).
Proof.
  intros Hv Hd first. subst first. unfold resolveSPFRecord.
  destruct (Nat.ltb_spec 10 depth) as [|_]; [lia|]. cbn [orb].
  destruct (Set_has visited domain w) eqn:Hh; cbn [fst snd].
  - rewrite Hh, orb_true_r. by repeat split.
  - assert (Set_has visited domain (log_request domain (Set_add visited domain w))
            = true) as Hh'.
    { unfold Set_has, Set_elements, log_request, Set_add. cbn [sets].
      rewrite list_lookup_insert_eq by done. simpl.
      apply bool_decide_eq_true. set_solver. }
    rewrite Hh', orb_true_r.
    pose proof (interpret_no_max_depth (dns domain)) as Hn.
    repeat split; try done.
Qed.

Lemma X9_witness :
  let w := (Set_new ∅ initial).2 in
  let first := resolveSPFRecord four_voids "root.example" 0 0 w in
  (Result.error first.1 = Some max_depth <->
   Set_has 0 "root.example" w = true) /\
  (Set_has 0 "root.example" w = true -> first.2 = w) /\
  (Set_has 0 "root.example" w = false ->
   requests first.2 = requests w ++ ["root.example"]) /\
  Set_has 0 "root.example" first.2 = true /\
  resolveSPFRecord four_voids "root.example" 7 0 first.2
  = (Result.failure max_depth false, first.2).
Proof.
  apply (X9_a_set_answers_once_for_a_name four_voids "root.example" 0 7 0
           (Set_new ∅ initial).2); [simpl; lia|lia].
Defined.

(** ** The fields of the children *)

(** X10. The [mechanism] field of an [include], [ip4] and [ip6] child is
    put together from what the code took apart: it is the qualifier that
    [getQualifier] gives, which is one of the four signs, then the keyword,
    then the value that [replace] left.  Read again, the field falls into
    the same branch and gives the same value and the same qualifier. *)
Theorem X10_mechanism_is_qualifier_keyword_value (t : string) (k : kind) :
  k ∈ [KInclude; KIp4; KIp6] ->
  classify t = k ->
  getQualifier t ∈ ["+"; "-"; "~"; "?"] /\
  explicit_qualifier t
  = getQualifier t +:+ spelling k +:+ replace_match (value_pattern k) t /\
  classify (explicit_qualifier t) = k /\
  replace_match (value_pattern k) (explicit_qualifier t)
  = replace_match (value_pattern k) t /\
  getQualifier (explicit_qualifier t) = getQualifier t.
Proof.
  intros Hk Hc.
  assert (case_sensitive (classify t) = true) as Hs.
  { rewrite Hc. rewrite !elem_of_cons in Hk.
    by destruct Hk as [->|[->|[->|Hk]]]; [..|inversion Hk]. }
  destruct (case_sensitive_shape _ Hs) as (q & r & Hq & Ht & _).
  rewrite Hc in Ht. clear Hc Hs. subst t.
  unfold qualifiers in Hq. rewrite !elem_of_cons in Hq.
  rewrite !elem_of_cons in Hk.
  destruct Hk as [->|[->|[->|Hk]]]; [..|inversion Hk];
    destruct Hq as [->|[->|[->|[->|[->|Hq]]]]]; try (by inversion Hq);
    (split; [vm_compute; set_solver|]);
    repeat split; vm_compute; reflexivity.
Qed.

Lemma X10_witness :
  getQualifier "include:_spf.example.net" ∈ ["+"; "-"; "~"; "?"] /\
  explicit_qualifier "include:_spf.example.net"
  = getQualifier "include:_spf.example.net" +:+ spelling KInclude
    +:+ replace_match (value_pattern KInclude) "include:_spf.example.net" /\
  classify (explicit_qualifier "include:_spf.example.net") = KInclude /\
  replace_match (value_pattern KInclude)
    (explicit_qualifier "include:_spf.example.net")
  = replace_match (value_pattern KInclude) "include:_spf.example.net" /\
  getQualifier (explicit_qualifier "include:_spf.example.net")
  = getQualifier "include:_spf.example.net".
Proof.
  apply (X10_mechanism_is_qualifier_keyword_value
           "include:_spf.example.net" KInclude); [by left|reflexivity].
Defined.

(** X11. The tokens of the [all] branch are the five spellings of [all]
    with a qualifier or none, in lower case.  The line that the page
    shows for the child is the token with its qualifier written out,
    followed by the name of the qualifier. *)
Theorem X11_the_all_children (t : string) :
  (classify t = KAll <-> t ∈ ["all"; "+all"; "-all"; "~all"; "?all"]) /\
  (classify t = KAll ->
   (all_qualifier t, getQualifierText (all_qualifier t))
   ∈ [("pass", "+all (Pass)"); ("fail", "-all (Fail)");
      ("softfail", "~all (Soft Fail)"); ("neutral", "?all (Neutral)")] /\
   exists name,
     getQualifierText (all_qualifier t)
     = explicit_qualifier t +:+ " (" +:+ name +:+ ")").
Proof.
  assert (classify t = KAll -> t ∈ ["all"; "+all"; "-all"; "~all"; "?all"])
    as Hshape.
  { intros Hc.
    assert (case_sensitive (classify t) = true) as Hs by by rewrite Hc.
    destruct (case_sensitive_shape _ Hs) as (q & r & Hq & Ht & _ & Hr).
    rewrite (Hr Hc), Hc in Ht. subst t.
    unfold qualifiers in Hq. rewrite !elem_of_cons in Hq.
    destruct Hq as [->|[->|[->|[->|[->|Hq]]]]]; [..|inversion Hq];
      vm_compute; set_solver. }
  split; [split; [exact Hshape|]|].
  - rewrite !elem_of_cons.
    intros [->|[->|[->|[->|[->|H]]]]]; [..|inversion H]; reflexivity.
  - intros Hc. specialize (Hshape Hc). rewrite !elem_of_cons in Hshape.
    destruct Hshape as [->|[->|[->|[->|[->|H]]]]]; [..|inversion H].
    + split; [vm_compute; set_solver|by exists "Pass"].
    + split; [vm_compute; set_solver|by exists "Pass"].
    + split; [vm_compute; set_solver|by exists "Fail"].
    + split; [vm_compute; set_solver|by exists "Soft Fail"].
    + split; [vm_compute; set_solver|by exists "Neutral"].
Qed.

Lemma X11_witness :
  (all_qualifier "-all", getQualifierText (all_qualifier "-all"))
  ∈ [("pass", "+all (Pass)"); ("fail", "-all (Fail)");
     ("softfail", "~all (Soft Fail)"); ("neutral", "?all (Neutral)")] /\
  exists name,
    getQualifierText (all_qualifier "-all")
    = explicit_qualifier "-all" +:+ " (" +:+ name +:+ ")".
Proof.
  apply (X11_the_all_children "-all"). reflexivity.
Defined.

(** ** The banner *)

Lemma length_limit_errors dns names :
  forall n,
    length (limit_errors dns n names) = (n + voids dns names) - Nat.max n 2.
Proof.
  unfold voids.
  induction names as [|name names IH]; intros n; simpl; [lia|].
  rewrite filter_cons. destruct (is_void dns name) eqn:Hv.
  - rewrite decide_True by done.
    rewrite length_app, IH. simpl.
    destruct (Nat.ltb_spec 2 (n + 1)); simpl; lia.
  - rewrite decide_False by (simpl; tauto).
    rewrite IH. lia.
Qed.

(** X12. The void-lookup budget, as the page shows it.  In a report the
    number of errors about the limit is the number of void lookups above
    two.  With more than two void lookups the banner is the one for
    serious problems, whatever the number of DNS lookups; the banner for a
    valid record stands for no error at all, ten DNS lookups at most and
    two void lookups at most. *)
Theorem X12_void_budget_and_banner
    (dns : string -> fetch_outcome) (fuel : nat) (domain : string)
    (shown : display) (rep : Report.t) :
  checkSPF dns fuel domain = Some shown ->
  result shown = Some rep ->
  length (filter (fun m => is_limit_error m) (Report.errors rep))
  = Report.voidLookups rep - 2 /\
  (2 < Report.voidLookups rep -> banner_of rep = Serious (Report.errors rep)) /\
  (banner_of rep = Valid ->
   Report.errors rep = [] /\ Report.dnsLookups rep <= 10 /\
   Report.voidLookups rep <= 2).
Proof.
  unfold checkSPF. intros Hc Hr.
  destruct (JsString.trim domain) as [|c name]; [by injection Hc as <-|].
  unfold parseSPFTree_root in Hc.
  destruct (parseSPFTree dns fuel (String c name) 0 (Set_new ∅ initial).1
              (Set_new ∅ initial).2) as [[[node|] w']|] eqn:E;
    cbn [Set_new fst snd] in E, Hc; rewrite E in Hc;
    [|by injection Hc as <-|done].
  injection Hc as <-. injection Hr as <-.
  destruct (parseSPFTree_accounted dns _ _ _ _ _ _ _ E)
    as (rs & ws & es & _ & _ & He & Hv & Hl).
  destruct fuel as [|fuel]; [done|].
  destruct (parseSPFTree_cases _ _ _ _ _ _ _ _ E)
    as [?|(c' & record & l & _ & _ & _ & Hn)]; [done|].
  injection Hn as ->.
  assert (length (filter (fun m => is_limit_error m) (Context.errors (ctx w')))
          = Context.voidLookups (ctx w') - 2) as Hlen.
  { rewrite He, Hv. cbn [ctx initial Context.fresh Context.errors
                          Context.voidLookups app].
    rewrite Hl, length_limit_errors. cbn. lia. }
  cbn [report node_of Report.errors Report.voidLookups Node.errors
       Node.voidLookups Report.dnsLookups Node.dnsLookups].
  split; [exact Hlen|].
  unfold banner_of.
  cbn [report node_of Report.errors Report.voidLookups Node.errors
       Node.voidLookups Report.dnsLookups Node.dnsLookups].
  destruct (Context.errors (ctx w')) as [|e es'] eqn:Hes.
  - simpl in Hlen. split; [lia|].
    destruct (Nat.ltb_spec 10 (dnsLookups l)); [done|].
    intros _. repeat split; [done|lia].
  - split; done.
Qed.

Lemma X12_witness :
  exists rep,
    result <$> checkSPF four_voids 12 "root.example" = Some (Some rep) /\
    length (filter (fun m => is_limit_error m) (Report.errors rep))
    = Report.voidLookups rep - 2 /\
    (2 < Report.voidLookups rep ->
     banner_of rep = Serious (Report.errors rep)) /\
    (banner_of rep = Valid ->
     Report.errors rep = [] /\ Report.dnsLookups rep <= 10 /\
     Report.voidLookups rep <= 2).
Proof.
  eexists. split; [vm_compute; reflexivity|].
  eapply (X12_void_budget_and_banner four_voids 12 "root.example");
    [vm_compute; reflexivity|reflexivity].
Defined.

(** ** The lookups that the tree shows *)

Section Loop_counted.

Variable nested :
  string -> nat -> nat -> world -> option (option Node.t * world).
Hypothesis nested_counted :
  forall d dp v w c w',
    nested d dp v w = Some (Some c, w') ->
    sum_list_with shown_lookups (Node.children c) <= Node.dnsLookups c /\
    forallb well_counted (Node.children c) = true.

Lemma counted_expansion x dp v w c w' :
  nested x dp v w = Some (Some c, w') ->
  (sum_list_with shown_lookups (Node.children c) + 1
   <=? Node.dnsLookups c + 1)%nat
  && forallb well_counted (Node.children c) = true.
Proof.
  intros [Hs Hc]%nested_counted. rewrite Hc, andb_true_r.
  apply Nat.leb_le. lia.
Qed.

Lemma iteration_counted domain depth visited i m l w l' w' :
  sum_list_with shown_lookups (children l) <= dnsLookups l /\
  forallb well_counted (children l) = true ->
  iteration nested domain depth visited i m l w = Some (l', w') ->
  sum_list_with shown_lookups (children l') <= dnsLookups l' /\
  forallb well_counted (children l') = true.
Proof.
  intros [Hs Hl]. unfold iteration.
  destruct (allFound l); [by intros [= <- <-]|].
  destruct (classify _);
    try (intros [= <- <-]; first [done | cbn; rewrite sum_list_with_app;
           split; [cbn; lia | by apply forallb_push]]).
  - destruct (Set_copy visited w) as [copy w1].
    destruct (nested _ _ _ _) as [[[c|] w2]|] eqn:Hn; intros [= <- <-];
      [|cbn; split; [lia|done]].
    cbn. rewrite sum_list_with_app. split; [cbn; lia|].
    apply forallb_push; [done|]. exact (counted_expansion _ _ _ _ _ _ Hn).
  - destruct (Set_copy visited w) as [copy w1].
    destruct (nested _ _ _ _) as [[[c|] w2]|] eqn:Hn; intros [= <- <-];
      [|cbn; split; [lia|done]].
    cbn. rewrite sum_list_with_app. split; [cbn; lia|].
    apply forallb_push; [done|]. exact (counted_expansion _ _ _ _ _ _ Hn).
Qed.

Lemma for_loop_counted domain depth visited ms :
  forall i l w l' w',
    sum_list_with shown_lookups (children l) <= dnsLookups l /\
    forallb well_counted (children l) = true ->
    for_loop nested domain depth visited i ms l w = Some (l', w') ->
    sum_list_with shown_lookups (children l') <= dnsLookups l' /\
    forallb well_counted (children l') = true.
Proof.
  induction ms as [|m ms IH]; intros i l w l' w' Hl; simpl.
  { by intros [= <- <-]. }
  destruct (iteration _ _ _ _ _ _ _ _) as [[l1 w1]|] eqn:E; [|done].
  apply IH. exact (iteration_counted _ _ _ _ _ _ _ _ _ Hl E).
Qed.

End Loop_counted.

(** X13. The numbers of DNS lookups that the tree shows add up.  The
    lookups of a node are at least the sum of what its children show; a
    [ptr], [a], [mx] or [exists] child shows 1; an [include] or [redirect]
    child shows at least one lookup more than its own children show
    together; and so on down the tree. *)
Theorem X13_shown_lookups_add_up
    (dns : string -> fetch_outcome) (fuel : nat) (domain : string)
    (depth visited : nat) (w w' : world) (node : Node.t) :
  parseSPFTree dns fuel domain depth visited w = Some (Some node, w') ->
  sum_list_with shown_lookups (Node.children node) <= Node.dnsLookups node /\
  forallb well_counted (Node.children node) = true.
Proof.
  revert domain depth visited w w' node.
  induction fuel as [|fuel IH]; intros domain depth visited w w' node H;
    [done|].
  destruct (parseSPFTree_cases _ _ _ _ _ _ _ _ H)
    as [?|(c & record & l & _ & _ & Hloop & [= ->])]; [done|].
  apply (for_loop_counted _ (fun d dp v w c w' => IH d dp v w w' c)) in Hloop;
    [exact Hloop|]. split; [cbn; lia|done].
Qed.

Lemma X13_witness :
  exists node w',
    parseSPFTree cycles_and_siblings 3 "root.example" 0 0 (Set_new ∅ initial).2
    = Some (Some node, w') /\
    sum_list_with shown_lookups (Node.children node) <= Node.dnsLookups node /\
    forallb well_counted (Node.children node) = true.
Proof.
  eexists _, _. split; [vm_compute; reflexivity|].
  eapply (X13_shown_lookups_add_up cycles_and_siblings 3 "root.example" 0 0
            (Set_new ∅ initial).2).
  vm_compute. reflexivity.
Defined.

(** ** The tree on the page *)

(** Induction on a child, with the property for the children of an
    expansion. *)
Lemma child_nested_ind (P : child -> Prop) :
  (forall m d r cs n nb q, Forall P cs -> P (CInclude m d r cs n nb q)) ->
  (forall m d r cs n nb, Forall P cs -> P (CRedirect m d r cs n nb)) ->
  (forall c, child_domain c = None -> named c = true -> P c) ->
  forall c, P c.
Proof.
  intros Hi Hr Hl. fix IH 1. intros c.
  assert (forall cs, Forall P cs) as Hcs.
  { fix IHcs 1. intros [|c' cs]; [constructor|].
    constructor; [apply IH|apply IHcs]. }
  destruct c; first [by apply Hi | by apply Hr | by apply Hl].
Qed.

Lemma leaf_inv c :
  child_domain c = None -> named c = true ->
  match c with
  | CInclude _ _ _ _ _ _ _ | CRedirect _ _ _ _ _ _ => False
  | _ => True
  end.
Proof.
  destruct c; try done; simpl; destruct (String.eqb _ _); done.
Qed.

#[local] Instance keys_kept_preorder : PreOrder keys_kept.
Proof.
  split; [by intros e k|].
  intros a b c Hab Hbc k Hk. apply Hbc, Hab, Hk.
Qed.

Lemma keys_kept_insert k e : keys_kept e (<[k := true]> e).
Proof.
  intros k' Hk'. destruct (decide (k = k')) as [->|Hne].
  - by rewrite lookup_insert_eq.
  - by rewrite lookup_insert_ne.
Qed.

Lemma forEach_child_cons expand c cs depth allKeys :
  forEach_child expand (c :: cs) depth allKeys
  = forEach_child expand cs depth
      (match child_domain c with
       | Some d => expand c d (depth + 1) allKeys
       | None => allKeys
       end).
Proof. done. Qed.

Lemma forEach_child_kept cs :
  Forall (fun c => forall d dp acc, keys_kept acc (expand c d dp acc)) cs ->
  forall dp acc, keys_kept acc (forEach_child expand cs dp acc).
Proof.
  induction 1 as [|c cs Hc _ IH]; intros dp acc; [done|].
  rewrite forEach_child_cons. etrans; [|apply IH].
  destruct (child_domain c); [apply Hc|done].
Qed.

Lemma expand_kept c : forall d dp acc, keys_kept acc (expand c d dp acc).
Proof.
  induction c as [m d0 r cs n nb q IH|m d0 r cs n nb IH|c Hd Hn]
    using child_nested_ind; intros d dp acc.
  - simpl. etrans; [apply keys_kept_insert|]. by apply forEach_child_kept.
  - simpl. etrans; [apply keys_kept_insert|]. by apply forEach_child_kept.
  - pose proof (leaf_inv c Hd Hn).
    destruct c; try done; simpl; apply keys_kept_insert.
Qed.

Lemma expand_sets_its_key c d dp acc :
  expand c d dp acc !! key d dp = Some true.
Proof.
  assert (keys_kept (<[key d dp := true]> acc) (expand c d dp acc)) as H.
  { destruct c; try done; simpl; apply forEach_child_kept, Forall_forall;
      intros c' _; apply expand_kept. }
  apply H. by rewrite lookup_insert_eq.
Qed.

Lemma SPFTreeNode_leaf shown c d dp :
  child_domain c = None -> named c = true -> SPFTreeNode shown c d dp = [(d, dp)].
Proof.
  intros Hd Hn. pose proof (leaf_inv c Hd Hn). by destruct c.
Qed.

Section All_expanded.

Variable e : gmap string bool.

Lemma map_from_all_expanded d dp cs :
  Forall (fun c =>
            named c = true ->
            forall d dp acc,
              keys_kept (expand c d dp acc) e ->
              SPFTreeNode (isExpanded e) c d dp
              = SPFTreeNode (fun _ _ => true) c d dp) cs ->
  forallb named cs = true ->
  forall idx acc,
    keys_kept (forEach_child expand cs dp acc) e ->
    map_from (SPFTreeNode (isExpanded e)) d dp idx cs
    = map_from (SPFTreeNode (fun _ _ => true)) d dp idx cs.
Proof.
  induction 1 as [|c cs Hc Hcs IH]; intros Hn idx acc He; [done|].
  simpl in Hn. apply andb_prop in Hn as [Hn Hns].
  rewrite forEach_child_cons in He. simpl. f_equal.
  - unfold domain_prop. destruct (child_domain c) as [dc|] eqn:Hd.
    + apply (Hc Hn _ _ acc). etrans; [|exact He].
      apply forEach_child_kept, Forall_forall. intros c' _.
      apply expand_kept.
    + by rewrite !SPFTreeNode_leaf.
  - exact (IH Hns _ _ He).
Qed.

Lemma SPFTreeNode_all_expanded c :
  named c = true ->
  forall d dp acc,
    keys_kept (expand c d dp acc) e ->
    SPFTreeNode (isExpanded e) c d dp = SPFTreeNode (fun _ _ => true) c d dp.
Proof.
  induction c as [m d0 r cs n nb q IH|m d0 r cs n nb IH|c Hd Hn]
    using child_nested_ind; intros Hnamed d dp acc He.
  - simpl in Hnamed. apply andb_prop in Hnamed as [_ Hns].
    simpl. f_equal.
    assert (isExpanded e d dp = true) as ->.
    { unfold isExpanded. by rewrite (He _ (expand_sets_its_key _ _ _ _)). }
    simpl. destruct (0 <? length cs)%nat; [|done].
    exact (map_from_all_expanded _ _ _ IH Hns _ _ He).
  - simpl in Hnamed. apply andb_prop in Hnamed as [_ Hns].
    simpl. f_equal.
    assert (isExpanded e d dp = true) as ->.
    { unfold isExpanded. by rewrite (He _ (expand_sets_its_key _ _ _ _)). }
    simpl. destruct (0 <? length cs)%nat; [|done].
    exact (map_from_all_expanded _ _ _ IH Hns _ _ He).
  - by rewrite !SPFTreeNode_leaf.
Qed.

End All_expanded.

(** X14. [expandAll] opens the whole tree, when no [include] and no
    [redirect] of the tree has an empty name: the page then holds the
    instances that it would hold if every condition [isExpanded] were
    true.  After [collapseAll] the page holds none. *)
Theorem X14_expandAll_opens_the_whole_tree (r : Report.t) :
  forallb named (Node.children (Report.tree r)) = true ->
  tree_rows (isExpanded (expandAll (Some r))) r
  = tree_rows (fun _ _ => true) r /\
  tree_rows (isExpanded collapseAll) r = [].
Proof.
  intros Hn. split; [|done].
  unfold tree_rows, expandAll.
  set (root := <[key (Node.domain (Report.tree r)) 0 := true]> ∅).
  set (e := forEach_child expand (Node.children (Report.tree r)) 0 root).
  assert (keys_kept root e) as Hroot.
  { apply forEach_child_kept, Forall_forall. intros c _. apply expand_kept. }
  assert (isExpanded e (Node.domain (Report.tree r)) 0 = true) as ->.
  { unfold isExpanded. rewrite (Hroot (key (Node.domain (Report.tree r)) 0));
      [done|]. unfold root. by rewrite lookup_insert_eq. }
  unfold map_children.
  apply (map_from_all_expanded e _ _ _) with (acc := root); [|done|done].
  apply Forall_forall. intros c _ Hc d dp acc.
  by apply SPFTreeNode_all_expanded.
Qed.

Lemma X14_witness :
  exists r,
    result <$> checkSPF cycles_and_siblings 3 "root.example" = Some (Some r) /\
    tree_rows (isExpanded (expandAll (Some r))) r
    = tree_rows (fun _ _ => true) r /\
    tree_rows (isExpanded collapseAll) r = [].
Proof.
  eexists. split; [vm_compute; reflexivity|].
  apply X14_expandAll_opens_the_whole_tree. vm_compute. reflexivity.
Defined.

Lemma map_from_ext shown shown' d dp cs :
  Forall (fun c => forall d dp,
            SPFTreeNode shown c d dp = SPFTreeNode shown' c d dp) cs ->
  forall idx,
    map_from (SPFTreeNode shown) d dp idx cs
    = map_from (SPFTreeNode shown') d dp idx cs.
Proof.
  induction 1 as [|c cs Hc _ IH]; intros idx; [done|].
  simpl. by rewrite Hc, IH.
Qed.

Lemma SPFTreeNode_ext shown shown' :
  (forall d dp, shown d dp = shown' d dp) ->
  forall c d dp, SPFTreeNode shown c d dp = SPFTreeNode shown' c d dp.
Proof.
  intros Hs c.
  induction c as [m d0 r cs n nb q IH|m d0 r cs n nb IH|c Hd Hn]
    using child_nested_ind; intros d dp.
  - simpl. rewrite Hs. destruct (_ && _); [|done].
    f_equal. by apply map_from_ext.
  - simpl. rewrite Hs. destruct (_ && _); [|done].
    f_equal. by apply map_from_ext.
  - by rewrite !SPFTreeNode_leaf.
Qed.

(** X15. [toggleNode] turns the condition of the instances with the key,
    and of no other: instances with the same name at the same depth open
    and close together.  Two clicks on the same key leave the page as it
    was, whether the key was set, unset or not there. *)
Theorem X15_toggleNode_round_trip
    (k : string) (e : gmap string bool) (r : Report.t) :
  (forall d dp,
     isExpanded (toggleNode k e) d dp
     = if decide (key d dp = k) then negb (isExpanded e d dp)
       else isExpanded e d dp) /\
  tree_rows (isExpanded (toggleNode k (toggleNode k e))) r
  = tree_rows (isExpanded e) r.
Proof.
  assert (forall e d dp,
            isExpanded (toggleNode k e) d dp
            = if decide (key d dp = k) then negb (isExpanded e d dp)
              else isExpanded e d dp) as Hflip.
  { intros e' d dp. unfold isExpanded, toggleNode.
    destruct (decide (key d dp = k)) as [->|Hne].
    - by rewrite lookup_insert_eq.
    - by rewrite lookup_insert_ne. }
  split; [apply Hflip|].
  assert (forall d dp,
            isExpanded (toggleNode k (toggleNode k e)) d dp = isExpanded e d dp)
    as Hsame.
  { intros d dp. rewrite !Hflip. destruct (decide _); [|done].
    by rewrite negb_involutive. }
  unfold tree_rows, map_children. rewrite Hsame.
  destruct (isExpanded e _ 0); [|done].
  apply map_from_ext, Forall_forall. intros c _. by apply SPFTreeNode_ext.
Qed.

(** ** The place of [all] *)

Lemma all_tracked_at_end l : all_tracked l -> all_at_end (children l) = true.
Proof.
  unfold all_tracked, all_at_end. intros [_ H].
  destruct (allFound l).
  - destruct H as (cs & m & q & i & -> & H). by rewrite removelast_last.
  - revert H. generalize (children l). intros cs.
    induction cs as [|c [|c' cs] IH]; [done..|].
    intros H. change (removelast (c :: c' :: cs)) with (c :: removelast (c' :: cs)).
    simpl in H |- *. apply andb_prop in H as [-> H]. by apply IH.
Qed.

Section Loop_all.

Variable nested :
  string -> nat -> nat -> world -> option (option Node.t * world).
Hypothesis nested_all :
  forall d dp v w c w',
    nested d dp v w = Some (Some c, w') ->
    all_at_end (Node.children c) = true /\
    forallb all_closes (Node.children c) = true.

Lemma all_tracked_push l :
  all_tracked l -> allFound l = false ->
  forall l' c,
    children l' = children l ++ [c] -> allFound l' = false ->
    is_all c = false -> all_closes c = true ->
    all_tracked l'.
Proof.
  unfold all_tracked. intros [Hl Hn] Hf l' c -> -> Hc Hcl. rewrite Hf in Hn.
  rewrite !forallb_app, Hl, Hn. simpl. by rewrite Hc, Hcl.
Qed.

Lemma iteration_all_tracked domain depth visited i m l w l' w' :
  all_tracked l ->
  iteration nested domain depth visited i m l w = Some (l', w') ->
  all_tracked l'.
Proof.
  intros Hl. unfold iteration.
  destruct (allFound l) eqn:Hf; [by intros [= <- <-]|].
  destruct (classify _);
    try (intros [= <- <-];
         first [done
               | eapply (all_tracked_push l Hl Hf);
                 [reflexivity|exact Hf|reflexivity|reflexivity]]).
  - destruct (Set_copy visited w) as [copy w1].
    destruct (nested _ _ _ _) as [[[c|] w2]|] eqn:Hn; intros [= <- <-];
      [|done].
    destruct (nested_all _ _ _ _ _ _ Hn) as [He Hc].
    eapply (all_tracked_push l Hl Hf); [reflexivity|exact Hf|reflexivity|].
    simpl. by rewrite He, Hc.
  - destruct (Set_copy visited w) as [copy w1].
    destruct (nested _ _ _ _) as [[[c|] w2]|] eqn:Hn; intros [= <- <-];
      [|done].
    destruct (nested_all _ _ _ _ _ _ Hn) as [He Hc].
    eapply (all_tracked_push l Hl Hf); [reflexivity|exact Hf|reflexivity|].
    simpl. by rewrite He, Hc.
  - intros [= <- <-]. destruct Hl as [Hl Hn]. rewrite Hf in Hn.
    split; cbn.
    + rewrite forallb_app, Hl. done.
    + by eexists _, _, _, _.
Qed.

Lemma for_loop_all_tracked domain depth visited ms :
  forall i l w l' w',
    all_tracked l ->
    for_loop nested domain depth visited i ms l w = Some (l', w') ->
    all_tracked l'.
Proof.
  induction ms as [|m ms IH]; intros i l w l' w' Hl; simpl.
  { by intros [= <- <-]. }
  destruct (iteration _ _ _ _ _ _ _ _) as [[l1 w1]|] eqn:E; [|done].
  apply IH. exact (iteration_all_tracked _ _ _ _ _ _ _ _ _ Hl E).
Qed.

End Loop_all.

(** X16. In the tree that a call returns, an [all] child is the last
    child of its node, at every level: a node has one [all] child at
    most, and nothing follows it. *)
Theorem X16_all_is_the_last_child
    (dns : string -> fetch_outcome) (fuel : nat) (domain : string)
    (depth visited : nat) (w w' : world) (node : Node.t) :
  parseSPFTree dns fuel domain depth visited w = Some (Some node, w') ->
  all_at_end (Node.children node) = true /\
  forallb all_closes (Node.children node) = true.
Proof.
  revert domain depth visited w w' node.
  induction fuel as [|fuel IH]; intros domain depth visited w w' node H;
    [done|].
  destruct (parseSPFTree_cases _ _ _ _ _ _ _ _ H)
    as [?|(c & record & l & _ & _ & Hloop & [= ->])]; [done|].
  apply (for_loop_all_tracked _ (fun d dp v w c w' => IH d dp v w w' c))
    in Hloop; [|by split].
  split; [by apply all_tracked_at_end|apply Hloop].
Qed.

Lemma X16_witness :
  exists node w',
    parseSPFTree redirect_after_all 3 "root.example" 0 0 (Set_new ∅ initial).2
    = Some (Some node, w') /\
    all_at_end (Node.children node) = true /\
    forallb all_closes (Node.children node) = true.
Proof.
  eexists _, _. split; [vm_compute; reflexivity|].
  eapply (X16_all_is_the_last_child redirect_after_all 3 "root.example" 0 0
            (Set_new ∅ initial).2).
  vm_compute. reflexivity.
Defined.

(** ** The root of the tree after [checkSPF] *)

Lemma length_append (a b : string) :
  String.length (a +:+ b) = String.length a + String.length b.
Proof. induction a as [|c a IH]; simpl; by rewrite ?IH. Qed.

Lemma append_inj_l (s a b : string) : a +:+ s = b +:+ s -> a = b.
Proof.
  revert b. induction a as [|c a IH]; intros [|c' b] H; simpl in H.
  - done.
  - apply (f_equal String.length) in H.
    rewrite !length_append in H. simpl in H. lia.
  - apply (f_equal String.length) in H.
    rewrite !length_append in H. simpl in H. lia.
  - injection H as -> H. by rewrite (IH _ H).
Qed.

Lemma key_inj d d' dp : key d dp = key d' dp -> d = d'.
Proof. apply append_inj_l. Qed.

(** [checkSPF] is [checkSPF_page] from the first state. *)
Lemma checkSPF_first_page dns fuel domain :
  display_of <$> checkSPF_page dns fuel domain first_page
  = checkSPF dns fuel domain.
Proof.
  unfold checkSPF_page, checkSPF.
  destruct (JsString.trim domain) as [|c name]; [done|].
  by destruct (parseSPFTree_root dns fuel (String c name)) as [[[node|] w']|].
Qed.

(** X17. On a blank text [checkSPF] only sets the error: the report and
    the keys stay as they were.  On any other text, when it shows a
    result, it sets the one key made of the text typed in, as it was
    typed, while the root of the tree has the trimmed text for its name:
    the root of the tree is then opened exactly when the text typed in
    has no white space around it. *)
Theorem X17_the_root_is_opened_for_a_trimmed_input
    (dns : string -> fetch_outcome) (fuel : nat) (domain : string)
    (prev : page) :
  (JsString.trim domain = "" ->
   checkSPF_page dns fuel domain prev
   = Some {| display_of := {| error := Some Msg.no_domain;
                              result := result (display_of prev) |};
             keys := keys prev |}) /\
  (JsString.trim domain <> "" ->
   forall next rep,
     checkSPF_page dns fuel domain prev = Some next ->
     result (display_of next) = Some rep ->
     keys next = {[ key domain 0 := true ]} /\
     Node.domain (Report.tree rep) = JsString.trim domain /\
     (isExpanded (keys next) (Node.domain (Report.tree rep)) 0 = true <->
      JsString.trim domain = domain)).
Proof.
  unfold checkSPF_page. split.
  { by intros ->. }
  intros Hne next rep Hc Hr.
  destruct (JsString.trim domain) as [|c name] eqn:Ht; [done|].
  destruct (parseSPFTree_root dns fuel (String c name))
    as [[[node|] w']|] eqn:E; [|by injection Hc as <-|done].
  injection Hc as <-. injection Hr as <-.
  unfold parseSPFTree_root in E. cbn [Set_new] in E.
  destruct fuel as [|fuel]; [done|].
  destruct (parseSPFTree_cases _ _ _ _ _ _ _ _ E)
    as [?|(c' & record & l & _ & _ & _ & [= ->])]; [done|].
  split; [reflexivity|]. split; [reflexivity|].
  cbn [keys report Report.tree node_of Node.domain]. unfold isExpanded.
  split.
  - intros H. destruct (decide (key (String c name) 0 = key domain 0))
      as [Hk|Hk]; [exact (key_inj _ _ _ Hk)|].
    by rewrite lookup_singleton_ne in H.
  - intros ->. by rewrite lookup_singleton_eq.
Qed.

Lemma X17_witness :
  exists next rep,
    checkSPF_page cycles_and_siblings 3 " root.example" first_page
    = Some next /\
    result (display_of next) = Some rep /\
    keys next = {[ key " root.example" 0 := true ]} /\
    Node.domain (Report.tree rep) = JsString.trim " root.example" /\
    (isExpanded (keys next) (Node.domain (Report.tree rep)) 0 = true <->
     JsString.trim " root.example" = " root.example").
Proof.
  eassert (parseSPFTree_root cycles_and_siblings 3 "root.example"
           = Some (Some _, _)) as E by (vm_compute; reflexivity).
  eassert (checkSPF_page cycles_and_siblings 3 " root.example" first_page
           = Some {| display_of := {| error := None; result := Some _ |};
                     keys := {[ key " root.example" 0 := true ]} |}) as Hc.
  { unfold checkSPF_page.
    change (JsString.trim " root.example") with "root.example".
    cbv beta iota. rewrite E. reflexivity. }
  eexists _, _. split; [exact Hc|]. split; [reflexivity|].
  apply (proj2 (X17_the_root_is_opened_for_a_trimmed_input
                  cycles_and_siblings 3 " root.example" first_page));
    [discriminate|exact Hc|reflexivity].
Defined.
